(** * Shallow embedding of pkg/roachpb/data.go and pkg/kv/bulk/sst_batcher.go

    Part I translates the Go source: keys and spans, checksummed values,
    transaction records, leases and the bulk-ingestion batcher.  Part II
    states and proves the properties established about these definitions. *)

From Stdlib Require Import ZArith List Bool Lia Orders OrdersTac Sorted.
From Stdlib Require Import Strings.Byte.
Import ListNotations.

Local Open Scope Z_scope.

(* ################################################################## *)
(** * Part I: the model *)
(* ################################################################## *)

(** How a Go call ends: it returns a value, returns an error, or leaves by a
    panic (a run-time panic such as a slice bound, an explicit [panic], or
    [log.Fatalf]). *)
Inductive outcome (E P A : Type) : Type :=
| Done (a : A)
| Failed (e : E)
| Panicked (p : P).
Arguments Done {E P A} a.
Arguments Failed {E P A} e.
Arguments Panicked {E P A} p.

(** Fixed-width integer arithmetic wraps around. *)
Definition wrap_u32 (z : Z) : Z := z mod 2 ^ 32.
Definition wrap_i32 (z : Z) : Z := (z + 2 ^ 31) mod 2 ^ 32 - 2 ^ 31.
Definition wrap_i64 (z : Z) : Z := (z + 2 ^ 63) mod 2 ^ 64 - 2 ^ 63.
Definition MaxInt32 : Z := 2 ^ 31 - 1.

(* ================================================================== *)
(** ** Byte strings: the Go [bytes] package and [encoding] helpers *)
(* ================================================================== *)

Module GoBytes.

(** Numeric value of a byte, as Go compares and encodes it. *)
Definition byte_val (b : byte) : Z := Z.of_N (Byte.to_N b).

(** The byte holding [z mod 256]. *)
Definition byte_of_Z (z : Z) : byte :=
  match Byte.of_N (Z.to_N (z mod 256)) with
  | Some b => b
  | None => x00
  end.

(** [bytes.Compare]: lexicographic, a proper prefix sorts first.  Go returns
    -1, 0 or +1; here the three outcomes are [Lt], [Eq] and [Gt]. *)
Fixpoint Compare (a b : list byte) : comparison :=
  match a, b with
  | [], [] => Eq
  | [], _ :: _ => Lt
  | _ :: _, [] => Gt
  | x :: a', y :: b' =>
      match Z.compare (byte_val x) (byte_val y) with
      | Eq => Compare a' b'
      | c => c
      end
  end.

(** [bytes.Equal]. *)
Definition Equal (a b : list byte) : bool :=
  match Compare a b with Eq => true | _ => false end.

(** The tests Go code writes on the integer result of [Compare]. *)
Definition lt0 (c : comparison) : bool := match c with Lt => true | _ => false end.
Definition le0 (c : comparison) : bool := match c with Gt => false | _ => true end.
Definition gt0 (c : comparison) : bool := match c with Gt => true | _ => false end.
Definition ge0 (c : comparison) : bool := match c with Lt => false | _ => true end.

(** Go's [len(x) == 0] on a slice (a nil slice has length 0 too). *)
Definition is_empty (a : list byte) : bool :=
  match a with [] => true | _ => false end.

(** [len(x)] as an integer. *)
Definition len (a : list byte) : Z := Z.of_nat (length a).

(** The sub-slice [a[lo:]] for [0 <= lo <= len(a)]. *)
Definition from (lo : Z) (a : list byte) : list byte := skipn (Z.to_nat lo) a.

(** [binary.BigEndian.Uint32(b)]: the first four bytes, most significant
    first.  Go panics when [len(b) < 4]; every call below is made on a slice
    already known to hold four bytes. *)
Definition Uint32 (b : list byte) : Z :=
  byte_val (nth 0 b x00) * 2 ^ 24 + byte_val (nth 1 b x00) * 2 ^ 16 +
  byte_val (nth 2 b x00) * 2 ^ 8 + byte_val (nth 3 b x00).

(** [encoding.EncodeUint32Ascending(nil, v)]: the four big-endian bytes of
    the uint32 [v]. *)
Definition EncodeUint32Ascending (v : Z) : list byte :=
  [byte_of_Z (v / 2 ^ 24); byte_of_Z (v / 2 ^ 16); byte_of_Z (v / 2 ^ 8); byte_of_Z v].

(** [encoding.DecodeUint32Ascending(b)]: the value of the first four bytes,
    or an error ([None]) when fewer are present. *)
Definition DecodeUint32Ascending (b : list byte) : option Z :=
  if len b <? 4 then None else Some (Uint32 b).

(** [copy(dst, src)] where [dst] is [a[off:]]: overwrites
    [min(len(a) - off, len(src))] bytes of [a] starting at [off]. *)
Definition copy_at (off : nat) (a src : list byte) : list byte :=
  let n := Nat.min (length a - off) (length src) in
  firstn off a ++ firstn n src ++ skipn (off + n) a.

(** [a[i] = x] for [i < len(a)]. *)
Definition set_at (i : nat) (x : byte) (a : list byte) : list byte :=
  firstn i a ++ x :: skipn (S i) a.

(** [hash/crc32] with the IEEE polynomial, bit by bit: what a hasher from
    [crc32.NewIEEE()] returns from [Sum32] after the bytes were written. *)
Definition crc_shift (c : Z) : Z :=
  if Z.testbit c 0 then Z.lxor (Z.shiftr c 1) 3988292384 else Z.shiftr c 1.

Definition crc_byte (c : Z) (b : byte) : Z :=
  Nat.iter 8 crc_shift (Z.lxor c (byte_val b)).

Definition crc32_ieee (data : list byte) : Z :=
  Z.lxor (fold_left crc_byte data 4294967295) 4294967295.

End GoBytes.

(* ================================================================== *)
(** ** Keys (data.go, [Key]) *)
(* ================================================================== *)

(** [type Key []byte]. *)
Definition Key := list byte.

Module KeyOrd.

(** [encoding.BytesNext], which [Key.Next] wraps: the key with a zero byte
    appended, the immediate successor in [bytes.Compare] order. *)
Definition BytesNext (b : list byte) : list byte := b ++ [x00].

(** [func (k Key) Next() Key]. *)
Definition Next (k : Key) : Key := BytesNext k.

(** [func (k Key) Compare(b Key) int]. *)
Definition Compare (k b : Key) : comparison := GoBytes.Compare k b.

(** [func (k Key) Equal(l Key) bool]. *)
Definition Equal (k l : Key) : bool := GoBytes.Equal k l.

(** [func (k Key) Less(b Key) bool]. *)
Definition Less (k b : Key) : bool := GoBytes.lt0 (Compare k b).

(** [func (k Key) IsPrev(m Key) bool]: "a more efficient version of
    [k.Next().Equal(m)]". *)
Definition IsPrev (k m : Key) : bool :=
  let l := GoBytes.len m - 1 in
  (l =? GoBytes.len k) &&
  (GoBytes.byte_val (nth (Z.to_nat l) m x00) =? 0) &&
  Equal k (firstn (Z.to_nat l) m).

(** Errors of [Key.Clamp]. *)
Inductive clamp_error := MinLargerThanMax (min max : Key).

(** [func (k Key) Clamp(min, max Key) (Key, error)]. *)
Definition Clamp (k min max : Key) : clamp_error + Key :=
  if Less max min then inl (MinLargerThanMax min max)
  else
    let result := k in
    let result := if Less k min then min else result in
    let result := if Less max k then max else result in
    inr result.

(** The order that [Compare] decides. *)
Definition lt (a b : Key) : Prop := GoBytes.Compare a b = Lt.
Definition le (a b : Key) : Prop := GoBytes.Compare a b <> Gt.

End KeyOrd.

(* ================================================================== *)
(** ** Spans (data.go, [Span]) *)
(* ================================================================== *)

Module Span.

Local Abbreviation key := Key (only parsing).

(** [type Span struct { Key Key; EndKey Key }]: the half-open range
    [[Key, EndKey)], or the single key [Key] when [EndKey] is empty. *)
Record t := mk { Key : key; EndKey : key }.

(** The zero value [Span{}]. *)
Definition zero : t := mk [] [].

(** [func (s Span) Equal(o Span) bool]. *)
Definition Equal (s o : t) : bool :=
  KeyOrd.Equal (Key s) (Key o) && KeyOrd.Equal (EndKey s) (EndKey o).

(** [func (s Span) ZeroLength() bool]. *)
Definition ZeroLength (s : t) : bool := KeyOrd.Equal (Key s) (EndKey s).

(** [func (s Span) Valid() bool]. *)
Definition Valid (s : t) : bool :=
  if GoBytes.is_empty (Key s) && GoBytes.is_empty (EndKey s) then false
  else if GoBytes.is_empty (EndKey s) then true
  else if GoBytes.ge0 (GoBytes.Compare (Key s) (EndKey s)) then false
  else true.

(** [func (s Span) Clamp(bounds Span) (Span, error)]. *)
Definition Clamp (s bounds : t) : KeyOrd.clamp_error + t :=
  match KeyOrd.Clamp (Key s) (Key bounds) (EndKey bounds) with
  | inl e => inl e
  | inr start =>
      match KeyOrd.Clamp (EndKey s) (Key bounds) (EndKey bounds) with
      | inl e => inl e
      | inr end_ => inr (mk start end_)
      end
  end.

(** [func (s Span) Overlaps(o Span) bool]. *)
Definition Overlaps (s o : t) : bool :=
  if negb (Valid s) || negb (Valid o) then false
  else if GoBytes.is_empty (EndKey s) && GoBytes.is_empty (EndKey o) then
    KeyOrd.Equal (Key s) (Key o)
  else if GoBytes.is_empty (EndKey s) then
    GoBytes.ge0 (GoBytes.Compare (Key s) (Key o)) &&
    GoBytes.lt0 (GoBytes.Compare (Key s) (EndKey o))
  else if GoBytes.is_empty (EndKey o) then
    GoBytes.ge0 (GoBytes.Compare (Key o) (Key s)) &&
    GoBytes.lt0 (GoBytes.Compare (Key o) (EndKey s))
  else
    GoBytes.gt0 (GoBytes.Compare (EndKey s) (Key o)) &&
    GoBytes.lt0 (GoBytes.Compare (Key s) (EndKey o)).

(** [func (s Span) Intersect(o Span) Span]. *)
Definition Intersect (s o : t) : t :=
  if negb (Overlaps s o) then zero
  else if GoBytes.is_empty (EndKey s) then s
  else if GoBytes.is_empty (EndKey o) then o
  else
    let key := Key s in
    let key := if GoBytes.lt0 (KeyOrd.Compare key (Key o)) then Key o else key in
    let endKey := EndKey s in
    let endKey :=
      if GoBytes.gt0 (KeyOrd.Compare endKey (EndKey o)) then EndKey o else endKey in
    mk key endKey.

(** [func (s Span) Combine(o Span) Span]. *)
Definition Combine (s o : t) : t :=
  if negb (Valid s) || negb (Valid o) then zero
  else
    let min := Key s in
    let max := Key s in
    let max := if negb (GoBytes.is_empty (EndKey s)) then EndKey s else max in
    let '(min, max) :=
      if GoBytes.lt0 (KeyOrd.Compare (Key o) min) then (Key o, max)
      else if GoBytes.gt0 (KeyOrd.Compare (Key o) max) then (min, Key o)
      else (min, max) in
    let max :=
      if negb (GoBytes.is_empty (EndKey o)) &&
         GoBytes.gt0 (KeyOrd.Compare (EndKey o) max)
      then EndKey o else max in
    if KeyOrd.Equal min max then mk min []
    else if KeyOrd.Equal (Key s) max || KeyOrd.Equal (Key o) max then
      mk min (KeyOrd.Next max)
    else mk min max.

(** [func (s Span) Contains(o Span) bool]. *)
Definition Contains (s o : t) : bool :=
  if negb (Valid s) || negb (Valid o) then false
  else if GoBytes.is_empty (EndKey s) && GoBytes.is_empty (EndKey o) then
    KeyOrd.Equal (Key s) (Key o)
  else if GoBytes.is_empty (EndKey s) then false
  else if GoBytes.is_empty (EndKey o) then
    GoBytes.ge0 (GoBytes.Compare (Key o) (Key s)) &&
    GoBytes.lt0 (GoBytes.Compare (Key o) (EndKey s))
  else
    GoBytes.le0 (GoBytes.Compare (Key s) (Key o)) &&
    GoBytes.ge0 (GoBytes.Compare (EndKey s) (EndKey o)).

(** [func (s Span) ContainsKey(key Key) bool]. *)
Definition ContainsKey (s : t) (k : key) : bool :=
  GoBytes.ge0 (GoBytes.Compare k (Key s)) &&
  GoBytes.lt0 (GoBytes.Compare k (EndKey s)).

(** [func (s Span) CompareKey(key Key) int]. *)
Definition CompareKey (s : t) (k : key) : Z :=
  if GoBytes.ge0 (GoBytes.Compare k (Key s)) then
    if GoBytes.lt0 (GoBytes.Compare k (EndKey s)) then 0 else 1
  else -1.

(** [func (s Span) ProperlyContainsKey(key Key) bool]. *)
Definition ProperlyContainsKey (s : t) (k : key) : bool :=
  GoBytes.gt0 (GoBytes.Compare k (Key s)) &&
  GoBytes.lt0 (GoBytes.Compare k (EndKey s)).

(** [func (s Span) SplitOnKey(key Key) (left Span, right Span)]. *)
Definition SplitOnKey (s : t) (k : key) : t * t :=
  if GoBytes.le0 (GoBytes.Compare k (Key s)) ||
     GoBytes.ge0 (GoBytes.Compare k (EndKey s))
  then (s, zero)
  else (mk (Key s) k, mk k (EndKey s)).

(** [func (a Spans) ContainsKey(key Key) bool]: some span of the list
    contains the key. *)
Definition Spans_ContainsKey (a : list t) (k : key) : bool :=
  existsb (fun s => ContainsKey s k) a.

(** The two representations the span algebra is asked to identify:
    [Span{Key: k}] and [Span{Key: k, EndKey: k.Next()}]. *)
Definition single (k : key) : t := mk k [].
Definition point_range (k : key) : t := mk k (KeyOrd.Next k).

(** Reading a span as a half-open range, the way [Span.AsRange] does for an
    empty end key. *)
Definition as_range (s : t) : t :=
  if GoBytes.is_empty (EndKey s) then mk (Key s) (KeyOrd.Next (Key s)) else s.

End Span.

(* ================================================================== *)
(** ** Values (data.go, [Value]) *)
(* ================================================================== *)

Module Value.

(** Layout constants of data.go. *)
Definition checksumUninitialized : Z := 0.
Definition checksumSize : Z := 4.
Definition tagPos : Z := checksumSize.
Definition headerSize : Z := tagPos + 1.
Definition extendedMVCCValLenSize : Z := 4.
Definition extendedPreludeSize : Z := extendedMVCCValLenSize + 1.

(** [ValueType] is a protobuf enum stored in one byte; it is declared in the
    generated data.pb.go.  The tag byte of a value may hold any number, so
    the type is the byte's value; the named constants are those of the
    enum ([IsPresent] spells the sentinel out as "`e` (ascii 101)"). *)
Definition ValueType := Z.
Definition ValueType_UNKNOWN : ValueType := 0.
Definition ValueType_INT : ValueType := 1.
Definition ValueType_BYTES : ValueType := 3.
Definition ValueType_TUPLE : ValueType := 10.
Definition ValueType_MVCC_EXTENDED_ENCODING_SENTINEL : ValueType := 101.

(** [type Value struct { RawBytes []byte; Timestamp hlc.Timestamp }].
    [RawBytes] is [None] for a nil slice; [spare] is the part of the slice's
    backing array between its length and its capacity, which
    [ensureRawBytes] brings back into view.  The functions embedded here do
    not read [Timestamp]. *)
Record t := mk { RawBytes : option (list byte); spare : list byte }.

(** The zero value [Value{}]. *)
Definition zero : t := mk None [].

Definition raw (v : t) : list byte :=
  match RawBytes v with Some b => b | None => [] end.

Definition len (v : t) : Z := GoBytes.len (raw v).

Definition cap (v : t) : Z := GoBytes.len (raw v) + GoBytes.len (spare v).

(** The byte [v.RawBytes[i]] for [i < len]. *)
Definition at_ (v : t) (i : Z) : Z := GoBytes.byte_val (nth (Z.to_nat i) (raw v) x00).

Inductive panic :=
| InitializedChecksum (sum : Z)      (* panic(errors.Errorf("initialized checksum = %x", ...)) *)
| SliceBounds                        (* run-time panic: slice bounds out of range *)
| IndexRange.                        (* run-time panic: index out of range *)

Inductive error :=
| InvalidHeaderSize (n : Z)
| InvalidChecksum (computed : Z)
| ValueTypeIsNot (want got : ValueType).

Definition result := outcome error panic.

(** [func (v *Value) usesExtendedEncoding() bool]. *)
Definition usesExtendedEncoding (v : t) : bool :=
  (headerSize <? len v) &&
  (at_ v tagPos =? ValueType_MVCC_EXTENDED_ENCODING_SENTINEL).

(** [func (v Value) checksum() uint32].  The slice handed to
    [DecodeUint32Ascending] always holds four bytes, so the [panic(err)] of
    the source is dead and the decoded value is [Uint32] of that slice. *)
Definition checksum (v : t) : Z :=
  if len v <? checksumSize then 0
  else if usesExtendedEncoding v then
    let extendedHeaderSize := wrap_u32 (extendedMVCCValLenSize + GoBytes.Uint32 (raw v)) in
    if len v <? extendedHeaderSize + headerSize then 0
    else
      let checksumStart := extendedHeaderSize + 1 in
      GoBytes.Uint32 (firstn 4 (GoBytes.from checksumStart (raw v)))
  else GoBytes.Uint32 (firstn 4 (raw v)).

(** [func (v *Value) setChecksum(cksum uint32)]: the encoding is appended to
    [v.RawBytes[:0]], that is written over the first four bytes. *)
Definition setChecksum (v : t) (cksum : Z) : t :=
  if checksumSize <=? len v then
    mk (Some (GoBytes.EncodeUint32Ascending cksum ++ skipn 4 (raw v))) (spare v)
  else v.

(** [func computeChecksum(key, rawBytes []byte, crc hash.Hash32) uint32].
    [crc] is what the hasher returns for the bytes written to it.  The
    re-slicing [rawBytes[simpleValueStart:]] panics when the start lies
    beyond the length. *)
Definition computeChecksum (key rawBytes : list byte) (crc : list byte -> Z)
  : panic + Z :=
  let finish (rawBytes : list byte) :=
    let sum := crc (key ++ GoBytes.from checksumSize rawBytes) in
    if sum =? checksumUninitialized then 1 else sum in
  if GoBytes.len rawBytes <? headerSize then inr 0
  else if GoBytes.byte_val (nth (Z.to_nat tagPos) rawBytes x00)
          =? ValueType_MVCC_EXTENDED_ENCODING_SENTINEL then
    let simpleValueStart :=
      wrap_u32 (extendedMVCCValLenSize + GoBytes.Uint32 rawBytes + 1) in
    if GoBytes.len rawBytes <? simpleValueStart then inl SliceBounds
    else
      let rawBytes := GoBytes.from simpleValueStart rawBytes in
      if GoBytes.len rawBytes <? headerSize then inr 0
      else inr (finish rawBytes)
  else inr (finish rawBytes).

(** [func (v Value) computeChecksum(key []byte) uint32], with the pooled
    IEEE hasher. *)
Definition computeChecksum_v (v : t) (key : list byte) : panic + Z :=
  computeChecksum key (raw v) GoBytes.crc32_ieee.

(** [func (v *Value) InitChecksum(key []byte)]. *)
Definition InitChecksum (v : t) (key : list byte) : result t :=
  match RawBytes v with
  | None => Done v
  | Some _ =>
      if negb (checksum v =? checksumUninitialized) then
        Panicked (InitializedChecksum (checksum v))
      else
        match computeChecksum_v v key with
        | inl p => Panicked p
        | inr sum => Done (setChecksum v sum)
        end
  end.

(** [func (v *Value) ClearChecksum()]. *)
Definition ClearChecksum (v : t) : t := setChecksum v 0.

(** [func (v Value) VerifyHeader() error]. *)
Definition VerifyHeader (v : t) : option error :=
  let n := len v in
  if (0 <? n) && (n <? headerSize) then Some (InvalidHeaderSize n) else None.

(** [func (v Value) Verify(key []byte) error]. *)
Definition Verify (v : t) (key : list byte) : result unit :=
  match VerifyHeader v with
  | Some err => Failed err
  | None =>
      let sum := checksum v in
      if negb (sum =? 0) then
        match computeChecksum_v v key with
        | inl p => Panicked p
        | inr computedSum =>
            if negb (computedSum =? sum) then Failed (InvalidChecksum computedSum)
            else Done tt
        end
      else Done tt
  end.

(** [func (v *Value) IsPresent() bool], on a non-nil receiver. *)
Definition IsPresent (v : t) : bool :=
  if len v =? 0 then false
  else if usesExtendedEncoding v then
    let extendedHeaderSize := wrap_u32 (extendedPreludeSize + GoBytes.Uint32 (raw v)) in
    extendedHeaderSize <? len v
  else true.

(** [func (v Value) extendedSimpleTagPos() int]. *)
Definition extendedSimpleTagPos (v : t) : Z :=
  wrap_u32 (extendedMVCCValLenSize + GoBytes.Uint32 (raw v) + headerSize).

(** [func (v Value) GetTag() ValueType]. *)
Definition GetTag (v : t) : ValueType :=
  if len v <=? tagPos then ValueType_UNKNOWN
  else if at_ v tagPos =? ValueType_MVCC_EXTENDED_ENCODING_SENTINEL then
    let simpleTagPos := extendedSimpleTagPos v in
    if len v <=? simpleTagPos then ValueType_UNKNOWN
    else at_ v simpleTagPos
  else at_ v tagPos.

(** Where [dataBytes()] starts inside [RawBytes]; the slice expression
    panics when that offset exceeds the length. *)
Definition dataStart (v : t) : panic + Z :=
  let start :=
    if usesExtendedEncoding v then extendedSimpleTagPos v + 1 else headerSize in
  if len v <? start then inl SliceBounds else inr start.

(** [func (v Value) dataBytes() []byte]. *)
Definition dataBytes (v : t) : panic + list byte :=
  match dataStart v with
  | inl p => inl p
  | inr start => inr (GoBytes.from start (raw v))
  end.

(** Where [TagAndDataBytes()] starts inside [RawBytes]. *)
Definition tagStart (v : t) : panic + Z :=
  let start := if usesExtendedEncoding v then extendedSimpleTagPos v else tagPos in
  if len v <? start then inl SliceBounds else inr start.

(** [func (v Value) TagAndDataBytes() []byte]. *)
Definition TagAndDataBytes (v : t) : panic + list byte :=
  match tagStart v with
  | inl p => inl p
  | inr start => inr (GoBytes.from start (raw v))
  end.

(** [func (v Value) EqualTagAndData(o Value) bool]. *)
Definition EqualTagAndData (v o : t) : panic + bool :=
  match TagAndDataBytes v, TagAndDataBytes o with
  | inr a, inr b => inr (GoBytes.Equal a b)
  | inl p, _ => inl p
  | _, inl p => inl p
  end.

(** [func (v *Value) setTag(t ValueType)]. *)
Definition setTag (v : t) (ty : ValueType) : panic + t :=
  if len v <=? tagPos then inl IndexRange
  else inr (mk (Some (GoBytes.set_at (Z.to_nat tagPos) (GoBytes.byte_of_Z ty) (raw v)))
               (spare v)).

(** [func (v *Value) ensureRawBytes(size int)], for [size >= 0]: a fresh
    zeroed array when the capacity is too small (the checksum is then zero
    already), the old array re-sliced and its checksum cleared otherwise. *)
Definition ensureRawBytes (v : t) (size : Z) : t :=
  if cap v <? size then mk (Some (repeat x00 (Z.to_nat size))) []
  else
    let backing := raw v ++ spare v in
    setChecksum (mk (Some (firstn (Z.to_nat size) backing))
                    (skipn (Z.to_nat size) backing)) checksumUninitialized.

(** The common body of [SetBytes], [SetString] and [SetTuple]:
    [ensureRawBytes(headerSize + len(b)); copy(v.dataBytes(), b); setTag(ty)]. *)
Definition setData (v : t) (b : list byte) (ty : ValueType) : panic + t :=
  let v := ensureRawBytes v (headerSize + GoBytes.len b) in
  match dataStart v with
  | inl p => inl p
  | inr start =>
      setTag (mk (Some (GoBytes.copy_at (Z.to_nat start) (raw v) b)) (spare v)) ty
  end.

(** [func (v *Value) SetBytes(b []byte)]. *)
Definition SetBytes (v : t) (b : list byte) : panic + t := setData v b ValueType_BYTES.

(** [func (v *Value) SetString(s string)], the string given by its bytes. *)
Definition SetString (v : t) (s : list byte) : panic + t := setData v s ValueType_BYTES.

(** [func (v *Value) SetTuple(data []byte)]. *)
Definition SetTuple (v : t) (data : list byte) : panic + t := setData v data ValueType_TUPLE.

(** [func (v *Value) SetTagAndData(b []byte)]. *)
Definition SetTagAndData (v : t) (b : list byte) : panic + t :=
  let v := ensureRawBytes v (checksumSize + GoBytes.len b) in
  match tagStart v with
  | inl p => inl p
  | inr start => inr (mk (Some (GoBytes.copy_at (Z.to_nat start) (raw v) b)) (spare v))
  end.

(** [func MakeValueFromBytes(bs []byte) Value]. *)
Definition MakeValueFromBytes (bs : list byte) : panic + t := SetBytes zero bs.

(** [func (v Value) GetBytes() ([]byte, error)]. *)
Definition GetBytes (v : t) : result (list byte) :=
  let tag := GetTag v in
  if negb (tag =? ValueType_BYTES) then Failed (ValueTypeIsNot ValueType_BYTES tag)
  else match dataBytes v with inl p => Panicked p | inr b => Done b end.

(** [func (v Value) GetTuple() ([]byte, error)]. *)
Definition GetTuple (v : t) : result (list byte) :=
  let tag := GetTag v in
  if negb (tag =? ValueType_TUPLE) then Failed (ValueTypeIsNot ValueType_TUPLE tag)
  else match dataBytes v with inl p => Panicked p | inr b => Done b end.

End Value.

(* ================================================================== *)
(** ** Hybrid-logical-clock timestamps *)
(* ================================================================== *)

Module hlc.

(** Modelled from the spec: [hlc.Timestamp] and its methods live in
    pkg/util/hlc, which is not among the sources.  The spec treats a
    timestamp as a totally ordered clock reading that merges by maximum
    ("advances write timestamp to max(current, timestamp)", "all timestamps
    monotonically forward"), the zero value meaning "unset".  A reading is a
    wall time (int64) with a logical counter (int32) breaking ties. *)
Record Timestamp := mk { WallTime : Z; Logical : Z }.

Definition zero : Timestamp := mk 0 0.

Definition Less (t s : Timestamp) : bool :=
  (WallTime t <? WallTime s) ||
  ((WallTime t =? WallTime s) && (Logical t <? Logical s)).

Definition Equal (t s : Timestamp) : bool :=
  (WallTime t =? WallTime s) && (Logical t =? Logical s).

Definition LessEq (t s : Timestamp) : bool :=
  (WallTime t <? WallTime s) ||
  ((WallTime t =? WallTime s) && (Logical t <=? Logical s)).

Definition IsEmpty (t : Timestamp) : bool := Equal t zero.

(** [t.Forward(s)]: [t] becomes the later of the two. *)
Definition Forward (t s : Timestamp) : Timestamp := if Less t s then s else t.

(** [t.Backward(s)]: [t] becomes the earlier of the two. *)
Definition Backward (t s : Timestamp) : Timestamp := if Less s t then s else t.

End hlc.

(* ================================================================== *)
(** ** Transactions (data.go, [Transaction]) *)
(* ================================================================== *)

Module Txn.

Local Abbreviation key := Key (only parsing).

(** [TransactionStatus], a protobuf enum: the five declared values, and any
    other number the int32 may hold. *)
Inductive TransactionStatus :=
| PENDING | COMMITTED | ABORTED | STAGING | PREPARED
| UndeclaredStatus (n : Z).

Definition status_eqb (a b : TransactionStatus) : bool :=
  match a, b with
  | PENDING, PENDING | COMMITTED, COMMITTED | ABORTED, ABORTED
  | STAGING, STAGING | PREPARED, PREPARED => true
  | UndeclaredStatus n, UndeclaredStatus m => n =? m
  | _, _ => false
  end.

(** [func (ts TransactionStatus) IsFinalized() bool]. *)
Definition IsFinalized (ts : TransactionStatus) : bool :=
  status_eqb ts COMMITTED || status_eqb ts ABORTED.

(** [enginepb.MinTxnPriority] and [enginepb.MaxTxnPriority]: the two
    sentinel priorities, declared in pkg/storage/enginepb as [0] and
    [math.MaxInt32] ([TxnPriority] is an int32). *)
Definition MinTxnPriority : Z := 0.
Definition MaxTxnPriority : Z := MaxInt32.

(** [ObservedTimestamp{NodeID, Timestamp}]. *)
Record ObservedTimestamp := mkObs { NodeID : Z; ObsTimestamp : hlc.Timestamp }.

(** [SequencedWrite{Key, Sequence}]. *)
Record SequencedWrite := mkSW { SWKey : key; SWSequence : Z }.

(** [enginepb.IgnoredSeqNumRange{Start, End}]. *)
Record IgnoredSeqNumRange := mkIgn { IgnStart : Z; IgnEnd : Z }.

(** [type Transaction struct], with the embedded [enginepb.TxnMeta] fields
    inlined.  [ID] is a [uuid.UUID] (16 bytes) read as a number, the zero
    UUID being [0]; [Epoch], [Priority] and [Sequence] are int32. *)
Record t := mk {
  (* TxnMeta *)
  ID : Z;
  Key : key;
  IsoLevel : Z;
  Epoch : Z;
  WriteTimestamp : hlc.Timestamp;
  MinTimestamp : hlc.Timestamp;
  Priority : Z;
  Sequence : Z;
  CoordinatorNodeID : Z;
  (* Transaction *)
  Name : list byte;
  Status : TransactionStatus;
  LastHeartbeat : hlc.Timestamp;
  ReadTimestamp : hlc.Timestamp;
  GlobalUncertaintyLimit : hlc.Timestamp;
  ObservedTimestamps : list ObservedTimestamp;
  ReadTimestampFixed : bool;
  LockSpans : list Span.t;
  InFlightWrites : list SequencedWrite;
  IgnoredSeqNums : list IgnoredSeqNumRange;
  AdmissionPriority : Z;
  OmitInRangefeeds : bool
}.

(** Field updates, written as the assignments of the source. *)
Definition set_Epoch (x : t) (v : Z) : t :=
  mk (ID x) (Key x) (IsoLevel x) v (WriteTimestamp x) (MinTimestamp x)
     (Priority x) (Sequence x) (CoordinatorNodeID x) (Name x) (Status x)
     (LastHeartbeat x) (ReadTimestamp x) (GlobalUncertaintyLimit x)
     (ObservedTimestamps x) (ReadTimestampFixed x) (LockSpans x)
     (InFlightWrites x) (IgnoredSeqNums x) (AdmissionPriority x)
     (OmitInRangefeeds x).

Definition set_Priority (x : t) (v : Z) : t :=
  mk (ID x) (Key x) (IsoLevel x) (Epoch x) (WriteTimestamp x) (MinTimestamp x)
     v (Sequence x) (CoordinatorNodeID x) (Name x) (Status x)
     (LastHeartbeat x) (ReadTimestamp x) (GlobalUncertaintyLimit x)
     (ObservedTimestamps x) (ReadTimestampFixed x) (LockSpans x)
     (InFlightWrites x) (IgnoredSeqNums x) (AdmissionPriority x)
     (OmitInRangefeeds x).

Definition set_WriteTimestamp (x : t) (v : hlc.Timestamp) : t :=
  mk (ID x) (Key x) (IsoLevel x) (Epoch x) v (MinTimestamp x)
     (Priority x) (Sequence x) (CoordinatorNodeID x) (Name x) (Status x)
     (LastHeartbeat x) (ReadTimestamp x) (GlobalUncertaintyLimit x)
     (ObservedTimestamps x) (ReadTimestampFixed x) (LockSpans x)
     (InFlightWrites x) (IgnoredSeqNums x) (AdmissionPriority x)
     (OmitInRangefeeds x).

Definition set_ReadTimestamp (x : t) (v : hlc.Timestamp) : t :=
  mk (ID x) (Key x) (IsoLevel x) (Epoch x) (WriteTimestamp x) (MinTimestamp x)
     (Priority x) (Sequence x) (CoordinatorNodeID x) (Name x) (Status x)
     (LastHeartbeat x) v (GlobalUncertaintyLimit x)
     (ObservedTimestamps x) (ReadTimestampFixed x) (LockSpans x)
     (InFlightWrites x) (IgnoredSeqNums x) (AdmissionPriority x)
     (OmitInRangefeeds x).

Definition set_ObservedTimestamps (x : t) (v : list ObservedTimestamp) : t :=
  mk (ID x) (Key x) (IsoLevel x) (Epoch x) (WriteTimestamp x) (MinTimestamp x)
     (Priority x) (Sequence x) (CoordinatorNodeID x) (Name x) (Status x)
     (LastHeartbeat x) (ReadTimestamp x) (GlobalUncertaintyLimit x)
     v (ReadTimestampFixed x) (LockSpans x)
     (InFlightWrites x) (IgnoredSeqNums x) (AdmissionPriority x)
     (OmitInRangefeeds x).

(** [func (t Transaction) LastActive() hlc.Timestamp]. *)
Definition LastActive (x : t) : hlc.Timestamp :=
  hlc.Forward (MinTimestamp x) (LastHeartbeat x).

(** [func (t *Transaction) RequiredFrontier() hlc.Timestamp]. *)
Definition RequiredFrontier (x : t) : hlc.Timestamp :=
  let ts := ReadTimestamp x in
  let ts := hlc.Forward ts (WriteTimestamp x) in
  hlc.Forward ts (GlobalUncertaintyLimit x).

(** The test of [AssertInitialized], which [log.Fatalf]s when it holds. *)
Definition uninitialized (x : t) : bool :=
  (ID x =? 0) || hlc.IsEmpty (WriteTimestamp x).

(** [func (t *Transaction) BumpEpoch()]: [t.Epoch++] on an int32. *)
Definition BumpEpoch (x : t) : t := set_Epoch x (wrap_i32 (Epoch x + 1)).

(** [func (t *Transaction) UpgradePriority(minPriority enginepb.TxnPriority)]. *)
Definition UpgradePriority (x : t) (minPriority : Z) : t :=
  if (Priority x <? minPriority) && negb (Priority x =? MinTxnPriority)
  then set_Priority x minPriority
  else x.

(** [func (t *Transaction) Restart(userPriority, upgradePriority, timestamp)].
    [MakePriority(userPriority)] draws a random float; its result enters
    here as [madePriority]. *)
Definition Restart (x : t) (madePriority upgradePriority : Z)
    (timestamp : hlc.Timestamp) : t :=
  let x := BumpEpoch x in
  let x := if hlc.Less (WriteTimestamp x) timestamp
           then set_WriteTimestamp x timestamp else x in
  let x := set_ReadTimestamp x (WriteTimestamp x) in
  let x := UpgradePriority x madePriority in
  let x := UpgradePriority x upgradePriority in
  mk (ID x) (Key x) (IsoLevel x) (Epoch x) (WriteTimestamp x) (MinTimestamp x)
     (Priority x) 0 (CoordinatorNodeID x) (Name x) (Status x)
     (LastHeartbeat x) (ReadTimestamp x) (GlobalUncertaintyLimit x)
     (ObservedTimestamps x) false [] [] [] (AdmissionPriority x)
     (OmitInRangefeeds x).

(** A sequence of [Restart] calls, each with its own arguments. *)
Fixpoint RestartAll (x : t) (calls : list (Z * Z * hlc.Timestamp)) : t :=
  match calls with
  | [] => x
  | (madePriority, upgradePriority, timestamp) :: rest =>
      RestartAll (Restart x madePriority upgradePriority timestamp) rest
  end.

(** [func (t *Transaction) BumpReadTimestamp(timestamp hlc.Timestamp)]. *)
Definition BumpReadTimestamp (x : t) (timestamp : hlc.Timestamp) : t :=
  let x := set_ReadTimestamp x (hlc.Forward (ReadTimestamp x) timestamp) in
  set_WriteTimestamp x (hlc.Forward (WriteTimestamp x) (ReadTimestamp x)).

(** Go's [sort.Search(n, f)]: binary search for the least index in [[0, n)]
    at which [f] holds ([n] if none), [f] being false then true. *)
Fixpoint search_loop (fuel : nat) (f : nat -> bool) (i j : nat) : nat :=
  match fuel with
  | O => i
  | S fuel =>
      if (i <? j)%nat then
        let h := ((i + j) / 2)%nat in
        if negb (f h) then search_loop fuel f (h + 1)%nat j
        else search_loop fuel f i h
      else i
  end.

Definition sort_Search (n : nat) (f : nat -> bool) : nat := search_loop n f 0%nat n.

Definition obs_default : ObservedTimestamp := mkObs 0 hlc.zero.

(** [func (s observedTimestampSlice) index(nodeID NodeID) int]. *)
Definition obs_index (s : list ObservedTimestamp) (nodeID : Z) : nat :=
  sort_Search (length s) (fun i => nodeID <=? NodeID (nth i s obs_default)).

(** [func (s observedTimestampSlice) get(nodeID) (hlc.ClockTimestamp, bool)]. *)
Definition obs_get (s : list ObservedTimestamp) (nodeID : Z) : hlc.Timestamp * bool :=
  let i := obs_index s nodeID in
  if (i <? length s)%nat && (NodeID (nth i s obs_default) =? nodeID)
  then (ObsTimestamp (nth i s obs_default), true)
  else (hlc.zero, false).

(** [func (s observedTimestampSlice) update(nodeID, timestamp)]. *)
Definition obs_update (s : list ObservedTimestamp) (nodeID : Z)
    (timestamp : hlc.Timestamp) : list ObservedTimestamp :=
  let i := obs_index s nodeID in
  if (i <? length s)%nat && (NodeID (nth i s obs_default) =? nodeID) then
    if hlc.Less timestamp (ObsTimestamp (nth i s obs_default)) then
      firstn i s ++ mkObs (NodeID (nth i s obs_default)) timestamp :: skipn (S i) s
    else s
  else firstn i s ++ mkObs nodeID timestamp :: skipn i s.

(** [func (t *Transaction) UpdateObservedTimestamp(nodeID, timestamp)]. *)
Definition UpdateObservedTimestamp (x : t) (nodeID : Z) (timestamp : hlc.Timestamp) : t :=
  match ObservedTimestamps x with
  | [] => set_ObservedTimestamps x [mkObs nodeID timestamp]
  | [o] =>
      if NodeID o =? nodeID then
        if hlc.Less timestamp (ObsTimestamp o)
        then set_ObservedTimestamps x [mkObs nodeID timestamp]
        else x
      else set_ObservedTimestamps x (obs_update [o] nodeID timestamp)
  | s => set_ObservedTimestamps x (obs_update s nodeID timestamp)
  end.

(** [func (t *Transaction) GetObservedTimestamp(nodeID)]. *)
Definition GetObservedTimestamp (x : t) (nodeID : Z) : hlc.Timestamp * bool :=
  obs_get (ObservedTimestamps x) nodeID.

(** [func (t *Transaction) ResetObservedTimestamps()]. *)
Definition ResetObservedTimestamps (x : t) : t := set_ObservedTimestamps x [].

(** The ways [Update] ends the process through [log.Fatalf]. *)
Inductive fatal :=
| UninitializedTxn
| DifferentTxn
| UnexpectedStatus (s : TransactionStatus).

(** [func (t *Transaction) Update(o *Transaction)]; [o] is [None] for a nil
    pointer.  The warnings the source logs leave the transaction as it is
    and are not recorded. *)
Definition Update (x : t) (o : option t) : fatal + t :=
  match o with
  | None => inr x
  | Some o =>
      if uninitialized o then inl UninitializedTxn
      else if ID x =? 0 then inr o
      else if negb (ID x =? ID o) then inl DifferentTxn
      else
        let key_ := if GoBytes.len (Key x) =? 0 then Key o else Key x in
        let isoLevel := IsoLevel o in
        (* epoch-scoped state: status, epoch, read-timestamp-fixed, sequence,
           lock spans, in-flight writes, ignored sequence numbers *)
        let scoped : fatal + (TransactionStatus * Z * bool * Z * list Span.t *
                              list SequencedWrite * list IgnoredSeqNumRange) :=
          if Epoch x <? Epoch o then
            let status := if negb (IsFinalized (Status x)) then Status o else Status x in
            inr (status, Epoch o, ReadTimestampFixed o, Sequence o, LockSpans o,
                 InFlightWrites o, IgnoredSeqNums o)
          else if Epoch x =? Epoch o then
            let status : fatal + TransactionStatus :=
              match Status x with
              | PENDING => inr (Status o)
              | PREPARED =>
                  inr (if negb (status_eqb (Status o) PENDING) then Status o else Status x)
              | STAGING =>
                  inr (if negb (status_eqb (Status o) PENDING) then Status o else Status x)
              | ABORTED => inr (Status x)
              | COMMITTED => inr (Status x)
              | UndeclaredStatus n => inl (UnexpectedStatus (Status x))
              end in
            match status with
            | inl f => inl f
            | inr status =>
                let fixed :=
                  if hlc.Equal (ReadTimestamp x) (ReadTimestamp o) then
                    ReadTimestampFixed x || ReadTimestampFixed o
                  else if hlc.Less (ReadTimestamp x) (ReadTimestamp o) then
                    ReadTimestampFixed o
                  else ReadTimestampFixed x in
                let seq := if Sequence x <? Sequence o then Sequence o else Sequence x in
                let locks := match LockSpans o with [] => LockSpans x | l => l end in
                let inflight :=
                  match InFlightWrites o with [] => InFlightWrites x | l => l end in
                let ignored :=
                  match IgnoredSeqNums o with [] => IgnoredSeqNums x | l => l end in
                inr (status, Epoch x, fixed, seq, locks, inflight, ignored)
            end
          else
            let status :=
              match Status o with
              | ABORTED => ABORTED
              | _ => Status x
              end in
            inr (status, Epoch x, ReadTimestampFixed x, Sequence x, LockSpans x,
                 InFlightWrites x, IgnoredSeqNums x) in
        match scoped with
        | inl f => inl f
        | inr (status, epoch, fixed, seq, locks, inflight, ignored) =>
            let writeTS := hlc.Forward (WriteTimestamp x) (WriteTimestamp o) in
            let lastHB := hlc.Forward (LastHeartbeat x) (LastHeartbeat o) in
            let gul := hlc.Forward (GlobalUncertaintyLimit x) (GlobalUncertaintyLimit o) in
            let readTS := hlc.Forward (ReadTimestamp x) (ReadTimestamp o) in
            let minTS :=
              if hlc.IsEmpty (MinTimestamp x) then MinTimestamp o
              else if negb (hlc.IsEmpty (MinTimestamp o))
                   then hlc.Backward (MinTimestamp x) (MinTimestamp o)
                   else MinTimestamp x in
            let x' :=
              mk (ID x) key_ isoLevel epoch writeTS minTS (Priority x) seq
                 (CoordinatorNodeID x) (Name x) status lastHB readTS gul
                 (ObservedTimestamps x) fixed locks inflight ignored
                 (AdmissionPriority x) (OmitInRangefeeds x) in
            let x' :=
              fold_left (fun acc v => UpdateObservedTimestamp acc (NodeID v) (ObsTimestamp v))
                        (ObservedTimestamps o) x' in
            let x' := UpgradePriority x' (Priority o) in
            let adm := if negb (AdmissionPriority o =? 0)
                       then AdmissionPriority o else AdmissionPriority x' in
            let omit := if OmitInRangefeeds o then OmitInRangefeeds o
                        else OmitInRangefeeds x' in
            inr (mk (ID x') (Key x') (IsoLevel x') (Epoch x') (WriteTimestamp x')
                    (MinTimestamp x') (Priority x') (Sequence x')
                    (CoordinatorNodeID x') (Name x') (Status x') (LastHeartbeat x')
                    (ReadTimestamp x') (GlobalUncertaintyLimit x')
                    (ObservedTimestamps x') (ReadTimestampFixed x') (LockSpans x')
                    (InFlightWrites x') (IgnoredSeqNums x') adm omit)
        end
  end.

(** [type TransactionRecord struct]: the persisted subset of a transaction. *)
Record TransactionRecord := mkRecord {
  rID : Z;
  rKey : key;
  rIsoLevel : Z;
  rEpoch : Z;
  rWriteTimestamp : hlc.Timestamp;
  rMinTimestamp : hlc.Timestamp;
  rPriority : Z;
  rSequence : Z;
  rCoordinatorNodeID : Z;
  rStatus : TransactionStatus;
  rLastHeartbeat : hlc.Timestamp;
  rLockSpans : list Span.t;
  rInFlightWrites : list SequencedWrite;
  rIgnoredSeqNums : list IgnoredSeqNumRange
}.

(** [func (t *Transaction) AsRecord() TransactionRecord]. *)
Definition AsRecord (x : t) : TransactionRecord :=
  mkRecord (ID x) (Key x) (IsoLevel x) (Epoch x) (WriteTimestamp x)
           (MinTimestamp x) (Priority x) (Sequence x) (CoordinatorNodeID x)
           (Status x) (LastHeartbeat x) (LockSpans x) (InFlightWrites x)
           (IgnoredSeqNums x).

(** [func (tr *TransactionRecord) AsTransaction() Transaction]: the fields a
    record omits are left at their zero values. *)
Definition AsTransaction (r : TransactionRecord) : t :=
  mk (rID r) (rKey r) (rIsoLevel r) (rEpoch r) (rWriteTimestamp r)
     (rMinTimestamp r) (rPriority r) (rSequence r) (rCoordinatorNodeID r)
     [] (rStatus r) (rLastHeartbeat r) hlc.zero hlc.zero [] false
     (rLockSpans r) (rInFlightWrites r) (rIgnoredSeqNums r) 0 false.

(** [func (s SequencedWriteBySeq) Find(seq enginepb.TxnSeq) int], without the
    race-detector assertion. *)
Definition sw_default : SequencedWrite := mkSW [] 0.

Definition SequencedWriteBySeq_Find (s : list SequencedWrite) (seq : Z) : Z :=
  let i := sort_Search (length s) (fun i => seq <=? SWSequence (nth i s sw_default)) in
  if (i <? length s)%nat && (SWSequence (nth i s sw_default) =? seq)
  then Z.of_nat i else -1.

End Txn.

(* ================================================================== *)
(** ** Leases (data.go, [Lease]) *)
(* ================================================================== *)

Module Lease.

(** A [*hlc.Timestamp]: the address of the pointee and the timestamp stored
    there.  Go's [==] on two pointers compares the addresses only. *)
Record tsptr := mkPtr { addr : Z; pointee : hlc.Timestamp }.

Definition ptr_eqb (a b : option tsptr) : bool :=
  match a, b with
  | None, None => true
  | Some p, Some q => addr p =? addr q
  | _, _ => false
  end.

(** [ReplicaDescriptor{NodeID, StoreID, ReplicaID, Type}]. *)
Record ReplicaDescriptor := mkReplica {
  NodeID : Z; StoreID : Z; ReplicaID : Z; ReplicaType : Z
}.

Definition replica_eqb (a b : ReplicaDescriptor) : bool :=
  (NodeID a =? NodeID b) && (StoreID a =? StoreID b) &&
  (ReplicaID a =? ReplicaID b) && (ReplicaType a =? ReplicaType b).

(** [type Lease struct], the fields that [Lease.Equal] enumerates together
    with [DeprecatedStartStasis]. *)
Record t := mk {
  Start : hlc.Timestamp;
  Expiration : option tsptr;
  Replica : ReplicaDescriptor;
  DeprecatedStartStasis : option tsptr;
  ProposedTS : hlc.Timestamp;
  Epoch : Z;
  Sequence : Z;
  AcquisitionType : Z;
  MinExpiration : hlc.Timestamp;
  Term : Z
}.

(** Go's [l == newL] on two [Lease] structs: field by field, pointers by
    address. *)
Definition struct_eqb (a b : t) : bool :=
  hlc.Equal (Start a) (Start b) &&
  ptr_eqb (Expiration a) (Expiration b) &&
  replica_eqb (Replica a) (Replica b) &&
  ptr_eqb (DeprecatedStartStasis a) (DeprecatedStartStasis b) &&
  hlc.Equal (ProposedTS a) (ProposedTS b) &&
  (Epoch a =? Epoch b) && (Sequence a =? Sequence b) &&
  (AcquisitionType a =? AcquisitionType b) &&
  hlc.Equal (MinExpiration a) (MinExpiration b) &&
  (Term a =? Term b).

(** [type LeaseType int32] and its constants. *)
Inductive LeaseType := LeaseNone | LeaseExpiration | LeaseEpoch | LeaseLeader.

Inductive panic :=
| BothEpochAndTerm      (* panic("lease cannot have both epoch and term") *)
| UnexpectedLeaseType.  (* panic("unexpected lease type") *)

(** [func (l Lease) Type() LeaseType]. *)
Definition Type' (l : t) : panic + LeaseType :=
  if negb (Epoch l =? 0) && negb (Term l =? 0) then inl BothEpochAndTerm
  else if negb (Epoch l =? 0) then inr LeaseEpoch
  else if negb (Term l =? 0) then inr LeaseLeader
  else inr LeaseExpiration.

(** [func (l Lease) OwnedBy(storeID StoreID) bool]. *)
Definition OwnedBy (l : t) (storeID : Z) : bool := StoreID (Replica l) =? storeID.

(** [func (l Lease) Speculative() bool]. *)
Definition Speculative (l : t) : bool := Sequence l =? 0.

(** [func (l Lease) SupportsQuiescence() bool]. *)
Definition SupportsQuiescence (l : t) : panic + bool :=
  match Type' l with
  | inl p => inl p
  | inr LeaseExpiration | inr LeaseLeader => inr false
  | inr LeaseEpoch => inr true
  | inr LeaseNone => inl UnexpectedLeaseType
  end.

(** [func (l Lease) SupportsSleep() bool]. *)
Definition SupportsSleep (l : t) : panic + bool :=
  match Type' l with
  | inl p => inl p
  | inr LeaseExpiration | inr LeaseEpoch => inr false
  | inr LeaseLeader => inr true
  | inr LeaseNone => inl UnexpectedLeaseType
  end.

(** [func (l Lease) GetExpiration() hlc.Timestamp]. *)
Definition GetExpiration (l : t) : hlc.Timestamp :=
  match Expiration l with
  | None => hlc.zero
  | Some p => pointee p
  end.

(** The fields that [Equivalent] blanks on both leases before anything
    else: proposed timestamp, deprecated start stasis, sequence, acquisition
    type and the replica's type. *)
Definition strip (l : t) : t :=
  mk (Start l) (Expiration l)
     (mkReplica (NodeID (Replica l)) (StoreID (Replica l)) (ReplicaID (Replica l)) 0)
     None hlc.zero (Epoch l) 0 0 (MinExpiration l) (Term l).

Definition set_Expiration (l : t) (e : option tsptr) : t :=
  mk (Start l) e (Replica l) (DeprecatedStartStasis l) (ProposedTS l) (Epoch l)
     (Sequence l) (AcquisitionType l) (MinExpiration l) (Term l).

Definition set_Epoch (l : t) (e : Z) : t :=
  mk (Start l) (Expiration l) (Replica l) (DeprecatedStartStasis l) (ProposedTS l) e
     (Sequence l) (AcquisitionType l) (MinExpiration l) (Term l).

Definition set_Term (l : t) (e : Z) : t :=
  mk (Start l) (Expiration l) (Replica l) (DeprecatedStartStasis l) (ProposedTS l)
     (Epoch l) (Sequence l) (AcquisitionType l) (MinExpiration l) e.

Definition set_MinExpiration (l : t) (e : hlc.Timestamp) : t :=
  mk (Start l) (Expiration l) (Replica l) (DeprecatedStartStasis l) (ProposedTS l)
     (Epoch l) (Sequence l) (AcquisitionType l) e (Term l).

(** [func (l Lease) Equivalent(newL Lease, expToEpochEquiv bool) bool]. *)
Definition Equivalent (l newL : t) (expToEpochEquiv : bool) : panic + bool :=
  let l := strip l in
  let newL := strip newL in
  let normalized : panic + (t * t) :=
    match Type' l with
    | inl p => inl p
    | inr LeaseEpoch =>
        let l := set_Expiration l None in
        let newL := set_Expiration newL None in
        let '(l, newL) :=
          if Epoch l =? Epoch newL then (set_Epoch l 0, set_Epoch newL 0)
          else (l, newL) in
        inr (if hlc.LessEq (MinExpiration l) (MinExpiration newL)
             then (set_MinExpiration l hlc.zero, set_MinExpiration newL hlc.zero)
             else (l, newL))
    | inr LeaseLeader =>
        let '(l, newL) :=
          if Term l =? Term newL then (set_Term l 0, set_Term newL 0)
          else (l, newL) in
        inr (if hlc.LessEq (MinExpiration l) (MinExpiration newL)
             then (set_MinExpiration l hlc.zero, set_MinExpiration newL hlc.zero)
             else (l, newL))
    | inr LeaseExpiration =>
        match Type' newL with
        | inl p => inl p
        | inr LeaseEpoch =>
            inr (if expToEpochEquiv
                 then (set_Expiration l None,
                       set_MinExpiration (set_Epoch newL 0) hlc.zero)
                 else (l, newL))
        | inr LeaseLeader =>
            inr (set_Expiration l None, set_MinExpiration (set_Term newL 0) hlc.zero)
        | inr LeaseExpiration =>
            let l := set_Epoch l 0 in
            let newL := set_Epoch newL 0 in
            inr (if hlc.LessEq (GetExpiration l) (GetExpiration newL)
                 then (set_Expiration l None, set_Expiration newL None)
                 else (l, newL))
        | inr LeaseNone => inl UnexpectedLeaseType
        end
    | inr LeaseNone => inl UnexpectedLeaseType
    end in
  match normalized with
  | inl p => inl p
  | inr (l, newL) => inr (struct_eqb l newL)
  end.

(** [func equivalentTimestamps(a, b *hlc.Timestamp) bool]: a nil pointer and
    a pointer to the zero timestamp count as equal; the final [a.Equal(b)]
    compares the pointees, and a nil pointer equals only nil. *)
Definition equivalentTimestamps (a b : option tsptr) : bool :=
  match a, b with
  | None, None => true
  | None, Some q => hlc.IsEmpty (pointee q)
  | Some p, None => hlc.IsEmpty (pointee p)
  | Some p, Some q => hlc.Equal (pointee p) (pointee q)
  end.

End Lease.

(* ================================================================== *)
(** ** The bulk-ingestion batcher (sst_batcher.go, [SSTBatcher]) *)
(* ================================================================== *)

Module Batcher.

Local Abbreviation key := Key (only parsing).

(** [storage.MVCCKey{Key, Timestamp}]. *)
Record MVCCKey := mkMVCCKey { Key : key; Timestamp : hlc.Timestamp }.

(** [enginepb.MVCCStats], the counters this file writes; the batcher leaves
    every other field at zero. *)
Record MVCCStats := mkStats {
  LiveBytes : Z; LiveCount : Z; KeyBytes : Z; KeyCount : Z;
  ValBytes : Z; ValCount : Z; LastUpdateNanos : Z
}.

Definition MVCCStats_zero : MVCCStats := mkStats 0 0 0 0 0 0 0.

Definition MVCCStats_is_zero (m : MVCCStats) : bool :=
  (LiveBytes m =? 0) && (LiveCount m =? 0) && (KeyBytes m =? 0) &&
  (KeyCount m =? 0) && (ValBytes m =? 0) && (ValCount m =? 0) &&
  (LastUpdateNanos m =? 0).

(** One entry of the slice [sstAdder.AddSSTable] returns. *)
Record addResult := mkAddResult {
  timestamp : hlc.Timestamp;
  availableBytes : Z;
  followingLikelyNonEmptySpanStart : key;
  rangeSpan : Span.t
}.

(** The errors [AddMVCCKey] and [doFlush] return: the batcher's own
    duplicate-key error, or whatever a collaborator returned. *)
Inductive error :=
| DuplicateKeyError (k : key) (value : list byte)
| External (code : Z).

(** The reasons of a flush: [manualFlush], [sizeFlush], [rangeFlush]. *)
Inductive reason := manualFlush | sizeFlush | rangeFlush.

(** The collaborators of the batcher, none of which is among the sources:
    the sorted-file writer with its memory file ([writer]), the row counter
    ([counter]) with the per-batch summary it embeds ([summary]), key
    addressing, the settings, the admin operations, the request limiter, the
    ingest operation and the clock.  An error of a collaborator is the
    [Some]/[inl] case and carries an opaque code. *)
Record Env := mkEnv {
  writer : Type;
  counter : Type;
  summary : Type;
  (* the zero values storage.SSTWriter{}, storage.RowCounter{}, kvpb.BulkOpSummary{} *)
  ZeroWriter : writer;
  ZeroCounter : counter;
  ZeroSummary : summary;
  (* storage.MakeIngestionSSTWriter over a fresh storage.MemObject *)
  MakeIngestionSSTWriter : writer;
  (* sstWriter.DataSize *)
  DataSize : writer -> Z;
  (* sstWriter.PutRawMVCC *)
  PutRawMVCC : writer -> MVCCKey -> list byte -> writer * option Z;
  (* sstWriter.Finish *)
  Finish : writer -> writer * option Z;
  (* sstFile.Data() *)
  Data : writer -> list byte;
  (* batchRowCounter.Count *)
  Count : counter -> key -> counter * option Z;
  (* batchRowCounter.BulkOpSummary.Reset() *)
  ResetSummary : counter -> counter;
  (* batchRowCounter.BulkOpSummary *)
  BulkOpSummary : counter -> summary;
  (* summary.DataSize += size; summary.SSTDataSize += sstSize *)
  AddSizes : summary -> Z -> Z -> summary;
  (* BulkOpSummary.Add *)
  SummaryAdd : summary -> summary -> summary;
  (* keys.Addr *)
  Addr : key -> option key;
  (* keys.EnsureSafeSplitKey *)
  EnsureSafeSplitKey : key -> option key;
  (* ingestFileSize(b.settings) *)
  ingestFileSize : Z;
  (* the flush delay: [Some] when the context ends during the wait *)
  ingestDelay : option Z;
  (* db.AdminSplit: did it succeed *)
  AdminSplit : key -> bool;
  (* db.AdminScatter: the bytes moved, or an error *)
  AdminScatter : key -> option Z;
  (* limiter.Begin *)
  LimiterBegin : option Z;
  (* adder.AddSSTable *)
  AddSSTable : hlc.Timestamp -> key -> key -> list byte -> MVCCStats -> Z + list addResult;
  (* db.Clock().Now() *)
  Now : hlc.Timestamp;
  (* timeutil.Now().UnixNano() *)
  NowNanos : Z;
  (* db.Clock().SleepUntil *)
  SleepUntil : hlc.Timestamp -> option Z;
  (* storage.MVCCVersionTimestampSize *)
  MVCCVersionTimestampSize : Z
}.

(** What the batcher asks of the outside world, in order. *)
Inductive event (E : Env) :=
| SplitRequested (at_ : key)
| ScatterRequested (at_ : key)
| SSTSent (why : reason) (batchTS : hlc.Timestamp) (start end_ : key)
          (data : list byte) (stats : MVCCStats)
| FlushReported (s : summary E).
Arguments SplitRequested {E} at_.
Arguments ScatterRequested {E} at_.
Arguments SSTSent {E} why batchTS start end_ data stats.
Arguments FlushReported {E} s.

(** [bulkpb.IngestionPerformanceStats], the counters this file writes (the
    wait times are durations and are left out). *)
Record PerfStats := mkPerf {
  Batches : Z; BatchesDueToRange : Z; BatchesDueToSize : Z;
  Splits : Z; Scatters : Z; ScatterMoved : Z
}.

Definition PerfStats_zero : PerfStats := mkPerf 0 0 0 0 0 0.

(** [b.lastRange]. *)
Record LastRange := mkLastRange {
  span : Span.t; remaining : Z; nextExistingKey : key
}.

(** [type SSTBatcher struct]: the configuration, the per-batch fields, the
    accumulated fields, and [trace], the requests made so far.  [rc] is
    [None] for a nil range cache; a lookup returns the end key of the
    range descriptor found ([None] inside for a nil key) or fails.
    [onFlush] tells whether a callback is registered. *)
Record State (E : Env) := mkState {
  rc : option (key -> option (option key));
  disallowShadowingBelow : hlc.Timestamp;
  skipDuplicates : bool;
  ingestAll : bool;
  batchTS : hlc.Timestamp;
  writeAtBatchTS : bool;
  disableScatters : bool;
  onFlush : bool;
  currentStats : PerfStats;
  batchRowCounter : counter E;
  sstWriter : writer E;
  batchStartKey : list byte;
  batchEndKey : list byte;
  batchEndValue : list byte;
  batchEndTimestamp : hlc.Timestamp;
  flushKeyChecked : bool;
  flushKey : option key;
  lastRange : LastRange;
  ms : MVCCStats;
  maxWriteTS : hlc.Timestamp;
  totalBulkOpSummary : summary E;
  trace : list (event E)
}.
Arguments rc {E} s.
Arguments disallowShadowingBelow {E} s.
Arguments skipDuplicates {E} s.
Arguments ingestAll {E} s.
Arguments batchTS {E} s.
Arguments writeAtBatchTS {E} s.
Arguments disableScatters {E} s.
Arguments onFlush {E} s.
Arguments currentStats {E} s.
Arguments batchRowCounter {E} s.
Arguments sstWriter {E} s.
Arguments batchStartKey {E} s.
Arguments batchEndKey {E} s.
Arguments batchEndValue {E} s.
Arguments batchEndTimestamp {E} s.
Arguments flushKeyChecked {E} s.
Arguments flushKey {E} s.
Arguments lastRange {E} s.
Arguments ms {E} s.
Arguments maxWriteTS {E} s.
Arguments totalBulkOpSummary {E} s.
Arguments trace {E} s.

Section Methods.

Variable E : Env.

Local Abbreviation St := (State E).

(** [func (b *SSTBatcher) updateMVCCStats(key storage.MVCCKey, value []byte)],
    on int64 counters. *)
Definition updateMVCCStats (m : MVCCStats) (k : MVCCKey) (value : list byte) : MVCCStats :=
  let metaKeySize := wrap_i64 (GoBytes.len (Key k) + 1) in
  let metaValSize := 0 in
  let liveBytes := wrap_i64 (LiveBytes m + metaKeySize) in
  let liveCount := wrap_i64 (LiveCount m + 1) in
  let keyBytes := wrap_i64 (KeyBytes m + metaKeySize) in
  let valBytes := wrap_i64 (ValBytes m + metaValSize) in
  let keyCount := wrap_i64 (KeyCount m + 1) in
  let totalBytes := wrap_i64 (GoBytes.len value + MVCCVersionTimestampSize E) in
  let liveBytes := wrap_i64 (liveBytes + totalBytes) in
  let keyBytes := wrap_i64 (keyBytes + MVCCVersionTimestampSize E) in
  let valBytes := wrap_i64 (valBytes + GoBytes.len value) in
  let valCount := wrap_i64 (ValCount m + 1) in
  mkStats liveBytes liveCount keyBytes keyCount valBytes valCount (LastUpdateNanos m).

(** [func (b *SSTBatcher) Reset(ctx context.Context)].  No flush is ever
    sent asynchronously ([flushAsync := false] in [doFlush]), so the wait on
    [asyncAddSSTs] returns at once. *)
Definition Reset (b : St) : St :=
  mkState E (rc b) (disallowShadowingBelow b) (skipDuplicates b) (ingestAll b)
    (if writeAtBatchTS b then hlc.zero else batchTS b)
    (writeAtBatchTS b) (disableScatters b) (onFlush b) (currentStats b)
    (ResetSummary E (batchRowCounter b))
    (MakeIngestionSSTWriter E)
    [] [] [] hlc.zero false None
    (lastRange b) MVCCStats_zero (maxWriteTS b) (totalBulkOpSummary b) (trace b).

Definition set_currentStats (b : St) (p : PerfStats) : St :=
  mkState E (rc b) (disallowShadowingBelow b) (skipDuplicates b) (ingestAll b)
    (batchTS b) (writeAtBatchTS b) (disableScatters b) (onFlush b) p
    (batchRowCounter b) (sstWriter b) (batchStartKey b) (batchEndKey b)
    (batchEndValue b) (batchEndTimestamp b) (flushKeyChecked b) (flushKey b)
    (lastRange b) (ms b) (maxWriteTS b) (totalBulkOpSummary b) (trace b).

Definition set_sstWriter (b : St) (w : writer E) : St :=
  mkState E (rc b) (disallowShadowingBelow b) (skipDuplicates b) (ingestAll b)
    (batchTS b) (writeAtBatchTS b) (disableScatters b) (onFlush b) (currentStats b)
    (batchRowCounter b) w (batchStartKey b) (batchEndKey b)
    (batchEndValue b) (batchEndTimestamp b) (flushKeyChecked b) (flushKey b)
    (lastRange b) (ms b) (maxWriteTS b) (totalBulkOpSummary b) (trace b).

Definition set_flushKey (b : St) (checked : bool) (k : option key) : St :=
  mkState E (rc b) (disallowShadowingBelow b) (skipDuplicates b) (ingestAll b)
    (batchTS b) (writeAtBatchTS b) (disableScatters b) (onFlush b) (currentStats b)
    (batchRowCounter b) (sstWriter b) (batchStartKey b) (batchEndKey b)
    (batchEndValue b) (batchEndTimestamp b) checked k
    (lastRange b) (ms b) (maxWriteTS b) (totalBulkOpSummary b) (trace b).

Definition set_ms (b : St) (m : MVCCStats) : St :=
  mkState E (rc b) (disallowShadowingBelow b) (skipDuplicates b) (ingestAll b)
    (batchTS b) (writeAtBatchTS b) (disableScatters b) (onFlush b) (currentStats b)
    (batchRowCounter b) (sstWriter b) (batchStartKey b) (batchEndKey b)
    (batchEndValue b) (batchEndTimestamp b) (flushKeyChecked b) (flushKey b)
    (lastRange b) m (maxWriteTS b) (totalBulkOpSummary b) (trace b).

Definition set_maxWriteTS (b : St) (ts : hlc.Timestamp) : St :=
  mkState E (rc b) (disallowShadowingBelow b) (skipDuplicates b) (ingestAll b)
    (batchTS b) (writeAtBatchTS b) (disableScatters b) (onFlush b) (currentStats b)
    (batchRowCounter b) (sstWriter b) (batchStartKey b) (batchEndKey b)
    (batchEndValue b) (batchEndTimestamp b) (flushKeyChecked b) (flushKey b)
    (lastRange b) (ms b) ts (totalBulkOpSummary b) (trace b).

Definition set_lastRange (b : St) (l : LastRange) : St :=
  mkState E (rc b) (disallowShadowingBelow b) (skipDuplicates b) (ingestAll b)
    (batchTS b) (writeAtBatchTS b) (disableScatters b) (onFlush b) (currentStats b)
    (batchRowCounter b) (sstWriter b) (batchStartKey b) (batchEndKey b)
    (batchEndValue b) (batchEndTimestamp b) (flushKeyChecked b) (flushKey b)
    l (ms b) (maxWriteTS b) (totalBulkOpSummary b) (trace b).

Definition set_total (b : St) (s : summary E) : St :=
  mkState E (rc b) (disallowShadowingBelow b) (skipDuplicates b) (ingestAll b)
    (batchTS b) (writeAtBatchTS b) (disableScatters b) (onFlush b) (currentStats b)
    (batchRowCounter b) (sstWriter b) (batchStartKey b) (batchEndKey b)
    (batchEndValue b) (batchEndTimestamp b) (flushKeyChecked b) (flushKey b)
    (lastRange b) (ms b) (maxWriteTS b) s (trace b).

Definition emit (b : St) (e : event E) : St :=
  mkState E (rc b) (disallowShadowingBelow b) (skipDuplicates b) (ingestAll b)
    (batchTS b) (writeAtBatchTS b) (disableScatters b) (onFlush b) (currentStats b)
    (batchRowCounter b) (sstWriter b) (batchStartKey b) (batchEndKey b)
    (batchEndValue b) (batchEndTimestamp b) (flushKeyChecked b) (flushKey b)
    (lastRange b) (ms b) (maxWriteTS b) (totalBulkOpSummary b) (trace b ++ [e]).

Definition bump_Batches (p : PerfStats) : PerfStats :=
  mkPerf (wrap_i64 (Batches p + 1)) (BatchesDueToRange p) (BatchesDueToSize p)
         (Splits p) (Scatters p) (ScatterMoved p).

Definition bump_reason (p : PerfStats) (why : reason) : PerfStats :=
  match why with
  | sizeFlush =>
      mkPerf (Batches p) (BatchesDueToRange p) (wrap_i64 (BatchesDueToSize p + 1))
             (Splits p) (Scatters p) (ScatterMoved p)
  | rangeFlush =>
      mkPerf (Batches p) (wrap_i64 (BatchesDueToRange p + 1)) (BatchesDueToSize p)
             (Splits p) (Scatters p) (ScatterMoved p)
  | manualFlush => p
  end.

Definition bump_Splits (p : PerfStats) : PerfStats :=
  mkPerf (Batches p) (BatchesDueToRange p) (BatchesDueToSize p)
         (wrap_i64 (Splits p + 1)) (Scatters p) (ScatterMoved p).

Definition bump_Scatters (p : PerfStats) (moved : Z) : PerfStats :=
  mkPerf (Batches p) (BatchesDueToRange p) (BatchesDueToSize p)
         (Splits p) (wrap_i64 (Scatters p + 1)) (wrap_i64 (ScatterMoved p + moved)).

(** The split of a full range inside [doFlush]: above the file at the next
    existing key, then at the file's start, then the scatter of what was
    split off.  A failure of any step is logged and the flush goes on. *)
Definition splitFullRange (b : St) (start end_ : key) : St :=
  let nextKey := nextExistingKey (lastRange b) in
  let b :=
    if negb (GoBytes.is_empty nextKey) && GoBytes.lt0 (KeyOrd.Compare end_ nextKey) then
      match EnsureSafeSplitKey E nextKey with
      | None => b
      | Some splitAbove =>
          let b := emit b (SplitRequested splitAbove) in
          if AdminSplit E splitAbove
          then set_currentStats b (bump_Splits (currentStats b))
          else b
      end
    else b in
  match EnsureSafeSplitKey E start with
  | None => b
  | Some splitAt =>
      let b := emit b (SplitRequested splitAt) in
      if AdminSplit E splitAt then
        let b := set_currentStats b (bump_Splits (currentStats b)) in
        if negb (disableScatters b) then
          let b := emit b (ScatterRequested splitAt) in
          match AdminScatter E splitAt with
          | None => b
          | Some moved => set_currentStats b (bump_Scatters (currentStats b) moved)
          end
        else b
      else b
  end.

(** The loop of [doFlush] over the results of the ingest. *)
Definition absorbResult (b : St) (r : addResult) : St :=
  let b := if writeAtBatchTS b
           then set_maxWriteTS b (hlc.Forward (maxWriteTS b) (timestamp r))
           else b in
  if Span.Valid (rangeSpan r) then
    set_lastRange b (mkLastRange (rangeSpan r) (availableBytes r)
                                 (followingLikelyNonEmptySpanStart r))
  else
    set_lastRange b (mkLastRange (rangeSpan r) (remaining (lastRange b))
                                 (nextExistingKey (lastRange b))).

(** The middle of [doFlush], between finishing the file and sending it: the
    counter of the reason, the split of a full range, and the time stamp on
    statistics computed on the fly. *)
Definition prepare (b : St) (why : reason) (start end_ : key) (size : Z) : St :=
  let b := set_currentStats b (bump_reason (currentStats b) why) in
  let b :=
    if Span.ContainsKey (span (lastRange b)) start && (remaining (lastRange b) <=? size)
    then splitFullRange b start end_ else b in
  if negb (MVCCStats_is_zero (ms b)) then
    set_ms b (mkStats (LiveBytes (ms b)) (LiveCount (ms b)) (KeyBytes (ms b))
                      (KeyCount (ms b)) (ValBytes (ms b)) (ValCount (ms b))
                      (NowNanos E))
  else b.

(** The end of [doFlush]: the limiter, the ingest (the closure [fn], always
    run synchronously since [flushAsync := false]), and what is done with
    its results. *)
Definition send (b : St) (why : reason) (start end_ : key) (size : Z)
  : St * option error :=
  let stats := ms b in
  let data := Data E (sstWriter b) in
  let ts := batchTS b in
  let currentBatchSummary := BulkOpSummary E (batchRowCounter b) in
  match LimiterBegin E with
  | Some code => (b, Some (External code))
  | None =>
      let b := set_currentStats b PerfStats_zero in
      let b := emit b (SSTSent why ts start end_ data stats) in
      match AddSSTable E ts start end_ data stats with
      | inl code => (b, Some (External code))
      | inr results =>
          let b := fold_left absorbResult results b in
          let currentBatchSummary :=
            AddSizes E currentBatchSummary size (GoBytes.len data) in
          let b := if onFlush b
                   then emit b (FlushReported currentBatchSummary) else b in
          let b := set_total b (SummaryAdd E (totalBulkOpSummary b)
                                           currentBatchSummary) in
          (b, None)
      end
  end.

(** [func (b *SSTBatcher) doFlush(ctx context.Context, reason int) error]. *)
Definition doFlush (b : St) (why : reason) : St * option error :=
  if DataSize E (sstWriter b) =? 0 then (b, None)
  else
    let b := set_currentStats b (bump_Batches (currentStats b)) in
    match ingestDelay E with
    | Some code => (b, Some (External code))
    | None =>
        let '(w, ferr) := Finish E (sstWriter b) in
        let b := set_sstWriter b w in
        match ferr with
        | Some code => (b, Some (External code))
        | None =>
            let start := batchStartKey b in
            let end_ := KeyOrd.Next (batchEndKey b) in
            let size := DataSize E (sstWriter b) in
            send (prepare b why start end_ size) why start end_ size
        end
    end.

(** [func (b *SSTBatcher) flushIfNeeded(ctx context.Context, nextKey roachpb.Key) error]. *)
Definition flushIfNeeded (b : St) (nextKey : key) : St * option error :=
  let b :=
    match rc b with
    | Some cache =>
        if negb (flushKeyChecked b) then
          let b := set_flushKey b true (flushKey b) in
          match Addr E nextKey with
          | None => b
          | Some k =>
              match cache k with
              | None => b
              | Some endKey => set_flushKey b true endKey
              end
          end
        else b
    | None => b
    end in
  let shouldFlushDueToRange :=
    match flushKey b with
    | Some fk => GoBytes.le0 (KeyOrd.Compare fk nextKey)
    | None => false
    end in
  if shouldFlushDueToRange then
    match doFlush b rangeFlush with
    | (b, Some err) => (b, Some err)
    | (b, None) => (Reset b, None)
    end
  else if ingestFileSize E <=? DataSize E (sstWriter b) then
    let prevRow := EnsureSafeSplitKey E (batchEndKey b) in
    let nextRow := EnsureSafeSplitKey E nextKey in
    match prevRow, nextRow with
    | Some p, Some n =>
        if GoBytes.Equal p n then (b, None)
        else
          match doFlush b sizeFlush with
          | (b, Some err) => (b, Some err)
          | (b, None) => (Reset b, None)
          end
    | _, _ =>
        match doFlush b sizeFlush with
        | (b, Some err) => (b, Some err)
        | (b, None) => (Reset b, None)
        end
    end
  else (b, None).

(** The tail of [AddMVCCKey], after the flush check: the bookkeeping of the
    batch and the write into the file under construction. *)
Definition store (b : St) (k : MVCCKey) (value : list byte) : St * option error :=
  let ts := if writeAtBatchTS b
            then (if hlc.IsEmpty (batchTS b) then Now E else batchTS b)
            else batchTS b in
  let k := if writeAtBatchTS b then mkMVCCKey (Key k) ts else k in
  let start := if GoBytes.is_empty (batchStartKey b) then Key k else batchStartKey b in
  let '(c, cerr) := Count E (batchRowCounter b) (Key k) in
  let b :=
    mkState E (rc b) (disallowShadowingBelow b) (skipDuplicates b) (ingestAll b)
      ts (writeAtBatchTS b) (disableScatters b) (onFlush b) (currentStats b)
      c (sstWriter b) start (Key k) value (Timestamp k)
      (flushKeyChecked b) (flushKey b) (lastRange b) (ms b) (maxWriteTS b)
      (totalBulkOpSummary b) (trace b) in
  match cerr with
  | Some code => (b, Some (External code))
  | None =>
      let b := if negb (hlc.IsEmpty (disallowShadowingBelow b))
               then set_ms b (updateMVCCStats (ms b) k value) else b in
      let '(w, perr) := PutRawMVCC E (sstWriter b) k value in
      (set_sstWriter b w,
       match perr with Some code => Some (External code) | None => None end)
  end.

(** The part of [AddMVCCKey] after the duplicate check: the flush check,
    then [store]. *)
Definition accept (b : St) (k : MVCCKey) (value : list byte) : St * option error :=
  match flushIfNeeded b (Key k) with
  | (b, Some err) => (b, Some err)
  | (b, None) => store b k value
  end.

(** [func (b *SSTBatcher) AddMVCCKey(ctx, key storage.MVCCKey, value []byte) error]. *)
Definition AddMVCCKey (b : St) (k : MVCCKey) (value : list byte) : St * option error :=
  if negb (GoBytes.is_empty (batchEndKey b)) && GoBytes.Equal (batchEndKey b) (Key k) then
    if ingestAll b && hlc.Equal (Timestamp k) (batchEndTimestamp b) then
      if GoBytes.Equal (batchEndValue b) value then (b, None)
      else (b, Some (DuplicateKeyError (Key k) value))
    else if skipDuplicates b && GoBytes.Equal (batchEndValue b) value then (b, None)
    else if negb (ingestAll b) then (b, Some (DuplicateKeyError (Key k) value))
    else accept b k value
  else accept b k value.

(** The struct literal the three constructors start from, before [Reset]. *)
Definition literal (cache : option (key -> option (option key)))
    (disallowShadowingBelow_ : hlc.Timestamp)
    (skipDuplicates_ ingestAll_ writeAtBatchTS_ disableScatters_ onFlush_ : bool) : St :=
  mkState E cache disallowShadowingBelow_ skipDuplicates_ ingestAll_ hlc.zero
    writeAtBatchTS_ disableScatters_ onFlush_ PerfStats_zero (ZeroCounter E)
    (ZeroWriter E) [] [] [] hlc.zero false None
    (mkLastRange Span.zero 0 []) MVCCStats_zero hlc.zero (ZeroSummary E) [].

(** [func MakeSSTBatcher(..., disallowShadowingBelow, writeAtBatchTs,
    scatterSplitRanges, ...)]. *)
Definition MakeSSTBatcher (disallowShadowingBelow_ : hlc.Timestamp)
    (writeAtBatchTs scatterSplitRanges : bool) : St :=
  Reset (literal None disallowShadowingBelow_ false false writeAtBatchTs
                 (negb scatterSplitRanges) false).

(** [func MakeStreamSSTBatcher(..., rc, ..., onFlush)]; [SetOnFlush] stores
    the callback, which may be nil. *)
Definition MakeStreamSSTBatcher (cache : option (key -> option (option key)))
    (onFlush_ : bool) : St :=
  Reset (literal cache hlc.zero false true false true onFlush_).

(** [func MakeTestingSSTBatcher(..., skipDuplicates, ingestAll, ...)]. *)
Definition MakeTestingSSTBatcher (skipDuplicates_ ingestAll_ : bool) : St :=
  Reset (literal None hlc.zero skipDuplicates_ ingestAll_ false false false).

(** [func (b *SSTBatcher) Flush(ctx context.Context) error]. *)
Definition Flush (b : St) : St * option error :=
  match doFlush b manualFlush with
  | (b, Some err) => (b, Some err)
  | (b, None) =>
      if negb (hlc.IsEmpty (maxWriteTS b)) then
        if hlc.Less (Now E) (maxWriteTS b) then
          match SleepUntil E (maxWriteTS b) with
          | Some code => (b, Some (External code))
          | None => (set_maxWriteTS b hlc.zero, None)
          end
        else (set_maxWriteTS b hlc.zero, None)
      else (b, None)
  end.

(** [func (b *SSTBatcher) GetSummary() kvpb.BulkOpSummary]. *)
Definition GetSummary (b : St) : summary E := totalBulkOpSummary b.

(** Adding a sequence of keys, stopping at the first error. *)
Fixpoint AddAll (b : St) (kvs : list (MVCCKey * list byte)) : St * option error :=
  match kvs with
  | [] => (b, None)
  | (k, v) :: rest =>
      match AddMVCCKey b k v with
      | (b, Some err) => (b, Some err)
      | (b, None) => AddAll b rest
      end
  end.

End Methods.

End Batcher.

(* ================================================================== *)
(** ** Vocabulary of the statements, and sample inputs *)
(* ================================================================== *)

(** The digest is the CRC with 0 replaced by 1. *)
Definition fold_zero (sum : Z) : Z := if sum =? 0 then 1 else sum.

(** [a <= b] on timestamps. *)
Definition ts_le (a b : hlc.Timestamp) : Prop := hlc.LessEq a b = true.

(** The range of an int32. *)
Definition is_int32 (z : Z) : Prop := - 2 ^ 31 <= z <= MaxInt32.

(** The range of an int64. *)
Definition is_int64 (z : Z) : Prop := - 2 ^ 63 <= z <= 2 ^ 63 - 1.

(** The status [Update] leaves in the receiver [x] when merging [o], read
    off its three epoch cases. *)
Definition merged_status (x o : Txn.t) : Txn.TransactionStatus :=
  if Txn.Epoch x <? Txn.Epoch o then
    if negb (Txn.IsFinalized (Txn.Status x)) then Txn.Status o else Txn.Status x
  else if Txn.Epoch x =? Txn.Epoch o then
    match Txn.Status x with
    | Txn.PENDING => Txn.Status o
    | Txn.PREPARED | Txn.STAGING =>
        if negb (Txn.status_eqb (Txn.Status o) Txn.PENDING)
        then Txn.Status o else Txn.Status x
    | _ => Txn.Status x
    end
  else
    match Txn.Status o with
    | Txn.ABORTED => Txn.ABORTED
    | _ => Txn.Status x
    end.

(** The minimum timestamp [Update] leaves in the receiver. *)
Definition merged_min (x o : Txn.t) : hlc.Timestamp :=
  if hlc.IsEmpty (Txn.MinTimestamp x) then Txn.MinTimestamp o
  else if negb (hlc.IsEmpty (Txn.MinTimestamp o))
       then hlc.Backward (Txn.MinTimestamp x) (Txn.MinTimestamp o)
       else Txn.MinTimestamp x.

(** The fields that neither [UpdateObservedTimestamp] nor [UpgradePriority]
    touches. *)
Definition same_core (a b : Txn.t) : Prop :=
  Txn.ID a = Txn.ID b /\ Txn.Epoch a = Txn.Epoch b /\
  Txn.WriteTimestamp a = Txn.WriteTimestamp b /\
  Txn.ReadTimestamp a = Txn.ReadTimestamp b /\
  Txn.MinTimestamp a = Txn.MinTimestamp b /\
  Txn.LastHeartbeat a = Txn.LastHeartbeat b /\
  Txn.GlobalUncertaintyLimit a = Txn.GlobalUncertaintyLimit b /\
  Txn.Status a = Txn.Status b.

(** An expiration-based lease as the data model has it: neither epoch nor
    term is set, and it carries no minimum expiration (a field of epoch and
    leader leases). *)
Definition expiration_based (l : Lease.t) : Prop :=
  Lease.Epoch l = 0 /\ Lease.Term l = 0 /\ Lease.MinExpiration l = hlc.zero.

(** An epoch-based lease as the data model has it: the epoch is set, the
    term is not, and there is no expiration. *)
Definition epoch_based (l : Lease.t) : Prop :=
  Lease.Epoch l <> 0 /\ Lease.Term l = 0 /\ Lease.Expiration l = None.

(** Two leases name the same replica (the replica's type aside). *)
Definition same_replica (a b : Lease.t) : Prop :=
  Lease.NodeID (Lease.Replica a) = Lease.NodeID (Lease.Replica b) /\
  Lease.StoreID (Lease.Replica a) = Lease.StoreID (Lease.Replica b) /\
  Lease.ReplicaID (Lease.Replica a) = Lease.ReplicaID (Lease.Replica b).

(** Sample leases held by replica (1, 1, 1) from time 10: one expiring at
    [exp], one at liveness epoch [epoch]. *)
Definition sample_expiration_lease (exp : Z) : Lease.t :=
  Lease.mk (hlc.mk 10 0) (Some (Lease.mkPtr 1 (hlc.mk exp 0)))
           (Lease.mkReplica 1 1 1 0) None (hlc.mk 10 0) 0 4 1 hlc.zero 0.

Definition sample_epoch_lease (epoch : Z) : Lease.t :=
  Lease.mk (hlc.mk 10 0) None (Lease.mkReplica 1 1 1 0) None (hlc.mk 11 0)
           epoch 0 0 (hlc.mk 30 0) 0.

(** A six-byte BYTES value with a zero checksum. *)
Definition sample_value : Value.t := Value.mk (Some [x00; x00; x00; x00; x03; x2a]) [].

(** A pending transaction with id 7 at the given epoch, priority, status and
    timestamps (read, write, minimum); the heartbeat and the uncertainty
    limit sit at the write timestamp. *)
Definition sample_txn (epoch priority : Z) (status : Txn.TransactionStatus)
    (read write min : Z) : Txn.t :=
  Txn.mk 7 [x61] 0 epoch (hlc.mk write 0) (hlc.mk min 0) priority 3 1
         [] status (hlc.mk write 0) (hlc.mk read 0) (hlc.mk write 0)
         [] true [Span.mk [x61] []] [] [] 0 false.

(** The files a trace says were sent: the reason with the covering span. *)
Fixpoint sent_spans {E : Batcher.Env} (tr : list (Batcher.event E))
  : list (Batcher.reason * Key * Key) :=
  match tr with
  | [] => []
  | Batcher.SSTSent why _ start end_ _ _ :: rest => (why, start, end_) :: sent_spans rest
  | _ :: rest => sent_spans rest
  end.

(** No collaborator of a flush fails: the delay is not interrupted, the
    file finishes, the limiter admits the request and the ingest succeeds. *)
Definition flush_succeeds (E : Batcher.Env) : Prop :=
  Batcher.ingestDelay E = None /\
  (forall w, snd (Batcher.Finish E w) = None) /\
  Batcher.LimiterBegin E = None /\
  (forall ts s e d m, exists r, Batcher.AddSSTable E ts s e d m = inr r).

(** A collaborator set for examples: the file is the list of entries put
    into it and its data size the bytes of their keys and values; every key
    is its own row; nothing fails; every ingest reports the range
    [[start, end)] with 1000 bytes left. *)
Definition example_env (fileSize : Z) : Batcher.Env :=
  Batcher.mkEnv
    (list (Batcher.MVCCKey * list byte)) Z (Z * Z)
    [] 0 (0, 0)
    []
    (fun w => fold_right (fun e acc => GoBytes.len (Batcher.Key (fst e)) +
                                        GoBytes.len (snd e) + acc) 0 w)
    (fun w k v => (w ++ [(k, v)], None))
    (fun w => (w, None))
    (fun w => flat_map (fun e => Batcher.Key (fst e) ++ snd e) w)
    (fun c _ => (c + 1, None))
    (fun c => c)
    (fun c => (0, 0))
    (fun s size sst => (fst s + size, snd s + sst))
    (fun a b => (fst a + fst b, snd a + snd b))
    (fun k => Some k)
    (fun k => Some k)
    fileSize
    None
    (fun _ => true)
    (fun _ => Some 0)
    None
    (fun ts s e _ _ => inr [Batcher.mkAddResult ts 1000 [] (Span.mk s e)])
    (hlc.mk 100 0)
    100
    (fun _ => None)
    12.

(** A key with one byte at timestamp 5. *)
Definition key_at (c : byte) : Batcher.MVCCKey := Batcher.mkMVCCKey [c] (hlc.mk 5 0).

(** A range cache that places every key in a range ending at "m". *)
Definition cache_m : Key -> option (option Key) := fun _ => Some (Some [x6d]).

(** What the steps of [doFlush] leave alone: the configuration, the
    buffered keys and the file under construction. *)
Definition batch_view {E : Batcher.Env} (b : Batcher.State E) :=
  (Batcher.rc b, Batcher.disallowShadowingBelow b, Batcher.skipDuplicates b,
   Batcher.ingestAll b, Batcher.writeAtBatchTS b, Batcher.disableScatters b,
   Batcher.onFlush b, Batcher.batchTS b, Batcher.sstWriter b,
   Batcher.batchRowCounter b, Batcher.batchStartKey b, Batcher.batchEndKey b,
   Batcher.batchEndValue b, Batcher.batchEndTimestamp b,
   Batcher.flushKeyChecked b, Batcher.flushKey b).

Definition same_batch {E : Batcher.Env} (a b : Batcher.State E) : Prop :=
  batch_view a = batch_view b.

(** The scenario of the spec: in skip-duplicates mode "a"@5 = "x" is added,
    then added again. *)
Definition after_a_x : Batcher.State (example_env 1000) :=
  fst (Batcher.AddMVCCKey (example_env 1000)
         (Batcher.MakeTestingSSTBatcher (example_env 1000) true false)
         (key_at x61) [x78]).


(** The scenario of the spec: a batcher whose range cache reports the
    boundary "m" has buffered "a" and "b". *)
Definition after_a_b : Batcher.State (example_env 1000) :=
  fst (Batcher.AddAll (example_env 1000)
         (Batcher.MakeStreamSSTBatcher (example_env 1000) (Some cache_m) false)
         [(key_at x61, [x78]); (key_at x62, [x79])]).

(** A range cache over the ranges ending at "m", "p" and "z". *)
Definition cache_mpz : Key -> option (option Key) :=
  fun k =>
    if GoBytes.lt0 (GoBytes.Compare k [x6d]) then Some (Some [x6d])
    else if GoBytes.lt0 (GoBytes.Compare k [x70]) then Some (Some [x70])
    else Some (Some [x7a]).

(** A streaming batcher over these ranges, far below the size threshold,
    after "a", "n" and "q" were added. *)
Definition after_a_n_q : Batcher.State (example_env 1000) * option Batcher.error :=
  Batcher.AddAll (example_env 1000)
    (Batcher.MakeStreamSSTBatcher (example_env 1000) (Some cache_mpz) false)
    [(key_at x61, [x78]); (key_at x6e, [x79]); (key_at x71, [x7a])].

(** The same batcher with a size threshold of 4 bytes (two entries), after
    "a", "b", "c" and "n" were added. *)
Definition after_a_b_c_n : Batcher.State (example_env 4) * option Batcher.error :=
  Batcher.AddAll (example_env 4)
    (Batcher.MakeStreamSSTBatcher (example_env 4) (Some cache_mpz) false)
    [(key_at x61, [x78]); (key_at x62, [x79]); (key_at x63, [x7a]); (key_at x6e, [x7a])].

(** A simple value: raw bytes with a header whose tag is not the
    extended-encoding sentinel. *)
Definition simple_value (v : Value.t) : Prop :=
  Value.RawBytes v <> None /\ Value.headerSize <= Value.len v /\
  Value.at_ v Value.tagPos <> Value.ValueType_MVCC_EXTENDED_ENCODING_SENTINEL.

(** The buffer [ensureRawBytes] hands out can be set without meeting a
    stale extended-encoding tag: it is freshly allocated, or the byte at the
    tag position of the recycled array is not the sentinel. *)
Definition clean_buffer (v : Value.t) (size : Z) : Prop :=
  Value.cap v < size \/
  GoBytes.byte_val (nth 4 (Value.raw v ++ Value.spare v) x00)
    <> Value.ValueType_MVCC_EXTENDED_ENCODING_SENTINEL.

(** The order [observedTimestampSlice] maintains: node ids strictly
    increasing. *)
Definition obs_sorted (s : list Txn.ObservedTimestamp) : Prop :=
  StronglySorted (fun a b => Txn.NodeID a < Txn.NodeID b) s.

(** The order [sort.IsSorted] checks on a [SequencedWriteBySeq]: no
    sequence number below an earlier one. *)
Definition sw_sorted (s : list Txn.SequencedWrite) : Prop :=
  StronglySorted (fun a b => Txn.SWSequence a <= Txn.SWSequence b) s.

(** The relations between the counters that [updateMVCCStats] maintains on
    a batch of live, non-overlapping keys: every byte is live, and every
    key is counted once as a live key, as a key and as a value. *)
Definition stats_consistent (m : Batcher.MVCCStats) : Prop :=
  Batcher.LiveBytes m = wrap_i64 (Batcher.KeyBytes m + Batcher.ValBytes m) /\
  Batcher.LiveCount m = Batcher.KeyCount m /\
  Batcher.KeyCount m = Batcher.ValCount m.

(** The keys of [kvs] come in order, none below [last]. *)
Definition keys_from (last : Key) (kvs : list (Batcher.MVCCKey * list byte)) : Prop :=
  StronglySorted KeyOrd.le (last :: map (fun kv => Batcher.Key (fst kv)) kvs).

(** The key fields of the batch under construction. *)
Definition batch_keys {E : Batcher.Env} (b : Batcher.State E) :=
  (Batcher.batchStartKey b, Batcher.batchEndKey b, Batcher.batchEndValue b,
   Batcher.batchEndTimestamp b, Batcher.flushKeyChecked b, Batcher.flushKey b).

(* ================================================================== *)
(** ** Resolved keys and their spans (data.go, [RKey], [RSpan]) *)
(* ================================================================== *)

(** [type RKey Key]. *)
Definition RKey := list byte.

Module RSpan.

(** [func (rk RKey) Compare(other RKey) int]. *)
Definition RKey_Compare (rk other : RKey) : comparison := GoBytes.Compare rk other.

(** [func (rk RKey) Less(otherRK RKey) bool]. *)
Definition RKey_Less (rk otherRK : RKey) : bool := GoBytes.lt0 (RKey_Compare rk otherRK).

(** [func (rk RKey) Equal(other []byte) bool]. *)
Definition RKey_Equal (rk other : RKey) : bool := GoBytes.Equal rk other.

(** [type RSpan struct { Key, EndKey RKey }]: the range [[Key, EndKey)]. *)
Record t := mk { Key : RKey; EndKey : RKey }.

(** The error of [Intersect], which carries the two spans. *)
Inductive error := SpansDoNotOverlap (rs rspan : t).

(** [func (rs RSpan) Equal(o RSpan) bool]. *)
Definition Equal (rs o : t) : bool :=
  RKey_Equal (Key rs) (Key o) && RKey_Equal (EndKey rs) (EndKey o).

(** [func (rs RSpan) ContainsKey(key RKey) bool]. *)
Definition ContainsKey (rs : t) (key : RKey) : bool :=
  GoBytes.ge0 (GoBytes.Compare key (Key rs)) && GoBytes.lt0 (GoBytes.Compare key (EndKey rs)).

(** [func (rs RSpan) ContainsKeyInverted(key RKey) bool]. *)
Definition ContainsKeyInverted (rs : t) (key : RKey) : bool :=
  GoBytes.gt0 (GoBytes.Compare key (Key rs)) && GoBytes.le0 (GoBytes.Compare key (EndKey rs)).

(** [func (rs RSpan) ContainsKeyRange(start, end RKey) bool]. *)
Definition ContainsKeyRange (rs : t) (start end_ : RKey) : bool :=
  if GoBytes.is_empty end_ then ContainsKey rs start
  else
    let comp := GoBytes.Compare end_ start in
    if GoBytes.lt0 comp then false
    else if match comp with Eq => true | _ => false end then ContainsKey rs start
    else GoBytes.ge0 (GoBytes.Compare start (Key rs)) &&
         GoBytes.ge0 (GoBytes.Compare (EndKey rs) end_).

(** [func (rs RSpan) Intersect(rspan RSpan) (RSpan, error)]; on an error the
    source returns the receiver beside it. *)
Definition Intersect (rs rspan : t) : t * option error :=
  if negb (RKey_Less (Key rs) (EndKey rspan)) || negb (RKey_Less (Key rspan) (EndKey rs))
  then (rs, Some (SpansDoNotOverlap rs rspan))
  else
    let key := Key rs in
    let key := if RKey_Less key (Key rspan) then Key rspan else key in
    let endKey := EndKey rs in
    let endKey := if negb (ContainsKeyRange rspan (Key rspan) endKey)
                  then EndKey rspan else endKey in
    (mk key endKey, None).

(** [func (rs RSpan) AsRawSpanWithNoLocals() Span]. *)
Definition AsRawSpanWithNoLocals (rs : t) : Span.t := Span.mk (Key rs) (EndKey rs).

End RSpan.

(* ################################################################## *)
(** * Part II: properties *)
(* ################################################################## *)

(* ================================================================== *)
(** ** Byte strings and the order on keys *)
(* ================================================================== *)

Lemma byte_val_inj x y : GoBytes.byte_val x = GoBytes.byte_val y -> x = y.
Proof.
  unfold GoBytes.byte_val. intros H. apply N2Z.inj in H.
  assert (E : Byte.of_N (Byte.to_N x) = Byte.of_N (Byte.to_N y)) by (now rewrite H).
  rewrite !Byte.of_to_N in E. congruence.
Qed.

Lemma byte_val_range b : 0 <= GoBytes.byte_val b <= 255.
Proof.
  unfold GoBytes.byte_val. pose proof (Byte.to_N_bounded b). lia.
Qed.

Lemma Compare_refl a : GoBytes.Compare a a = Eq.
Proof.
  induction a as [|x a IH]; simpl; [reflexivity|].
  now rewrite Z.compare_refl.
Qed.

Lemma Compare_eq a : forall b, GoBytes.Compare a b = Eq -> a = b.
Proof.
  induction a as [|x a IH]; intros [|y b]; simpl; try congruence.
  destruct (Z.compare_spec (GoBytes.byte_val x) (GoBytes.byte_val y)) as [E| |];
    try congruence.
  intros H. apply byte_val_inj in E. apply IH in H. congruence.
Qed.

Lemma Compare_eq_iff a b : GoBytes.Compare a b = Eq <-> a = b.
Proof.
  split; [apply Compare_eq|]. intros ->. apply Compare_refl.
Qed.

Lemma Compare_antisym a : forall b, GoBytes.Compare b a = CompOpp (GoBytes.Compare a b).
Proof.
  induction a as [|x a IH]; intros [|y b]; simpl; try reflexivity.
  rewrite (Z.compare_antisym (GoBytes.byte_val x) (GoBytes.byte_val y)).
  destruct (GoBytes.byte_val x ?= GoBytes.byte_val y); simpl; auto.
Qed.

Lemma Compare_lt_trans a : forall b c,
    GoBytes.Compare a b = Lt -> GoBytes.Compare b c = Lt -> GoBytes.Compare a c = Lt.
Proof.
  induction a as [|x a IH]; intros [|y b] [|z c]; simpl; try congruence.
  destruct (Z.compare_spec (GoBytes.byte_val x) (GoBytes.byte_val y)) as [E|L|G];
    try congruence;
    destruct (Z.compare_spec (GoBytes.byte_val y) (GoBytes.byte_val z)) as [E'|L'|G'];
    try congruence; intros H1 H2.
  - rewrite E, E', Z.compare_refl. eauto.
  - rewrite E. now apply Z.compare_lt_iff in L' as ->.
  - rewrite <- E'. now apply Z.compare_lt_iff in L as ->.
  - assert (L'' : GoBytes.byte_val x < GoBytes.byte_val z) by lia.
    now apply Z.compare_lt_iff in L'' as ->.
Qed.

Lemma Equal_true_iff a b : GoBytes.Equal a b = true <-> a = b.
Proof.
  unfold GoBytes.Equal. rewrite <- Compare_eq_iff.
  destruct (GoBytes.Compare a b); split; congruence.
Qed.

Lemma Equal_refl a : GoBytes.Equal a a = true.
Proof. now apply Equal_true_iff. Qed.

Lemma Equal_false_iff a b : GoBytes.Equal a b = false <-> a <> b.
Proof.
  rewrite <- Equal_true_iff. destruct (GoBytes.Equal a b); split; congruence.
Qed.

Lemma is_empty_false (k : Key) : k <> [] -> GoBytes.is_empty k = false.
Proof. destruct k; [congruence|reflexivity]. Qed.

Lemma is_empty_true (k : Key) : GoBytes.is_empty k = true -> k = [].
Proof. destruct k; [reflexivity|discriminate]. Qed.

Lemma Key_lt_irrefl a : ~ KeyOrd.lt a a.
Proof. unfold KeyOrd.lt. now rewrite Compare_refl. Qed.

Lemma Key_lt_trans a b c : KeyOrd.lt a b -> KeyOrd.lt b c -> KeyOrd.lt a c.
Proof. apply Compare_lt_trans. Qed.

Lemma Key_le_lteq a b : KeyOrd.le a b <-> KeyOrd.lt a b \/ a = b.
Proof.
  unfold KeyOrd.le, KeyOrd.lt. rewrite <- Compare_eq_iff.
  destruct (GoBytes.Compare a b); intuition congruence.
Qed.

Lemma Key_lt_total a b : KeyOrd.lt a b \/ a = b \/ KeyOrd.lt b a.
Proof.
  unfold KeyOrd.lt. rewrite <- Compare_eq_iff, (Compare_antisym a b).
  destruct (GoBytes.Compare a b); simpl; auto.
Qed.

Lemma Key_gt_lt a b : GoBytes.Compare a b = Gt <-> KeyOrd.lt b a.
Proof.
  unfold KeyOrd.lt. rewrite (Compare_antisym a b).
  destruct (GoBytes.Compare a b); simpl; split; congruence.
Qed.

(** Nothing lies strictly between [k] and [Next k]. *)
Lemma Key_lt_Next_iff k : forall a, KeyOrd.lt a (KeyOrd.Next k) <-> KeyOrd.le a k.
Proof.
  unfold KeyOrd.lt, KeyOrd.le, KeyOrd.Next, KeyOrd.BytesNext.
  induction k as [|x k IH]; intros [|y a]; simpl; try (split; congruence).
  - pose proof (byte_val_range y). change (GoBytes.byte_val x00) with 0.
    destruct (Z.compare_spec (GoBytes.byte_val y) 0); try lia; [|split; congruence].
    destruct a; simpl; split; congruence.
  - destruct (GoBytes.byte_val y ?= GoBytes.byte_val x); try (split; congruence).
    apply IH.
Qed.

Lemma Key_lt_Next k : KeyOrd.lt k (KeyOrd.Next k).
Proof. apply Key_lt_Next_iff, Key_le_lteq. now right. Qed.

Lemma Key_Next_nonempty k : KeyOrd.Next k <> [].
Proof. unfold KeyOrd.Next, KeyOrd.BytesNext. destruct k; discriminate. Qed.

Lemma is_empty_Next (k : Key) : GoBytes.is_empty (KeyOrd.Next k) = false.
Proof. apply is_empty_false, Key_Next_nonempty. Qed.

(** Keys under [bytes.Compare] form a total order; this instance feeds the
    [order] decision procedure used for the span algebra below. *)
Module KeyTO <: TotalOrder.
Definition t := Key.
Definition eq := @Logic.eq Key.
Definition eq_equiv : Equivalence eq := eq_equivalence.
Definition lt := KeyOrd.lt.
Definition le := KeyOrd.le.
#[global] Instance lt_strorder : StrictOrder lt.
Proof.
  split.
  - intros a. apply Key_lt_irrefl.
  - intros a b c. apply Key_lt_trans.
Qed.
#[global] Instance lt_compat : Proper (eq ==> eq ==> iff) lt.
Proof. intros a b -> c d ->. reflexivity. Qed.
Definition le_lteq := Key_le_lteq.
Definition lt_total := Key_lt_total.
End KeyTO.

Module KeyTac := MakeOrderTac KeyTO KeyTO.

Lemma Key_empty_lt (x : Key) : x <> [] -> KeyTO.lt [] x.
Proof. destruct x; [congruence|reflexivity]. Qed.

Lemma Key_empty_le (x : Key) : KeyTO.le [] x.
Proof. unfold KeyTO.le, KeyOrd.le. destruct x; simpl; congruence. Qed.

(** Where a key [x] stands with respect to [k] and its successor. *)
Lemma Next_cases (k x : Key) :
  KeyTO.lt x k \/ x = k \/ x = KeyOrd.Next k \/ KeyTO.lt (KeyOrd.Next k) x.
Proof.
  destruct (Key_lt_total x (KeyOrd.Next k)) as [H|[H|H]]; auto.
  apply Key_lt_Next_iff, Key_le_lteq in H. tauto.
Qed.

Lemma Key_lt_Next_mono (k x : Key) : KeyTO.lt x k -> KeyTO.lt x (KeyOrd.Next k).
Proof. intros H. apply Key_lt_Next_iff, Key_le_lteq. now left. Qed.

Lemma Key_Next_lt (k x : Key) : KeyTO.lt k x -> KeyTO.le (KeyOrd.Next k) x.
Proof.
  intros H. destruct (Key_lt_total x (KeyOrd.Next k)) as [L|[L|L]].
  - apply Key_lt_Next_iff in L. KeyTac.order.
  - KeyTac.order.
  - KeyTac.order.
Qed.

(** The three-way outcome of [bytes.Compare] on keys, read as an order. *)
Lemma Key_Compare_spec (a b : Key) :
  CompareSpec (a = b) (KeyTO.lt a b) (KeyTO.lt b a) (GoBytes.Compare a b).
Proof.
  destruct (GoBytes.Compare a b) eqn:E; constructor.
  - now apply Compare_eq.
  - exact E.
  - now apply Key_gt_lt.
Qed.

Lemma Key_le_refl (a : Key) : KeyOrd.le a a.
Proof. apply Key_le_lteq. now right. Qed.

Lemma Key_le_trans (a b c : Key) : KeyOrd.le a b -> KeyOrd.le b c -> KeyOrd.le a c.
Proof. intros H1 H2. change (KeyTO.le a c). change (KeyTO.le a b) in H1.
  change (KeyTO.le b c) in H2. KeyTac.order. Qed.

(* ================================================================== *)
(** ** Span algebra: single-key spans against [[k, k.Next())] *)
(* ================================================================== *)

Lemma Valid_inv (a b : Key) :
  Span.Valid (Span.mk a b) = true ->
  (b = [] /\ a <> []) \/ (b <> [] /\ KeyTO.lt a b).
Proof.
  unfold Span.Valid; cbn [Span.Key Span.EndKey].
  destruct (GoBytes.is_empty b) eqn:Eb.
  - apply is_empty_true in Eb. subst b.
    destruct a; cbn; [discriminate|]. intros _. left. split; [reflexivity|discriminate].
  - rewrite andb_false_r.
    destruct (GoBytes.Compare a b) eqn:E; cbn; try discriminate.
    intros _. right. split; [|exact E]. intros ->. discriminate.
Qed.

(** Decide one comparison of the goal from the ordering hypotheses at hand
    and rewrite with it. *)
Ltac decide_cmp :=
  match goal with
  | |- context [GoBytes.Compare ?x ?y] =>
      let H := fresh "Hc" in
      first
        [ assert (H : GoBytes.Compare x y = Lt)
            by (change (KeyTO.lt x y); KeyTac.order)
        | assert (H : GoBytes.Compare x y = Eq)
            by (apply Compare_eq_iff; KeyTac.order)
        | assert (H : GoBytes.Compare x y = Gt)
            by (apply Key_gt_lt; change (KeyTO.lt y x); KeyTac.order) ];
      rewrite !H; clear H; cbn [GoBytes.lt0 GoBytes.le0 GoBytes.gt0 GoBytes.ge0
                                 andb orb negb Span.Key Span.EndKey fst snd]
  end.

Ltac decide_empty :=
  match goal with
  | H : GoBytes.is_empty ?x = _ |- context [GoBytes.is_empty ?x] =>
      rewrite !H; cbn [andb orb negb Span.Key Span.EndKey]
  | |- context [GoBytes.is_empty (KeyOrd.Next ?x)] =>
      rewrite !is_empty_Next; cbn [andb orb negb Span.Key Span.EndKey]
  | |- context [GoBytes.is_empty []] =>
      change (GoBytes.is_empty []) with true; cbn [andb orb negb Span.Key Span.EndKey]
  end.

Ltac span_unfold :=
  unfold Span.Intersect, Span.Combine, Span.Overlaps, Span.Contains,
    Span.SplitOnKey, Span.ContainsKey, Span.Valid, Span.single,
    Span.point_range, Span.as_range, Span.zero, KeyOrd.Equal, KeyOrd.Compare,
    GoBytes.Equal;
  cbn [Span.Key Span.EndKey].

Ltac span_decide :=
  span_unfold; repeat (first [decide_empty | decide_cmp]); try reflexivity.

(** Every way a valid span [o = [a, b)] (or the single key [a]) can lie with
    respect to [k] and [k.Next()]. *)
Ltac span_cases k o Hk Hvalid :=
  let a := fresh "a" in
  let b := fresh "b" in
  destruct o as [a b];
  apply Valid_inv in Hvalid;
  pose proof (Key_lt_Next k);
  pose proof (Key_empty_lt k Hk);
  pose proof (is_empty_false k Hk);
  destruct Hvalid as [[-> Ha]|[Hb Hab]];
  [ pose proof (is_empty_false a Ha); pose proof (Key_empty_lt a Ha);
    destruct (Next_cases k a) as [?|[?|[?|?]]]
  | pose proof (is_empty_false b Hb); pose proof (Key_empty_lt b Hb);
    pose proof (Key_empty_le a);
    destruct (GoBytes.is_empty a) eqn:Ea;
    [ apply is_empty_true in Ea | ];
    destruct (Next_cases k a) as [?|[?|[?|?]]];
    destruct (Next_cases k b) as [?|[?|[?|?]]] ];
  subst;
  try (exfalso; KeyTac.order);
  repeat match goal with
    | H : KeyTO.lt ?x k |- _ =>
        lazymatch goal with
        | _ : KeyTO.lt x (KeyOrd.Next k) |- _ => fail
        | _ => pose proof (Key_lt_Next_mono k x H)
        end
    end.

Section SingleKey.

Variable k : Key.
Hypothesis k_nonempty : k <> [].
Variable o : Span.t.
Hypothesis o_valid : Span.Valid o = true.

Lemma Overlaps_single_l :
  Span.Overlaps (Span.single k) o = Span.Overlaps (Span.point_range k) o.
Proof. span_cases k o k_nonempty o_valid; span_decide. Qed.

Lemma Overlaps_single_r :
  Span.Overlaps o (Span.single k) = Span.Overlaps o (Span.point_range k).
Proof. span_cases k o k_nonempty o_valid; span_decide. Qed.

Lemma Intersect_single_l :
  Span.as_range (Span.Intersect (Span.single k) o) =
  Span.as_range (Span.Intersect (Span.point_range k) o).
Proof. span_cases k o k_nonempty o_valid; span_decide. Qed.

Lemma Intersect_single_r :
  Span.as_range (Span.Intersect o (Span.single k)) =
  Span.as_range (Span.Intersect o (Span.point_range k)).
Proof. span_cases k o k_nonempty o_valid; span_decide. Qed.

Lemma Combine_single_l :
  Span.as_range (Span.Combine (Span.single k) o) =
  Span.as_range (Span.Combine (Span.point_range k) o).
Proof. span_cases k o k_nonempty o_valid; span_decide. Qed.

Lemma Combine_single_r :
  Span.as_range (Span.Combine o (Span.single k)) =
  Span.as_range (Span.Combine o (Span.point_range k)).
Proof. span_cases k o k_nonempty o_valid; span_decide. Qed.

Lemma Contains_single_arg :
  GoBytes.is_empty (Span.EndKey o) = false ->
  Span.Contains o (Span.single k) = Span.Contains o (Span.point_range k).
Proof.
  span_cases k o k_nonempty o_valid; cbn [Span.EndKey]; intros He;
    try discriminate He; span_decide.
Qed.

Lemma Contains_single_recv :
  o <> Span.point_range k ->
  Span.Contains (Span.single k) o = Span.Contains (Span.point_range k) o.
Proof.
  span_cases k o k_nonempty o_valid; intros Hne;
    try (exfalso; apply Hne; reflexivity); span_decide.
Qed.

Lemma Contains_single_no_range :
  GoBytes.is_empty (Span.EndKey o) = false ->
  Span.Contains (Span.single k) o = false.
Proof.
  span_cases k o k_nonempty o_valid; cbn [Span.EndKey]; intros He;
    try discriminate He; span_decide.
Qed.

Lemma Contains_single_only_single :
  GoBytes.is_empty (Span.EndKey o) = true ->
  Span.Contains o (Span.point_range k) = false.
Proof.
  span_cases k o k_nonempty o_valid; cbn [Span.EndKey]; intros He;
    try discriminate He; try congruence; span_decide.
Qed.

End SingleKey.

Lemma SplitOnKey_single (k key : Key) :
  Span.SplitOnKey (Span.single k) key = (Span.single k, Span.zero) /\
  Span.SplitOnKey (Span.point_range k) key = (Span.point_range k, Span.zero).
Proof.
  pose proof (Key_lt_Next k). pose proof (Key_empty_le k).
  assert (Hkey : key = [] \/ KeyTO.lt [] key).
  { destruct key; [now left|right; reflexivity]. }
  destruct Hkey as [->|Hkey];
    [destruct (Next_cases k []) as [?|[?|[?|?]]]
    |destruct (Next_cases k key) as [?|[?|[?|?]]]];
    subst;
    try (exfalso; KeyTac.order);
    try match goal with
      | H : KeyTO.lt ?x k |- _ => pose proof (Key_lt_Next_mono k x H)
      end;
    split; span_decide.
Qed.

(** C9, as the code has it.  For a non-empty key [k] and a valid span [o],
    [Overlaps], [Intersect], [Combine] and [SplitOnKey] treat the single-key
    span [{Key: k}] as [[k, k.Next())], the spans they return agreeing once
    read as ranges.  [Contains] agrees when the single-key span is the
    argument of a span with an end key, and when it is the receiver and the
    argument is not [[k, k.Next())] itself; a single-key receiver contains
    no span that has an end key, and a single-key span does not contain
    [[k, k.Next())]. *)
Theorem C9_single_key_span_equivalence (k : Key) (o : Span.t) :
  k <> [] -> Span.Valid o = true ->
  Span.Overlaps (Span.single k) o = Span.Overlaps (Span.point_range k) o /\
  Span.Overlaps o (Span.single k) = Span.Overlaps o (Span.point_range k) /\
  Span.as_range (Span.Intersect (Span.single k) o) =
    Span.as_range (Span.Intersect (Span.point_range k) o) /\
  Span.as_range (Span.Intersect o (Span.single k)) =
    Span.as_range (Span.Intersect o (Span.point_range k)) /\
  Span.as_range (Span.Combine (Span.single k) o) =
    Span.as_range (Span.Combine (Span.point_range k) o) /\
  Span.as_range (Span.Combine o (Span.single k)) =
    Span.as_range (Span.Combine o (Span.point_range k)) /\
  (forall key, Span.SplitOnKey (Span.single k) key = (Span.single k, Span.zero) /\
               Span.SplitOnKey (Span.point_range k) key =
                 (Span.point_range k, Span.zero)) /\
  (GoBytes.is_empty (Span.EndKey o) = false ->
   Span.Contains o (Span.single k) = Span.Contains o (Span.point_range k)) /\
  (o <> Span.point_range k ->
   Span.Contains (Span.single k) o = Span.Contains (Span.point_range k) o) /\
  (GoBytes.is_empty (Span.EndKey o) = false ->
   Span.Contains (Span.single k) o = false) /\
  (GoBytes.is_empty (Span.EndKey o) = true ->
   Span.Contains o (Span.point_range k) = false).
Proof.
  intros Hk Hv.
  repeat split.
  - now apply Overlaps_single_l.
  - now apply Overlaps_single_r.
  - now apply Intersect_single_l.
  - now apply Intersect_single_r.
  - now apply Combine_single_l.
  - now apply Combine_single_r.
  - apply SplitOnKey_single.
  - apply SplitOnKey_single.
  - now apply Contains_single_arg.
  - now apply Contains_single_recv.
  - now apply Contains_single_no_range.
  - now apply Contains_single_only_single.
Qed.

Lemma C9_single_key_span_equivalence_witness :
  [x61] <> @nil byte /\
  Span.Valid (Span.mk [x61] [x6d]) = true /\
  Span.Overlaps (Span.single [x61]) (Span.mk [x61] [x6d]) =
    Span.Overlaps (Span.point_range [x61]) (Span.mk [x61] [x6d]).
Proof.
  assert (H1 : [x61] <> @nil byte) by discriminate.
  assert (H2 : Span.Valid (Span.mk [x61] [x6d]) = true) by reflexivity.
  split; [exact H1|]. split; [exact H2|].
  exact (proj1 (C9_single_key_span_equivalence [x61] (Span.mk [x61] [x6d]) H1 H2)).
Defined.

(** C9 as stated fails for [Contains]: the single-key span [{Key: "a"}] does
    not contain the valid span [["a", "a\x00")], while [["a", "a".Next())]
    does. *)
Lemma C9_counterexample :
  [x61] <> @nil byte /\
  Span.Valid (Span.mk [x61] [x61; x00]) = true /\
  Span.Contains (Span.single [x61]) (Span.mk [x61] [x61; x00]) = false /\
  Span.Contains (Span.point_range [x61]) (Span.mk [x61] [x61; x00]) = true.
Proof.
  split; [discriminate|]. repeat split; reflexivity.
Qed.

(* ================================================================== *)
(** ** Values: checksums *)
(* ================================================================== *)

Lemma len_nonneg (a : list byte) : 0 <= GoBytes.len a.
Proof. unfold GoBytes.len. lia. Qed.

Lemma checksum_nil (v : Value.t) : Value.RawBytes v = None -> Value.checksum v = 0.
Proof.
  intros H. unfold Value.checksum, Value.len, Value.raw. rewrite H. reflexivity.
Qed.



(** What [computeChecksum] returns, case by case: 0 without hashing when no
    header is present, a panic when an extended value points past its end,
    and otherwise the folded CRC of the key followed by the bytes after the
    checksum. *)
Lemma computeChecksum_cases (key rawBytes : list byte) (crc : list byte -> Z) :
  Value.computeChecksum key rawBytes crc = inr 0 \/
  Value.computeChecksum key rawBytes crc = inl Value.SliceBounds \/
  exists payload,
    Value.computeChecksum key rawBytes crc = inr (fold_zero (crc (key ++ payload))).
Proof.
  unfold Value.computeChecksum, fold_zero, Value.checksumUninitialized.
  destruct (GoBytes.len rawBytes <? Value.headerSize); [now left|].
  destruct (_ =? Value.ValueType_MVCC_EXTENDED_ENCODING_SENTINEL).
  - destruct (GoBytes.len rawBytes <? _); [now right; left|].
    destruct (GoBytes.len _ <? Value.headerSize); [now left|].
    right; right. eexists. reflexivity.
  - right; right. eexists. reflexivity.
Qed.

Lemma computeChecksum_panic (key rawBytes : list byte) (crc : list byte -> Z) p :
  Value.computeChecksum key rawBytes crc = inl p -> p = Value.SliceBounds.
Proof.
  destruct (computeChecksum_cases key rawBytes crc) as [H|[H|[pl H]]];
    rewrite H; congruence.
Qed.

(** A simple (not extended) value with a header is always hashed. *)
Lemma computeChecksum_simple (key rawBytes : list byte) (crc : list byte -> Z) :
  Value.headerSize <= GoBytes.len rawBytes ->
  GoBytes.byte_val (nth (Z.to_nat Value.tagPos) rawBytes x00)
    <> Value.ValueType_MVCC_EXTENDED_ENCODING_SENTINEL ->
  Value.computeChecksum key rawBytes crc =
    inr (fold_zero (crc (key ++ GoBytes.from Value.checksumSize rawBytes))).
Proof.
  intros Hlen Htag. unfold Value.computeChecksum, fold_zero, Value.checksumUninitialized.
  destruct (Z.ltb_spec (GoBytes.len rawBytes) Value.headerSize); [lia|].
  destruct (Z.eqb_spec (GoBytes.byte_val (nth (Z.to_nat Value.tagPos) rawBytes x00))
              Value.ValueType_MVCC_EXTENDED_ENCODING_SENTINEL); [contradiction|].
  reflexivity.
Qed.

Lemma VerifyHeader_ok (v : Value.t) :
  Value.VerifyHeader v = None <-> (Value.len v = 0 \/ Value.headerSize <= Value.len v).
Proof.
  unfold Value.VerifyHeader.
  pose proof (len_nonneg (Value.raw v)). fold (Value.len v) in H.
  destruct (Z.ltb_spec 0 (Value.len v)), (Z.ltb_spec (Value.len v) Value.headerSize);
    simpl; split; intros; try discriminate; try reflexivity; lia.
Qed.





(** C10.  [InitChecksum] returns a value with nil raw bytes unchanged; on a
    value whose stored checksum is not zero it panics with that checksum;
    and when the stored checksum is zero it never reaches that panic. *)
Theorem C10_InitChecksum (v : Value.t) (key : list byte) :
  (Value.RawBytes v = None -> Value.InitChecksum v key = Done v) /\
  (Value.checksum v <> 0 ->
   Value.InitChecksum v key = Panicked (Value.InitializedChecksum (Value.checksum v))) /\
  (Value.checksum v = 0 ->
   forall sum, Value.InitChecksum v key <> Panicked (Value.InitializedChecksum sum)).
Proof.
  split; [|split].
  - intros H. unfold Value.InitChecksum. now rewrite H.
  - intros Hc. unfold Value.InitChecksum.
    destruct (Value.RawBytes v) eqn:E.
    + unfold Value.checksumUninitialized.
      destruct (Z.eqb_spec (Value.checksum v) 0); [contradiction|reflexivity].
    + now rewrite (checksum_nil v E) in Hc.
  - intros Hc sum. unfold Value.InitChecksum.
    destruct (Value.RawBytes v); [|discriminate].
    rewrite Hc. cbn.
    destruct (Value.computeChecksum_v v key) as [p|d] eqn:E; [|discriminate].
    apply computeChecksum_panic in E. subst p. discriminate.
Qed.

Lemma C10_InitChecksum_witness :
  Value.checksum (Value.mk (Some [x00; x00; x00; x01; x03]) []) <> 0 /\
  Value.InitChecksum (Value.mk (Some [x00; x00; x00; x01; x03]) []) [x61] =
    Panicked (Value.InitializedChecksum 1).
Proof.
  assert (H : Value.checksum (Value.mk (Some [x00; x00; x00; x01; x03]) []) <> 0)
    by (vm_compute; discriminate).
  split; [exact H|].
  exact (proj1 (proj2 (C10_InitChecksum (Value.mk (Some [x00; x00; x00; x01; x03]) [])
                         [x61])) H).
Defined.

(** The CRC agrees with the standard check value of CRC-32/IEEE on the
    ASCII digits "123456789". *)
Example crc32_ieee_check :
  GoBytes.crc32_ieee [x31; x32; x33; x34; x35; x36; x37; x38; x39] = 3421780262.
Proof. vm_compute. reflexivity. Qed.

(* ================================================================== *)
(** ** Timestamps *)
(* ================================================================== *)

Lemma ts_eta (a : hlc.Timestamp) : hlc.mk (hlc.WallTime a) (hlc.Logical a) = a.
Proof. now destruct a. Qed.

Lemma ts_Less_spec (a b : hlc.Timestamp) :
  hlc.Less a b = true <->
  (hlc.WallTime a < hlc.WallTime b \/
   (hlc.WallTime a = hlc.WallTime b /\ hlc.Logical a < hlc.Logical b)).
Proof. unfold hlc.Less. lia. Qed.

Lemma ts_LessEq_spec (a b : hlc.Timestamp) :
  hlc.LessEq a b = true <->
  (hlc.WallTime a < hlc.WallTime b \/
   (hlc.WallTime a = hlc.WallTime b /\ hlc.Logical a <= hlc.Logical b)).
Proof. unfold hlc.LessEq. lia. Qed.

Lemma ts_Equal_spec (a b : hlc.Timestamp) : hlc.Equal a b = true <-> a = b.
Proof.
  unfold hlc.Equal. destruct a as [w l], b as [w' l']; simpl. split.
  - intros H. f_equal; lia.
  - intros H. injection H as -> ->. lia.
Qed.

(** Turn every timestamp comparison in sight into integer arithmetic. *)
Ltac ts_arith :=
  unfold ts_le, hlc.Forward, hlc.Backward, hlc.IsEmpty in *;
  repeat match goal with
    | |- context [if hlc.Less ?a ?b then _ else _] =>
        let E := fresh "E" in destruct (hlc.Less a b) eqn:E
    | H : context [if hlc.Less ?a ?b then _ else _] |- _ =>
        let E := fresh "E" in destruct (hlc.Less a b) eqn:E
    end;
  repeat match goal with
    | H : hlc.Less _ _ = true |- _ => apply ts_Less_spec in H
    | H : hlc.Less _ _ = false |- _ =>
        apply not_true_iff_false in H; rewrite ts_Less_spec in H
    | H : hlc.LessEq _ _ = true |- _ => apply ts_LessEq_spec in H
    | H : hlc.LessEq _ _ = false |- _ =>
        apply not_true_iff_false in H; rewrite ts_LessEq_spec in H
    | |- hlc.LessEq _ _ = true => apply ts_LessEq_spec
    | |- hlc.Less _ _ = true => apply ts_Less_spec
    | |- hlc.Less _ _ = false => apply not_true_iff_false; rewrite ts_Less_spec
    | |- hlc.LessEq _ _ = false => apply not_true_iff_false; rewrite ts_LessEq_spec
    end;
  simpl in *; try lia.

Lemma ts_le_refl a : ts_le a a.
Proof. ts_arith. Qed.

Lemma ts_le_trans a b c : ts_le a b -> ts_le b c -> ts_le a c.
Proof. intros H1 H2. ts_arith. Qed.

Lemma ts_le_antisym a b : ts_le a b -> ts_le b a -> a = b.
Proof.
  intros H1 H2. rewrite <- (ts_eta a), <- (ts_eta b). ts_arith. f_equal; lia.
Qed.

(** [Forward] is the maximum of its arguments. *)
Lemma Forward_max a b :
  ts_le a (hlc.Forward a b) /\ ts_le b (hlc.Forward a b) /\
  (hlc.Forward a b = a \/ hlc.Forward a b = b).
Proof. repeat split; ts_arith; auto. Qed.

(** [Backward] is the minimum of its arguments. *)
Lemma Backward_min a b :
  ts_le (hlc.Backward a b) a /\ ts_le (hlc.Backward a b) b /\
  (hlc.Backward a b = a \/ hlc.Backward a b = b).
Proof. repeat split; ts_arith; auto. Qed.

Lemma Forward_least a b c : ts_le a c -> ts_le b c -> ts_le (hlc.Forward a b) c.
Proof. intros H1 H2. unfold hlc.Forward. destruct (hlc.Less a b); assumption. Qed.

(* ================================================================== *)
(** ** Transactions: restart and priority *)
(* ================================================================== *)

Lemma wrap_i32_id z : is_int32 z -> wrap_i32 z = z.
Proof.
  unfold is_int32, wrap_i32, MaxInt32. intros H.
  rewrite Z.mod_small; lia.
Qed.

Lemma UpgradePriority_fields (x : Txn.t) (p : Z) :
  let x' := Txn.UpgradePriority x p in
  Txn.ID x' = Txn.ID x /\ Txn.Epoch x' = Txn.Epoch x /\
  Txn.WriteTimestamp x' = Txn.WriteTimestamp x /\
  Txn.ReadTimestamp x' = Txn.ReadTimestamp x /\
  Txn.MinTimestamp x' = Txn.MinTimestamp x /\
  Txn.LastHeartbeat x' = Txn.LastHeartbeat x /\
  Txn.GlobalUncertaintyLimit x' = Txn.GlobalUncertaintyLimit x /\
  Txn.Status x' = Txn.Status x.
Proof.
  unfold Txn.UpgradePriority.
  destruct (_ && _); cbn; repeat split; reflexivity.
Qed.

Lemma UpgradePriority_priority (x : Txn.t) (p : Z) :
  Txn.Priority (Txn.UpgradePriority x p) =
  if Txn.Priority x =? Txn.MinTxnPriority then Txn.Priority x
  else Z.max (Txn.Priority x) p.
Proof.
  unfold Txn.UpgradePriority.
  destruct (Z.ltb_spec (Txn.Priority x) p), (Z.eqb_spec (Txn.Priority x) Txn.MinTxnPriority);
    cbn; lia.
Qed.

Lemma Restart_fields (x : Txn.t) (mp up : Z) (ts : hlc.Timestamp) :
  let x' := Txn.Restart x mp up ts in
  Txn.Epoch x' = wrap_i32 (Txn.Epoch x + 1) /\
  Txn.WriteTimestamp x' = hlc.Forward (Txn.WriteTimestamp x) ts /\
  Txn.ReadTimestamp x' = hlc.Forward (Txn.WriteTimestamp x) ts /\
  Txn.Priority x' =
    Txn.Priority (Txn.UpgradePriority (Txn.UpgradePriority x mp) up) /\
  Txn.Sequence x' = 0 /\ Txn.ReadTimestampFixed x' = false /\
  Txn.LockSpans x' = [] /\ Txn.InFlightWrites x' = [] /\
  Txn.IgnoredSeqNums x' = [].
Proof.
  cbv zeta. unfold Txn.Restart.
  set (x1 := Txn.BumpEpoch x).
  set (x2 := if hlc.Less (Txn.WriteTimestamp x1) ts
             then Txn.set_WriteTimestamp x1 ts else x1).
  set (x3 := Txn.set_ReadTimestamp x2 (Txn.WriteTimestamp x2)).
  assert (P3 : Txn.Priority x3 = Txn.Priority x).
  { subst x3 x2 x1. destruct (hlc.Less _ ts); reflexivity. }
  assert (E3 : Txn.Epoch x3 = wrap_i32 (Txn.Epoch x + 1)).
  { subst x3 x2 x1. destruct (hlc.Less _ ts); reflexivity. }
  assert (W3 : Txn.WriteTimestamp x3 = hlc.Forward (Txn.WriteTimestamp x) ts).
  { subst x3 x2 x1. unfold hlc.Forward. cbn [Txn.BumpEpoch Txn.set_Epoch Txn.WriteTimestamp].
    destruct (hlc.Less _ ts); reflexivity. }
  assert (R3 : Txn.ReadTimestamp x3 = hlc.Forward (Txn.WriteTimestamp x) ts).
  { rewrite <- W3. subst x3. destruct x2; reflexivity. }
  destruct (UpgradePriority_fields x3 mp) as (_ & e1 & w1 & r1 & _).
  destruct (UpgradePriority_fields (Txn.UpgradePriority x3 mp) up) as (_ & e2 & w2 & r2 & _).
  cbn [Txn.Epoch Txn.WriteTimestamp Txn.ReadTimestamp Txn.Priority Txn.Sequence
       Txn.ReadTimestampFixed Txn.LockSpans Txn.InFlightWrites Txn.IgnoredSeqNums].
  rewrite e2, e1, w2, w1, r2, r1, E3, W3, R3.
  repeat split.
  rewrite !UpgradePriority_priority, P3. reflexivity.
Qed.

(** A sequence of restarts, under the preconditions of C3. *)
Lemma RestartAll_monotone (calls : list (Z * Z * hlc.Timestamp)) :
  forall x : Txn.t,
    is_int32 (Txn.Epoch x) ->
    Txn.Epoch x + Z.of_nat (length calls) <= MaxInt32 ->
    ts_le (Txn.ReadTimestamp x) (Txn.WriteTimestamp x) ->
    let x' := Txn.RestartAll x calls in
    Txn.Epoch x' = Txn.Epoch x + Z.of_nat (length calls) /\
    ts_le (Txn.ReadTimestamp x) (Txn.ReadTimestamp x') /\
    ts_le (Txn.WriteTimestamp x) (Txn.WriteTimestamp x') /\
    ts_le (Txn.ReadTimestamp x') (Txn.WriteTimestamp x').
Proof.
  induction calls as [|[[mp up] ts] rest IH]; intros x Hi He Hrw.
  - cbn. repeat split; try lia; auto using ts_le_refl.
  - cbn [Txn.RestartAll length] in *.
    destruct (Restart_fields x mp up ts) as (E & W & R & _).
    assert (E' : Txn.Epoch (Txn.Restart x mp up ts) = Txn.Epoch x + 1).
    { rewrite E. apply wrap_i32_id. unfold is_int32 in *. lia. }
    destruct (Forward_max (Txn.WriteTimestamp x) ts) as (F1 & _ & _).
    specialize (IH (Txn.Restart x mp up ts)).
    rewrite E', W, R in IH.
    destruct IH as (IE & IR & IW & IRW).
    + unfold is_int32 in *. lia.
    + lia.
    + apply ts_le_refl.
    + repeat split.
      * rewrite IE. lia.
      * eapply ts_le_trans; [|exact IR]. eapply ts_le_trans; eassumption.
      * eapply ts_le_trans; eassumption.
      * exact IRW.
Qed.

(** C3, as the code has it.  For a transaction whose epoch is an int32 below
    the maximum and whose read timestamp does not exceed its write
    timestamp, [Restart] raises the epoch by exactly one, makes the write
    timestamp the maximum of its previous value and the argument, sets the
    read timestamp to the new write timestamp, and clears the sequence
    counter, the read-timestamp-fixed flag, the lock spans, the in-flight
    writes and the ignored sequence-number ranges; neither timestamp
    regresses.  Over any sequence of such calls that does not overflow the
    epoch, the epoch grows by the number of calls and neither timestamp
    regresses. *)
Theorem C3_Restart (x : Txn.t) (mp up : Z) (ts : hlc.Timestamp)
    (calls : list (Z * Z * hlc.Timestamp)) :
  is_int32 (Txn.Epoch x) ->
  ts_le (Txn.ReadTimestamp x) (Txn.WriteTimestamp x) ->
  (Txn.Epoch x < MaxInt32 ->
   let x' := Txn.Restart x mp up ts in
   Txn.Epoch x' = Txn.Epoch x + 1 /\
   Txn.WriteTimestamp x' = hlc.Forward (Txn.WriteTimestamp x) ts /\
   ts_le (Txn.WriteTimestamp x) (Txn.WriteTimestamp x') /\
   ts_le ts (Txn.WriteTimestamp x') /\
   (Txn.WriteTimestamp x' = Txn.WriteTimestamp x \/ Txn.WriteTimestamp x' = ts) /\
   Txn.ReadTimestamp x' = Txn.WriteTimestamp x' /\
   ts_le (Txn.ReadTimestamp x) (Txn.ReadTimestamp x') /\
   Txn.Sequence x' = 0 /\ Txn.ReadTimestampFixed x' = false /\
   Txn.LockSpans x' = [] /\ Txn.InFlightWrites x' = [] /\
   Txn.IgnoredSeqNums x' = []) /\
  (Txn.Epoch x + Z.of_nat (length calls) <= MaxInt32 ->
   let x' := Txn.RestartAll x calls in
   Txn.Epoch x' = Txn.Epoch x + Z.of_nat (length calls) /\
   ts_le (Txn.ReadTimestamp x) (Txn.ReadTimestamp x') /\
   ts_le (Txn.WriteTimestamp x) (Txn.WriteTimestamp x')).
Proof.
  intros Hi Hrw. split.
  - intros He.
    destruct (Restart_fields x mp up ts) as (E & W & R & _ & S & F & L & I & G).
    destruct (Forward_max (Txn.WriteTimestamp x) ts) as (F1 & F2 & F3).
    cbv zeta. rewrite E, W, R.
    repeat split; auto.
    + apply wrap_i32_id. unfold is_int32 in *. lia.
    + eapply ts_le_trans; eassumption.
  - intros He.
    destruct (RestartAll_monotone calls x Hi He Hrw) as (A & B & C & _).
    auto.
Qed.

Lemma C3_Restart_witness :
  is_int32 (Txn.Epoch (sample_txn 0 1 Txn.PENDING 5 5 5)) /\
  ts_le (Txn.ReadTimestamp (sample_txn 0 1 Txn.PENDING 5 5 5))
        (Txn.WriteTimestamp (sample_txn 0 1 Txn.PENDING 5 5 5)) /\
  Txn.Epoch (sample_txn 0 1 Txn.PENDING 5 5 5) < MaxInt32 /\
  Txn.Epoch (Txn.Restart (sample_txn 0 1 Txn.PENDING 5 5 5) 2 3 (hlc.mk 9 0)) = 1.
Proof.
  assert (H1 : is_int32 (Txn.Epoch (sample_txn 0 1 Txn.PENDING 5 5 5)))
    by (unfold is_int32, MaxInt32; simpl; lia).
  assert (H2 : ts_le (Txn.ReadTimestamp (sample_txn 0 1 Txn.PENDING 5 5 5))
                     (Txn.WriteTimestamp (sample_txn 0 1 Txn.PENDING 5 5 5)))
    by reflexivity.
  assert (H3 : Txn.Epoch (sample_txn 0 1 Txn.PENDING 5 5 5) < MaxInt32)
    by (unfold MaxInt32; simpl; lia).
  split; [exact H1|]. split; [exact H2|]. split; [exact H3|].
  exact (proj1 (proj1 (C3_Restart (sample_txn 0 1 Txn.PENDING 5 5 5) 2 3 (hlc.mk 9 0) []
                         H1 H2) H3)).
Defined.

(** C3 as stated fails in two places.  A transaction whose read timestamp
    (10) is above its write timestamp (5) has its read timestamp pulled back
    to 5 by [Restart]; and at epoch [MaxInt32] the increment wraps around to
    the least int32. *)
Lemma C3_counterexample :
  hlc.Less (Txn.ReadTimestamp (Txn.Restart (sample_txn 0 1 Txn.PENDING 10 5 5) 1 1 hlc.zero))
           (Txn.ReadTimestamp (sample_txn 0 1 Txn.PENDING 10 5 5)) = true /\
  Txn.Epoch (Txn.Restart (sample_txn MaxInt32 1 Txn.PENDING 5 5 5) 1 1 hlc.zero)
    = - 2 ^ 31.
Proof. split; vm_compute; reflexivity. Qed.

(** C4.  At the minimum-priority sentinel [UpgradePriority] leaves the
    priority alone whatever the candidate; away from it the priority becomes
    the maximum of the current priority and the candidate.  The priority
    after [Restart] is that of the two [UpgradePriority] calls it makes, so
    a transaction at the sentinel stays there, and one above it ends at the
    maximum of its priority and the two candidates. *)
Theorem C4_priority_sentinel (x : Txn.t) (candidate : Z) :
  (Txn.Priority x = Txn.MinTxnPriority ->
   Txn.Priority (Txn.UpgradePriority x candidate) = Txn.Priority x) /\
  (Txn.Priority x <> Txn.MinTxnPriority ->
   Txn.Priority (Txn.UpgradePriority x candidate) = Z.max (Txn.Priority x) candidate) /\
  (forall mp up ts,
     Txn.Priority (Txn.Restart x mp up ts) =
     Txn.Priority (Txn.UpgradePriority (Txn.UpgradePriority x mp) up)) /\
  (forall mp up ts,
     Txn.Priority x = Txn.MinTxnPriority ->
     Txn.Priority (Txn.Restart x mp up ts) = Txn.MinTxnPriority) /\
  (forall mp up ts,
     Txn.MinTxnPriority < Txn.Priority x ->
     Txn.Priority (Txn.Restart x mp up ts) = Z.max (Z.max (Txn.Priority x) mp) up).
Proof.
  repeat split.
  - intros H. rewrite UpgradePriority_priority.
    destruct (Z.eqb_spec (Txn.Priority x) Txn.MinTxnPriority); [reflexivity|contradiction].
  - intros H. rewrite UpgradePriority_priority.
    destruct (Z.eqb_spec (Txn.Priority x) Txn.MinTxnPriority); [contradiction|reflexivity].
  - intros mp up ts. apply Restart_fields.
  - intros mp up ts H.
    destruct (Restart_fields x mp up ts) as (_ & _ & _ & P & _). rewrite P.
    rewrite !UpgradePriority_priority, H, Z.eqb_refl. now rewrite Z.eqb_refl.
  - intros mp up ts H.
    destruct (Restart_fields x mp up ts) as (_ & _ & _ & P & _). rewrite P.
    rewrite !UpgradePriority_priority.
    destruct (Z.eqb_spec (Txn.Priority x) Txn.MinTxnPriority); [lia|].
    destruct (Z.eqb_spec (Z.max (Txn.Priority x) mp) Txn.MinTxnPriority); [lia|].
    reflexivity.
Qed.

Lemma C4_priority_sentinel_witness :
  Txn.Priority (sample_txn 0 Txn.MinTxnPriority Txn.PENDING 5 5 5) = Txn.MinTxnPriority /\
  Txn.Priority (Txn.UpgradePriority (sample_txn 0 Txn.MinTxnPriority Txn.PENDING 5 5 5) 40)
    = Txn.MinTxnPriority.
Proof.
  assert (H : Txn.Priority (sample_txn 0 Txn.MinTxnPriority Txn.PENDING 5 5 5)
              = Txn.MinTxnPriority) by reflexivity.
  split; [exact H|].
  exact (proj1 (C4_priority_sentinel
                  (sample_txn 0 Txn.MinTxnPriority Txn.PENDING 5 5 5) 40) H).
Defined.

(* ================================================================== *)
(** ** Transactions: [Update] *)
(* ================================================================== *)

Lemma same_core_refl a : same_core a a.
Proof. unfold same_core. tauto. Qed.

Lemma same_core_trans a b c : same_core a b -> same_core b c -> same_core a c.
Proof. unfold same_core. intuition congruence. Qed.

Lemma UpdateObservedTimestamp_core (x : Txn.t) (n : Z) (ts : hlc.Timestamp) :
  same_core (Txn.UpdateObservedTimestamp x n ts) x /\
  Txn.Priority (Txn.UpdateObservedTimestamp x n ts) = Txn.Priority x.
Proof.
  unfold Txn.UpdateObservedTimestamp, same_core.
  destruct (Txn.ObservedTimestamps x) as [|o [|o' s]]; cbn;
    repeat match goal with |- context [if ?c then _ else _] => destruct c; cbn end;
    tauto.
Qed.

Lemma fold_UpdateObservedTimestamp_core (l : list Txn.ObservedTimestamp) :
  forall x,
    let x' := fold_left (fun acc v =>
                Txn.UpdateObservedTimestamp acc (Txn.NodeID v) (Txn.ObsTimestamp v)) l x in
    same_core x' x /\ Txn.Priority x' = Txn.Priority x.
Proof.
  induction l as [|v l IH]; intros x; cbn.
  - split; [apply same_core_refl|reflexivity].
  - destruct (IH (Txn.UpdateObservedTimestamp x (Txn.NodeID v) (Txn.ObsTimestamp v)))
      as [C P].
    destruct (UpdateObservedTimestamp_core x (Txn.NodeID v) (Txn.ObsTimestamp v))
      as [C' P'].
    split; [eapply same_core_trans; eassumption|congruence].
Qed.

Lemma UpgradePriority_core (x : Txn.t) (p : Z) : same_core (Txn.UpgradePriority x p) x.
Proof.
  unfold same_core. pose proof (UpgradePriority_fields x p) as H. cbv zeta in H. tauto.
Qed.

(** What [Update] leaves in a receiver that has the same, non-zero id as
    the argument. *)
Lemma Update_same_id (x o x' : Txn.t) :
  Txn.ID x <> 0 -> Txn.ID x = Txn.ID o ->
  Txn.Update x (Some o) = inr x' ->
  Txn.uninitialized o = false /\
  Txn.ID x' = Txn.ID x /\
  Txn.WriteTimestamp x' = hlc.Forward (Txn.WriteTimestamp x) (Txn.WriteTimestamp o) /\
  Txn.ReadTimestamp x' = hlc.Forward (Txn.ReadTimestamp x) (Txn.ReadTimestamp o) /\
  Txn.LastHeartbeat x' = hlc.Forward (Txn.LastHeartbeat x) (Txn.LastHeartbeat o) /\
  Txn.GlobalUncertaintyLimit x' =
    hlc.Forward (Txn.GlobalUncertaintyLimit x) (Txn.GlobalUncertaintyLimit o) /\
  Txn.MinTimestamp x' = merged_min x o /\
  Txn.Status x' = merged_status x o /\
  Txn.Epoch x' = Z.max (Txn.Epoch x) (Txn.Epoch o).
Proof.
  intros Hid Hsame. unfold Txn.Update.
  destruct (Txn.uninitialized o); [discriminate|].
  destruct (Z.eqb_spec (Txn.ID x) 0); [contradiction|].
  destruct (Z.eqb_spec (Txn.ID x) (Txn.ID o)); [|contradiction].
  cbn [negb].
  match goal with
  | |- match ?sc with inl _ => _ | inr _ => _ end = _ -> _ =>
      set (scoped := sc)
  end.
  assert (Hst : forall st ep fx sq lk fl ig,
             scoped = inr (st, ep, fx, sq, lk, fl, ig) ->
             st = merged_status x o /\ ep = Z.max (Txn.Epoch x) (Txn.Epoch o)).
  { subst scoped. unfold merged_status. intros st ep fx sq lk fl ig.
    destruct (Z.ltb_spec (Txn.Epoch x) (Txn.Epoch o)) as [L|L].
    - intros Q. injection Q as <- <- _ _ _ _ _. split; [reflexivity|lia].
    - destruct (Z.eqb_spec (Txn.Epoch x) (Txn.Epoch o)) as [L'|L'].
      + destruct (Txn.Status x); intros Q; try discriminate Q;
          injection Q as <- <- _ _ _ _ _; (split; [reflexivity|lia]).
      + intros Q. injection Q as <- <- _ _ _ _ _. split; [reflexivity|lia]. }
  destruct scoped as [f|[[[[[[st ep] fx] sq] lk] fl] ig]]; [discriminate|].
  destruct (Hst _ _ _ _ _ _ _ eq_refl) as [-> ->].
  intros H. injection H as <-.
  cbn [Txn.ID Txn.WriteTimestamp Txn.ReadTimestamp Txn.LastHeartbeat
       Txn.GlobalUncertaintyLimit Txn.MinTimestamp Txn.Status Txn.Epoch].
  match goal with
  | |- context [Txn.UpgradePriority ?y ?p] =>
      pose proof (UpgradePriority_core y p) as C1;
      match y with
      | fold_left ?f ?l ?z =>
          destruct (fold_UpdateObservedTimestamp_core l z) as [C2 _]
      end
  end.
  pose proof (same_core_trans _ _ _ C1 C2) as C.
  unfold same_core in C. cbn in C.
  destruct C as (c1 & c2 & c3 & c4 & c5 & c6 & c7 & c8).
  rewrite c1, c2, c3, c4, c5, c6, c7, c8.
  repeat split; reflexivity.
Qed.

(** [Update] returns normally on an initialized argument with the
    receiver's id, unless the epochs are equal and the receiver's status is
    none of the five declared ones. *)
Lemma Update_returns (x o : Txn.t) :
  Txn.uninitialized o = false -> Txn.ID x = Txn.ID o ->
  (Txn.Epoch x <> Txn.Epoch o \/
   forall n, Txn.Status x <> Txn.UndeclaredStatus n) ->
  exists x', Txn.Update x (Some o) = inr x'.
Proof.
  intros Hu Hid Hst. unfold Txn.Update. rewrite Hu.
  destruct (Z.eqb_spec (Txn.ID x) 0); [eauto|].
  destruct (Z.eqb_spec (Txn.ID x) (Txn.ID o)); [|contradiction].
  cbn [negb].
  destruct (Z.ltb_spec (Txn.Epoch x) (Txn.Epoch o)); [eauto|].
  destruct (Z.eqb_spec (Txn.Epoch x) (Txn.Epoch o)); [|eauto].
  destruct Hst as [Hst|Hst]; [contradiction|].
  destruct (Txn.Status x) eqn:E; eauto.
  exfalso. eapply Hst. reflexivity.
Qed.

(** C5, as the code has it.  After [t.Update(o)] on transactions with the
    same non-empty id, the read timestamp, the write timestamp, the global
    uncertainty limit and the last heartbeat of [t] are the maxima of the
    two transactions' values, so none of them regresses.  The minimum
    timestamp goes the other way: it becomes [o]'s when [t]'s is empty, and
    otherwise the earlier of the two (ignoring an empty one), so once set it
    never advances. *)
Theorem C5_Update_timestamps (x o x' : Txn.t) :
  Txn.ID x <> 0 -> Txn.ID x = Txn.ID o ->
  Txn.Update x (Some o) = inr x' ->
  ts_le (Txn.ReadTimestamp x) (Txn.ReadTimestamp x') /\
  ts_le (Txn.WriteTimestamp x) (Txn.WriteTimestamp x') /\
  ts_le (Txn.GlobalUncertaintyLimit x) (Txn.GlobalUncertaintyLimit x') /\
  ts_le (Txn.LastHeartbeat x) (Txn.LastHeartbeat x') /\
  Txn.MinTimestamp x' = merged_min x o /\
  (hlc.IsEmpty (Txn.MinTimestamp x) = false ->
   ts_le (Txn.MinTimestamp x') (Txn.MinTimestamp x)).
Proof.
  intros Hid Hsame Hu.
  destruct (Update_same_id x o x' Hid Hsame Hu) as (_ & _ & W & R & L & G & M & _).
  rewrite W, R, L, G, M.
  repeat split; try apply Forward_max.
  intros He. unfold merged_min. rewrite He.
  destruct (hlc.IsEmpty (Txn.MinTimestamp o)); cbn [negb].
  - apply ts_le_refl.
  - apply Backward_min.
Qed.

Lemma C5_Update_timestamps_witness :
  Txn.ID (sample_txn 1 1 Txn.PENDING 5 5 5) <> 0 /\
  Txn.ID (sample_txn 1 1 Txn.PENDING 5 5 5) = Txn.ID (sample_txn 1 1 Txn.PENDING 9 9 5) /\
  (exists x', Txn.Update (sample_txn 1 1 Txn.PENDING 5 5 5)
                         (Some (sample_txn 1 1 Txn.PENDING 9 9 5)) = inr x' /\
              ts_le (Txn.ReadTimestamp (sample_txn 1 1 Txn.PENDING 5 5 5))
                    (Txn.ReadTimestamp x')).
Proof.
  assert (H1 : Txn.ID (sample_txn 1 1 Txn.PENDING 5 5 5) <> 0) by discriminate.
  assert (H2 : Txn.ID (sample_txn 1 1 Txn.PENDING 5 5 5)
               = Txn.ID (sample_txn 1 1 Txn.PENDING 9 9 5)) by reflexivity.
  split; [exact H1|]. split; [exact H2|].
  eexists. split; [reflexivity|].
  exact (proj1 (C5_Update_timestamps _ _ _ H1 H2 eq_refl)).
Defined.

(** C5 as stated fails for the minimum timestamp: merging a transaction
    whose minimum timestamp is 5 into one whose minimum timestamp is 10
    lowers the latter to 5. *)
Lemma C5_counterexample :
  exists x',
    Txn.Update (sample_txn 1 1 Txn.PENDING 20 20 10)
               (Some (sample_txn 1 1 Txn.PENDING 20 20 5)) = inr x' /\
    Txn.MinTimestamp (sample_txn 1 1 Txn.PENDING 20 20 10) = hlc.mk 10 0 /\
    Txn.MinTimestamp x' = hlc.mk 5 0 /\
    hlc.Less (Txn.MinTimestamp x') (Txn.MinTimestamp (sample_txn 1 1 Txn.PENDING 20 20 10))
      = true.
Proof. eexists. repeat split; reflexivity. Qed.

(** C6.  For transactions with the same non-empty id: (a) when the
    receiver's epoch is strictly higher and the argument is ABORTED, the
    receiver is ABORTED after [Update]; (b) when the receiver is ABORTED and
    the epochs are equal, [Update] leaves it ABORTED, never COMMITTED, also
    when the argument is COMMITTED.  In both cases [Update] does return,
    provided the argument is initialized. *)
Theorem C6_Update_abort (x o : Txn.t) :
  Txn.ID x <> 0 -> Txn.ID x = Txn.ID o ->
  (Txn.Epoch o < Txn.Epoch x -> Txn.Status o = Txn.ABORTED ->
   (forall x', Txn.Update x (Some o) = inr x' -> Txn.Status x' = Txn.ABORTED) /\
   (Txn.uninitialized o = false -> exists x', Txn.Update x (Some o) = inr x')) /\
  (Txn.Status x = Txn.ABORTED -> Txn.Epoch x = Txn.Epoch o ->
   (forall x', Txn.Update x (Some o) = inr x' ->
               Txn.Status x' = Txn.ABORTED /\ Txn.Status x' <> Txn.COMMITTED) /\
   (Txn.uninitialized o = false -> exists x', Txn.Update x (Some o) = inr x')).
Proof.
  intros Hid Hsame. split.
  - intros He Hs. split.
    + intros x' Hu.
      destruct (Update_same_id x o x' Hid Hsame Hu) as (_ & _ & _ & _ & _ & _ & _ & S & _).
      rewrite S. unfold merged_status.
      destruct (Z.ltb_spec (Txn.Epoch x) (Txn.Epoch o)); [lia|].
      destruct (Z.eqb_spec (Txn.Epoch x) (Txn.Epoch o)); [lia|].
      now rewrite Hs.
    + intros Hu. apply Update_returns; auto. left. lia.
  - intros Hs He. split.
    + intros x' Hu.
      destruct (Update_same_id x o x' Hid Hsame Hu) as (_ & _ & _ & _ & _ & _ & _ & S & _).
      assert (A : Txn.Status x' = Txn.ABORTED).
      { rewrite S. unfold merged_status.
        destruct (Z.ltb_spec (Txn.Epoch x) (Txn.Epoch o)); [lia|].
        destruct (Z.eqb_spec (Txn.Epoch x) (Txn.Epoch o)); [|lia].
        now rewrite Hs. }
      split; [exact A|]. rewrite A. discriminate.
    + intros Hu. apply Update_returns; auto. right. intros n. rewrite Hs. discriminate.
Qed.

Lemma C6_Update_abort_witness :
  Txn.ID (sample_txn 1 1 Txn.ABORTED 5 5 5) <> 0 /\
  Txn.ID (sample_txn 1 1 Txn.ABORTED 5 5 5) = Txn.ID (sample_txn 1 1 Txn.COMMITTED 9 9 5) /\
  Txn.Status (sample_txn 1 1 Txn.ABORTED 5 5 5) = Txn.ABORTED /\
  Txn.Epoch (sample_txn 1 1 Txn.ABORTED 5 5 5) = Txn.Epoch (sample_txn 1 1 Txn.COMMITTED 9 9 5) /\
  (exists x', Txn.Update (sample_txn 1 1 Txn.ABORTED 5 5 5)
                         (Some (sample_txn 1 1 Txn.COMMITTED 9 9 5)) = inr x' /\
              Txn.Status x' = Txn.ABORTED).
Proof.
  assert (H1 : Txn.ID (sample_txn 1 1 Txn.ABORTED 5 5 5) <> 0) by discriminate.
  assert (H2 : Txn.ID (sample_txn 1 1 Txn.ABORTED 5 5 5)
               = Txn.ID (sample_txn 1 1 Txn.COMMITTED 9 9 5)) by reflexivity.
  split; [exact H1|]. split; [exact H2|].
  split; [reflexivity|]. split; [reflexivity|].
  eexists. split; [reflexivity|].
  exact (proj1 (proj1 (proj2 (C6_Update_abort _ _ H1 H2) eq_refl eq_refl) _ eq_refl)).
Defined.

(* ================================================================== *)
(** ** Leases: equivalence *)
(* ================================================================== *)

Lemma ts_Equal_refl a : hlc.Equal a a = true.
Proof. now apply ts_Equal_spec. Qed.

Lemma struct_eqb_epoch_term (a b : Lease.t) :
  Lease.struct_eqb a b = true -> Lease.Epoch a = Lease.Epoch b /\ Lease.Term a = Lease.Term b.
Proof.
  unfold Lease.struct_eqb. rewrite !andb_true_iff. lia.
Qed.

Lemma Type'_strip (l : Lease.t) : Lease.Type' (Lease.strip l) = Lease.Type' l.
Proof. reflexivity. Qed.

Lemma Type'_inv (l : Lease.t) (ty : Lease.LeaseType) :
  Lease.Type' l = inr ty ->
  (ty = Lease.LeaseEpoch /\ Lease.Epoch l <> 0 /\ Lease.Term l = 0) \/
  (ty = Lease.LeaseLeader /\ Lease.Epoch l = 0 /\ Lease.Term l <> 0) \/
  (ty = Lease.LeaseExpiration /\ Lease.Epoch l = 0 /\ Lease.Term l = 0).
Proof.
  unfold Lease.Type'.
  destruct (Z.eqb_spec (Lease.Epoch l) 0), (Z.eqb_spec (Lease.Term l) 0); cbn;
    intros H; try discriminate H; injection H as <-; tauto.
Qed.

(** A demotion is never equivalent. *)
Lemma Equivalent_demotion (l newL : Lease.t) (flag : bool) :
  Lease.Type' l = inr Lease.LeaseEpoch \/ Lease.Type' l = inr Lease.LeaseLeader ->
  Lease.Type' newL = inr Lease.LeaseExpiration ->
  Lease.Equivalent l newL flag = inr false.
Proof.
  intros Hl Hn.
  apply Type'_inv in Hn. destruct Hn as [(C & _)|[(C & _)|(_ & En & Tn)]];
    try discriminate C.
  unfold Lease.Equivalent. rewrite Type'_strip.
  destruct Hl as [Hl|Hl]; rewrite Hl;
    apply Type'_inv in Hl;
    destruct Hl as [(C & El & Tl)|[(C & El & Tl)|(C & _)]]; try discriminate C.
  - cbn [Lease.set_Expiration Lease.Epoch Lease.strip].
    destruct (Z.eqb_spec (Lease.Epoch l) (Lease.Epoch newL)); [congruence|].
    match goal with
    | |- context [if ?c then _ else _] => destruct c
    end; f_equal; apply not_true_is_false; intros Q;
      apply struct_eqb_epoch_term in Q; cbn in Q; lia.
  - cbn [Lease.Term Lease.strip].
    destruct (Z.eqb_spec (Lease.Term l) (Lease.Term newL)); [congruence|].
    match goal with
    | |- context [if ?c then _ else _] => destruct c
    end; f_equal; apply not_true_is_false; intros Q;
      apply struct_eqb_epoch_term in Q; cbn in Q; lia.
Qed.

(** C7.  An expiration-based lease [E] and an epoch-based lease [Q] on the
    same replica with the same start: [Equivalent(E, Q, true)] is true and
    [Equivalent(Q, E, true)] is false.  The code does not look at how [E]'s
    expiration compares with [Q]'s validity, so the statement holds without
    that premise.  More generally, [Equivalent] is false whenever the old
    lease is of type Epoch or Leader and the new one of type Expiration. *)
Theorem C7_Equivalent_asymmetry (E Q : Lease.t) :
  expiration_based E -> epoch_based Q ->
  Lease.Start E = Lease.Start Q -> same_replica E Q ->
  Lease.Equivalent E Q true = inr true /\
  Lease.Equivalent Q E true = inr false /\
  (forall (l newL : Lease.t) (flag : bool),
     Lease.Type' l = inr Lease.LeaseEpoch \/ Lease.Type' l = inr Lease.LeaseLeader ->
     Lease.Type' newL = inr Lease.LeaseExpiration ->
     Lease.Equivalent l newL flag = inr false).
Proof.
  intros (Ee & Et & Em) (Qe & Qt & Qx) Hs (R1 & R2 & R3).
  assert (TE : Lease.Type' E = inr Lease.LeaseExpiration).
  { unfold Lease.Type'. rewrite Ee, Et. reflexivity. }
  assert (TQ : Lease.Type' Q = inr Lease.LeaseEpoch).
  { unfold Lease.Type'. rewrite Qt. destruct (Z.eqb_spec (Lease.Epoch Q) 0); [contradiction|].
    reflexivity. }
  split; [|split].
  - unfold Lease.Equivalent. rewrite !Type'_strip, TE, TQ.
    destruct E as [sE xE [nE stE rE tyE] dE pE eE qE aE mE tE].
    destruct Q as [sQ xQ [nQ stQ rQ tyQ] dQ pQ eQ qQ aQ mQ tQ].
    cbn in *. subst.
    unfold Lease.struct_eqb, Lease.replica_eqb. cbn.
    rewrite !ts_Equal_refl, !Z.eqb_refl. reflexivity.
  - apply Equivalent_demotion; auto.
  - apply Equivalent_demotion.
Qed.

Lemma C7_Equivalent_asymmetry_witness :
  expiration_based (sample_expiration_lease 20) /\
  epoch_based (sample_epoch_lease 3) /\
  Lease.Start (sample_expiration_lease 20) = Lease.Start (sample_epoch_lease 3) /\
  same_replica (sample_expiration_lease 20) (sample_epoch_lease 3) /\
  Lease.Equivalent (sample_expiration_lease 20) (sample_epoch_lease 3) true = inr true /\
  Lease.Equivalent (sample_epoch_lease 3) (sample_expiration_lease 20) true = inr false.
Proof.
  assert (H1 : expiration_based (sample_expiration_lease 20))
    by (repeat split; reflexivity).
  assert (H2 : epoch_based (sample_epoch_lease 3))
    by (repeat split; [discriminate|reflexivity..]).
  assert (H3 : Lease.Start (sample_expiration_lease 20) = Lease.Start (sample_epoch_lease 3))
    by reflexivity.
  assert (H4 : same_replica (sample_expiration_lease 20) (sample_epoch_lease 3))
    by (repeat split; reflexivity).
  split; [exact H1|]. split; [exact H2|]. split; [exact H3|]. split; [exact H4|].
  pose proof (C7_Equivalent_asymmetry _ _ H1 H2 H3 H4) as H.
  split; [exact (proj1 H)|exact (proj1 (proj2 H))].
Defined.

(* ================================================================== *)
(** ** The batcher: duplicates *)
(* ================================================================== *)

(** C1.  The incoming key is the most recently buffered one ([batchEndKey],
    non-empty once a key is buffered).  (a) In skip-duplicates mode (and not
    ingest-all, the two being exclusive by the comment on [ingestAll]) an
    add with the buffered value returns no error and leaves the batcher as
    it was, one with another value returns a duplicate-key error.  (b) In
    ingest-all mode an add with the buffered timestamp and value is
    absorbed, one with the buffered timestamp and another value returns a
    duplicate-key error.  (c) With neither mode every repeat of the key
    returns a duplicate-key error.  No error path changes the batcher. *)
Theorem C1_AddMVCCKey_duplicates (E : Batcher.Env) (b : Batcher.State E)
    (k : Batcher.MVCCKey) (value : list byte) :
  Batcher.batchEndKey b <> [] ->
  Batcher.Key k = Batcher.batchEndKey b ->
  (Batcher.skipDuplicates b = true -> Batcher.ingestAll b = false ->
   (value = Batcher.batchEndValue b -> Batcher.AddMVCCKey E b k value = (b, None)) /\
   (value <> Batcher.batchEndValue b ->
    Batcher.AddMVCCKey E b k value =
      (b, Some (Batcher.DuplicateKeyError (Batcher.Key k) value)))) /\
  (Batcher.ingestAll b = true -> Batcher.Timestamp k = Batcher.batchEndTimestamp b ->
   (value = Batcher.batchEndValue b -> Batcher.AddMVCCKey E b k value = (b, None)) /\
   (value <> Batcher.batchEndValue b ->
    Batcher.AddMVCCKey E b k value =
      (b, Some (Batcher.DuplicateKeyError (Batcher.Key k) value)))) /\
  (Batcher.skipDuplicates b = false -> Batcher.ingestAll b = false ->
   Batcher.AddMVCCKey E b k value =
     (b, Some (Batcher.DuplicateKeyError (Batcher.Key k) value))).
Proof.
  intros Hne Hk. unfold Batcher.AddMVCCKey.
  rewrite (is_empty_false _ Hne), Hk, Equal_refl. cbn [negb andb].
  split; [|split].
  - intros Hs Hi. rewrite Hs, Hi. cbn [andb negb]. split.
    + intros ->. now rewrite Equal_refl.
    + intros Hv. apply not_eq_sym, Equal_false_iff in Hv. now rewrite Hv.
  - intros Hi Ht. rewrite Hi, Ht, ts_Equal_refl. cbn [andb]. split.
    + intros ->. now rewrite Equal_refl.
    + intros Hv. apply not_eq_sym, Equal_false_iff in Hv. now rewrite Hv.
  - intros Hs Hi. rewrite Hs, Hi. reflexivity.
Qed.

Lemma C1_AddMVCCKey_duplicates_witness :
  Batcher.batchEndKey after_a_x <> [] /\
  Batcher.Key (key_at x61) = Batcher.batchEndKey after_a_x /\
  Batcher.skipDuplicates after_a_x = true /\
  Batcher.ingestAll after_a_x = false /\
  Batcher.AddMVCCKey (example_env 1000) after_a_x (key_at x61) [x78] = (after_a_x, None) /\
  Batcher.AddMVCCKey (example_env 1000) after_a_x (key_at x61) [x79] =
    (after_a_x, Some (Batcher.DuplicateKeyError [x61] [x79])).
Proof.
  assert (H1 : Batcher.batchEndKey after_a_x <> []) by discriminate.
  assert (H2 : Batcher.Key (key_at x61) = Batcher.batchEndKey after_a_x) by reflexivity.
  assert (H3 : Batcher.skipDuplicates after_a_x = true) by reflexivity.
  assert (H4 : Batcher.ingestAll after_a_x = false) by reflexivity.
  split; [exact H1|]. split; [exact H2|]. split; [exact H3|]. split; [exact H4|].
  split.
  - exact (proj1 (proj1 (C1_AddMVCCKey_duplicates _ after_a_x (key_at x61) [x78] H1 H2)
                    H3 H4) eq_refl).
  - refine (proj2 (proj1 (C1_AddMVCCKey_duplicates _ after_a_x (key_at x61) [x79] H1 H2)
                     H3 H4) _).
    discriminate.
Defined.

(* ================================================================== *)
(** ** The batcher: flushing at a range boundary *)
(* ================================================================== *)

Lemma sent_spans_app {E : Batcher.Env} (a b : list (Batcher.event E)) :
  sent_spans (a ++ b) = sent_spans a ++ sent_spans b.
Proof.
  induction a as [|e a IH]; [reflexivity|].
  destruct e; cbn; rewrite IH; reflexivity.
Qed.

Lemma splitFullRange_keeps {E : Batcher.Env} (b : Batcher.State E) (s e : Key) :
  same_batch (Batcher.splitFullRange E b s e) b /\
  sent_spans (Batcher.trace (Batcher.splitFullRange E b s e)) = sent_spans (Batcher.trace b).
Proof.
  unfold Batcher.splitFullRange, same_batch, batch_view.
  repeat match goal with
    | |- context [if ?c then _ else _] => destruct c
    | |- context [match ?c with Some _ => _ | None => _ end] => destruct c
    end;
    cbn; rewrite ?sent_spans_app; cbn; rewrite ?app_nil_r; split; reflexivity.
Qed.

Lemma absorbResult_keeps {E : Batcher.Env} (rs : list Batcher.addResult) :
  forall b : Batcher.State E,
    same_batch (fold_left (Batcher.absorbResult E) rs b) b /\
    Batcher.trace (fold_left (Batcher.absorbResult E) rs b) = Batcher.trace b /\
    Batcher.totalBulkOpSummary (fold_left (Batcher.absorbResult E) rs b)
      = Batcher.totalBulkOpSummary b.
Proof.
  induction rs as [|r rs IH]; intros b; cbn [fold_left].
  - unfold same_batch. repeat split; reflexivity.
  - destruct (IH (Batcher.absorbResult E b r)) as (S & T & U).
    unfold same_batch in *. rewrite S, T, U.
    unfold Batcher.absorbResult, batch_view.
    destruct (Batcher.writeAtBatchTS b) eqn:W, (Span.Valid (Batcher.rangeSpan r));
      cbn; rewrite ?W; repeat split; reflexivity.
Qed.

(** An empty file is not flushed. *)
Lemma doFlush_empty {E : Batcher.Env} (b : Batcher.State E) (why : Batcher.reason) :
  Batcher.DataSize E (Batcher.sstWriter b) = 0 -> Batcher.doFlush E b why = (b, None).
Proof. intros H. unfold Batcher.doFlush. now rewrite H. Qed.

Lemma prepare_keeps {E : Batcher.Env} (b : Batcher.State E) (why : Batcher.reason)
    (s e : Key) (size : Z) :
  same_batch (Batcher.prepare E b why s e size) b /\
  sent_spans (Batcher.trace (Batcher.prepare E b why s e size))
    = sent_spans (Batcher.trace b).
Proof.
  unfold Batcher.prepare.
  set (b1 := Batcher.set_currentStats E b _).
  assert (K1 : same_batch b1 b /\ sent_spans (Batcher.trace b1) = sent_spans (Batcher.trace b)).
  { subst b1. unfold same_batch. cbn. split; reflexivity. }
  set (b2 := if _ && _ then _ else b1).
  assert (K2 : same_batch b2 b1 /\ sent_spans (Batcher.trace b2) = sent_spans (Batcher.trace b1)).
  { subst b2. destruct (_ && _).
    - apply splitFullRange_keeps.
    - unfold same_batch. split; reflexivity. }
  clearbody b2 b1.
  destruct K1 as [S1 T1]. destruct K2 as [S2 T2].
  unfold same_batch in *. rewrite <- S1, <- S2, <- T1, <- T2.
  destruct (negb _); split; reflexivity.
Qed.

(** Sending, when nothing fails, adds one file to the trace. *)
Lemma send_sends {E : Batcher.Env} (b : Batcher.State E) (why : Batcher.reason)
    (s e : Key) (size : Z) :
  flush_succeeds E ->
  exists b1,
    Batcher.send E b why s e size = (b1, None) /\
    same_batch b1 b /\
    sent_spans (Batcher.trace b1) = sent_spans (Batcher.trace b) ++ [(why, s, e)].
Proof.
  intros (Hd & Hf & Hl & Ha). unfold Batcher.send. rewrite Hl.
  destruct (Ha (Batcher.batchTS b) s e (Batcher.Data E (Batcher.sstWriter b)) (Batcher.ms b))
    as [r Hr].
  rewrite Hr. eexists. split; [reflexivity|].
  match goal with
  | |- context [fold_left (Batcher.absorbResult E) ?rs ?b0] =>
      destruct (absorbResult_keeps rs b0) as (S & T & U);
      set (b3 := fold_left (Batcher.absorbResult E) rs b0) in *
  end.
  clearbody b3. unfold same_batch in *.
  cbn in S, T. 
  destruct (Batcher.onFlush b3); unfold batch_view in *; cbn;
    rewrite ?T, ?sent_spans_app; cbn; rewrite ?app_nil_r, ?sent_spans_app; cbn;
    (split; [exact S|reflexivity]).
Qed.

(** A non-empty file whose flush meets no failure is sent once, with the
    covering span [[batchStartKey, batchEndKey.Next())]; the buffered keys
    and the configuration are as before. *)
Lemma doFlush_sends {E : Batcher.Env} (b : Batcher.State E) (why : Batcher.reason) :
  flush_succeeds E ->
  Batcher.DataSize E (Batcher.sstWriter b) <> 0 ->
  exists b1,
    Batcher.doFlush E b why = (b1, None) /\
    sent_spans (Batcher.trace b1) =
      sent_spans (Batcher.trace b) ++
      [(why, Batcher.batchStartKey b, KeyOrd.Next (Batcher.batchEndKey b))].
Proof.
  intros Hok Hsize. pose proof Hok as (Hd & Hf & Hl & Ha). unfold Batcher.doFlush.
  destruct (Z.eqb_spec (Batcher.DataSize E (Batcher.sstWriter b)) 0); [contradiction|].
  rewrite Hd.
  cbn [Batcher.set_currentStats Batcher.sstWriter].
  pose proof (Hf (Batcher.sstWriter b)) as Hfw.
  destruct (Batcher.Finish E (Batcher.sstWriter b)) as [w ferr]. cbn in Hfw. subst ferr.
  cbn [Batcher.set_sstWriter Batcher.batchStartKey Batcher.batchEndKey Batcher.sstWriter].
  match goal with
  | |- context [Batcher.send E (Batcher.prepare E ?b0 ?y ?s ?e ?z) _ _ _ _] =>
      destruct (send_sends (Batcher.prepare E b0 y s e z) y s e z Hok) as (b1 & Hs & _ & Ht);
      destruct (prepare_keeps b0 y s e z) as [_ Tp]
  end.
  exists b1. split; [exact Hs|].
  rewrite Ht, Tp. reflexivity.
Qed.

(** What [store] leaves in the batcher, whether or not the row counter or
    the writer fails. *)
Lemma store_fields {E : Batcher.Env} (b : Batcher.State E) (k : Batcher.MVCCKey)
    (value : list byte) :
  let b' := fst (Batcher.store E b k value) in
  Batcher.batchStartKey b' =
    (if GoBytes.is_empty (Batcher.batchStartKey b) then Batcher.Key k
     else Batcher.batchStartKey b) /\
  Batcher.batchEndKey b' = Batcher.Key k /\
  Batcher.batchEndValue b' = value /\
  Batcher.flushKeyChecked b' = Batcher.flushKeyChecked b /\
  Batcher.flushKey b' = Batcher.flushKey b /\
  Batcher.trace b' = Batcher.trace b.
Proof.
  unfold Batcher.store.
  destruct (Batcher.Count E _ _) as [c [code|]];
    destruct (Batcher.writeAtBatchTS b); cbn;
    repeat match goal with
      | |- context [if ?c then _ else _] => destruct c; cbn
      | |- context [let '(_, _) := ?p in _] => destruct p; cbn
      end; repeat split; reflexivity.
Qed.

Lemma lt_not_Equal (a b : Key) : KeyOrd.lt a b -> GoBytes.Equal a b = false.
Proof. unfold KeyOrd.lt, GoBytes.Equal. now intros ->. Qed.

Lemma le_lt_trans_key (a b c : Key) : KeyOrd.lt a b -> KeyOrd.le b c -> KeyOrd.lt a c.
Proof. intros H1 H2. change (KeyTO.lt a c). KeyTac.order. Qed.

(** While the remembered boundary is ahead of the next key and the file is
    below the size threshold, the flush check does nothing. *)
Lemma flushIfNeeded_below {E : Batcher.Env} (b : Batcher.State E) (nextKey B : Key) :
  Batcher.flushKeyChecked b = true -> Batcher.flushKey b = Some B ->
  KeyOrd.lt nextKey B ->
  Batcher.DataSize E (Batcher.sstWriter b) < Batcher.ingestFileSize E ->
  Batcher.flushIfNeeded E b nextKey = (b, None).
Proof.
  intros Hc Hf Hlt Hsz. unfold Batcher.flushIfNeeded.
  rewrite Hc. cbn [negb].
  assert (Hb : (match Batcher.rc b with Some _ => b | None => b end) = b)
    by (destruct (Batcher.rc b); reflexivity).
  rewrite Hb, Hf.
  apply Key_gt_lt in Hlt. unfold KeyOrd.Compare. rewrite Hlt. cbn.
  destruct (Z.leb_spec (Batcher.ingestFileSize E) (Batcher.DataSize E (Batcher.sstWriter b)));
    [lia|reflexivity].
Qed.

(** The range-boundary flush of a batch whose first key was looked up.
    (1) On a first key with the boundary not yet looked up, with a range
    cache that places the key in a range ending at [B] above it, the add
    remembers [B] and buffers the key.  (2) While [B] is remembered, an add
    of a key below [B] into a file under the size threshold keeps [B]
    remembered and the buffered keys below [B].  (3) While [B] is remembered
    and the buffered keys lie below it, an add of a key at or above [B]
    first runs [doFlush] with reason range-boundary and, when no
    collaborator fails, resets the batcher and only then stores the key: a
    non-empty file is sent exactly once with the covering span
    [[batchStartKey, batchEndKey.Next())], and the new batch starts at the
    incoming key. *)
Lemma range_flush_steps (E : Batcher.Env) (B : Key) :
  (forall (b : Batcher.State E) (k : Batcher.MVCCKey) (value : list byte)
          (cache : Key -> option (option Key)) (rk : Key),
     Batcher.rc b = Some cache -> Batcher.flushKeyChecked b = false ->
     Batcher.batchEndKey b = [] ->
     Batcher.Addr E (Batcher.Key k) = Some rk -> cache rk = Some (Some B) ->
     KeyOrd.lt (Batcher.Key k) B ->
     Batcher.DataSize E (Batcher.sstWriter b) < Batcher.ingestFileSize E ->
     let b' := fst (Batcher.AddMVCCKey E b k value) in
     Batcher.flushKeyChecked b' = true /\ Batcher.flushKey b' = Some B /\
     Batcher.batchEndKey b' = Batcher.Key k /\
     (Batcher.batchStartKey b = [] -> Batcher.batchStartKey b' = Batcher.Key k)) /\
  (forall (b : Batcher.State E) (k : Batcher.MVCCKey) (value : list byte),
     Batcher.flushKeyChecked b = true -> Batcher.flushKey b = Some B ->
     KeyOrd.lt (Batcher.batchEndKey b) B ->
     KeyOrd.lt (Batcher.Key k) B ->
     Batcher.DataSize E (Batcher.sstWriter b) < Batcher.ingestFileSize E ->
     let b' := fst (Batcher.AddMVCCKey E b k value) in
     Batcher.flushKeyChecked b' = true /\ Batcher.flushKey b' = Some B /\
     KeyOrd.lt (Batcher.batchEndKey b') B /\
     sent_spans (Batcher.trace b') = sent_spans (Batcher.trace b)) /\
  (forall (b : Batcher.State E) (k : Batcher.MVCCKey) (value : list byte),
     flush_succeeds E ->
     Batcher.flushKeyChecked b = true -> Batcher.flushKey b = Some B ->
     KeyOrd.lt (Batcher.batchEndKey b) B ->
     KeyOrd.le B (Batcher.Key k) ->
     exists b1,
       Batcher.doFlush E b Batcher.rangeFlush = (b1, None) /\
       Batcher.AddMVCCKey E b k value = Batcher.store E (Batcher.Reset E b1) k value /\
       (Batcher.DataSize E (Batcher.sstWriter b) <> 0 ->
        sent_spans (Batcher.trace b1) =
          sent_spans (Batcher.trace b) ++
          [(Batcher.rangeFlush, Batcher.batchStartKey b,
            KeyOrd.Next (Batcher.batchEndKey b))]) /\
       (Batcher.DataSize E (Batcher.sstWriter b) = 0 -> b1 = b) /\
       Batcher.batchStartKey (fst (Batcher.AddMVCCKey E b k value)) = Batcher.Key k /\
       sent_spans (Batcher.trace (fst (Batcher.AddMVCCKey E b k value)))
         = sent_spans (Batcher.trace b1)).
Proof.
  split; [|split].
  - intros b k value cache rk Hrc Hc He Ha Hl Hlt Hsz.
    cbv zeta. unfold Batcher.AddMVCCKey. rewrite He. cbn [GoBytes.is_empty negb andb].
    unfold Batcher.accept.
    assert (Hf : Batcher.flushIfNeeded E b (Batcher.Key k)
                 = (Batcher.set_flushKey E b true (Some B), None)).
    { unfold Batcher.flushIfNeeded. rewrite Hrc, Hc. cbn [negb]. rewrite Ha, Hl.
      cbn [Batcher.set_flushKey Batcher.flushKey Batcher.sstWriter].
      apply Key_gt_lt in Hlt. unfold KeyOrd.Compare. rewrite Hlt. cbn [GoBytes.le0].
      destruct (Z.leb_spec (Batcher.ingestFileSize E)
                  (Batcher.DataSize E (Batcher.sstWriter b))); [lia|reflexivity]. }
    rewrite Hf.
    destruct (store_fields (Batcher.set_flushKey E b true (Some B)) k value)
      as (S1 & S2 & _ & S4 & S5 & _).
    rewrite S1, S2, S4, S5. cbn. repeat split; try reflexivity.
    intros ->. reflexivity.
  - intros b k value Hc Hf Hend Hlt Hsz. cbv zeta.
    assert (Hacc : let b' := fst (Batcher.accept E b k value) in
              Batcher.flushKeyChecked b' = true /\ Batcher.flushKey b' = Some B /\
              KeyOrd.lt (Batcher.batchEndKey b') B /\
              sent_spans (Batcher.trace b') = sent_spans (Batcher.trace b)).
    { cbv zeta. unfold Batcher.accept.
      rewrite (flushIfNeeded_below b (Batcher.Key k) B Hc Hf Hlt Hsz).
      destruct (store_fields b k value) as (_ & S2 & _ & S4 & S5 & S6).
      rewrite S2, S4, S5, S6. auto. }
    unfold Batcher.AddMVCCKey.
    repeat match goal with
      | |- context [if ?c then _ else _] => destruct c
      end; cbn [fst]; auto.
  - intros b k value Hok Hc Hf Hend Hle.
    assert (Hne : GoBytes.Equal (Batcher.batchEndKey b) (Batcher.Key k) = false).
    { apply lt_not_Equal. eapply le_lt_trans_key; eassumption. }
    assert (Hadd : Batcher.AddMVCCKey E b k value = Batcher.accept E b k value).
    { unfold Batcher.AddMVCCKey. rewrite Hne, andb_false_r. reflexivity. }
    assert (Hflush : Batcher.flushIfNeeded E b (Batcher.Key k) =
              match Batcher.doFlush E b Batcher.rangeFlush with
              | (b1, Some err) => (b1, Some err)
              | (b1, None) => (Batcher.Reset E b1, None)
              end).
    { unfold Batcher.flushIfNeeded. rewrite Hc. cbn [negb].
      assert (Hb : (match Batcher.rc b with Some _ => b | None => b end) = b)
        by (destruct (Batcher.rc b); reflexivity).
      rewrite Hb, Hf.
      unfold KeyOrd.le in Hle. unfold KeyOrd.Compare.
      destruct (GoBytes.Compare B (Batcher.Key k)); try contradiction; reflexivity. }
    assert (Hdo : exists b1,
              Batcher.doFlush E b Batcher.rangeFlush = (b1, None) /\
              (Batcher.DataSize E (Batcher.sstWriter b) <> 0 ->
               sent_spans (Batcher.trace b1) =
                 sent_spans (Batcher.trace b) ++
                 [(Batcher.rangeFlush, Batcher.batchStartKey b,
                   KeyOrd.Next (Batcher.batchEndKey b))]) /\
              (Batcher.DataSize E (Batcher.sstWriter b) = 0 -> b1 = b)).
    { destruct (Z.eq_dec (Batcher.DataSize E (Batcher.sstWriter b)) 0) as [Z0|Z0].
      - exists b. rewrite (doFlush_empty b _ Z0). repeat split; auto. contradiction.
      - destruct (doFlush_sends b Batcher.rangeFlush Hok Z0) as (b1 & D & T).
        exists b1. repeat split; auto. contradiction. }
    destruct Hdo as (b1 & D & T & Z0).
    exists b1.
    assert (Hfull : Batcher.AddMVCCKey E b k value
                    = Batcher.store E (Batcher.Reset E b1) k value).
    { rewrite Hadd. unfold Batcher.accept. rewrite Hflush, D. reflexivity. }
    destruct (store_fields (Batcher.Reset E b1) k value) as (S1 & _ & _ & _ & _ & S6).
    rewrite Hfull, S1, S6.
    repeat split; auto.
Qed.

Lemma example_env_flush_succeeds (n : Z) : flush_succeeds (example_env n).
Proof.
  repeat split; intros; eexists; reflexivity.
Qed.

Lemma range_flush_steps_example :
  flush_succeeds (example_env 1000) /\
  Batcher.flushKeyChecked after_a_b = true /\
  Batcher.flushKey after_a_b = Some [x6d] /\
  KeyOrd.lt (Batcher.batchEndKey after_a_b) [x6d] /\
  KeyOrd.le [x6d] (Batcher.Key (key_at x6e)) /\
  sent_spans (Batcher.trace
                (fst (Batcher.AddMVCCKey (example_env 1000) after_a_b (key_at x6e) [x7a])))
    = [(Batcher.rangeFlush, [x61], [x62; x00])] /\
  Batcher.batchStartKey
    (fst (Batcher.AddMVCCKey (example_env 1000) after_a_b (key_at x6e) [x7a])) = [x6e].
Proof.
  assert (H1 : flush_succeeds (example_env 1000))
    by (repeat split; intros; eexists; reflexivity).
  assert (H2 : Batcher.flushKeyChecked after_a_b = true) by reflexivity.
  assert (H3 : Batcher.flushKey after_a_b = Some [x6d]) by reflexivity.
  assert (H4 : KeyOrd.lt (Batcher.batchEndKey after_a_b) [x6d]) by reflexivity.
  assert (H5 : KeyOrd.le [x6d] (Batcher.Key (key_at x6e))) by discriminate.
  split; [exact H1|]. split; [exact H2|]. split; [exact H3|]. split; [exact H4|].
  split; [exact H5|].
  destruct (proj2 (proj2 (range_flush_steps (example_env 1000) [x6d]))
              after_a_b (key_at x6e) [x7a] H1 H2 H3 H4 H5)
    as (b1 & _ & _ & T & _ & S & U).
  split; [|exact S].
  rewrite U, T; [reflexivity|].
  vm_compute. discriminate.
Defined.

(** C8.  The boundary of a batch that the batcher's own flush began is not
    that of its first key.  [flushIfNeeded] looks the boundary up before it
    flushes, [Reset] then forgets it, and the key that caused the flush is
    stored without a lookup; the next key is the one looked up.  With
    ranges ending at "m", "p" and "z": adding "a", "n", "q" sends
    [["a", "a\000")] for the range boundary before "n" is accepted, but "q",
    which lies at or above the end "p" of the range of "n", is accepted
    with no flush, and the batch "n".."q" remembers "z".  After a flush for
    size the same happens: with a threshold of 4 bytes, adding "a", "b",
    "c", "n" sends [["a", "b\000")] for size before "c" is accepted, and "n",
    at or above the end "m" of the range of "c", is accepted with no
    flush. *)
Theorem C8_boundary_lost_after_own_flush :
  (snd after_a_n_q = None /\
   cache_mpz [x6e] = Some (Some [x70]) /\ KeyOrd.le [x70] [x71] /\
   sent_spans (Batcher.trace (fst after_a_n_q))
     = [(Batcher.rangeFlush, [x61], [x61; x00])] /\
   Batcher.batchStartKey (fst after_a_n_q) = [x6e] /\
   Batcher.batchEndKey (fst after_a_n_q) = [x71] /\
   Batcher.flushKey (fst after_a_n_q) = Some [x7a]) /\
  (snd after_a_b_c_n = None /\
   cache_mpz [x63] = Some (Some [x6d]) /\ KeyOrd.le [x6d] [x6e] /\
   sent_spans (Batcher.trace (fst after_a_b_c_n))
     = [(Batcher.sizeFlush, [x61], [x62; x00])] /\
   Batcher.batchStartKey (fst after_a_b_c_n) = [x63] /\
   Batcher.batchEndKey (fst after_a_b_c_n) = [x6e] /\
   Batcher.flushKey (fst after_a_b_c_n) = Some [x70]).
Proof.
  split; repeat split; try reflexivity; vm_compute; discriminate.
Qed.

(* ================================================================== *)
(** ** Span algebra on arbitrary spans *)
(* ================================================================== *)

(** Split on whether a key is empty, keeping the fact in a usable form. *)
Ltac key_empty_cases x :=
  let H := fresh "He" in
  destruct (GoBytes.is_empty x) eqn:H;
  [ apply is_empty_true in H; subst x
  | let L := fresh "Hl" in
    assert (L : KeyTO.lt [] x)
      by (apply Key_empty_lt; intros ->; discriminate H) ].

(** Split a comparison the hypotheses do not decide. *)
Ltac split_cmp :=
  match goal with
  | |- context [GoBytes.Compare ?x ?y] =>
      destruct (Key_Compare_spec x y);
      cbn [GoBytes.lt0 GoBytes.le0 GoBytes.gt0 GoBytes.ge0 andb orb negb
           Span.Key Span.EndKey fst snd]
  end.

Ltac span_auto :=
  span_unfold;
  repeat (first [decide_empty | decide_cmp | split_cmp]);
  subst;
  try reflexivity; try discriminate; try (exfalso; KeyTac.order).

Lemma Compare_nil_nil : GoBytes.Compare [] [] = Eq.
Proof. reflexivity. Qed.

(** X1. [Overlaps] does not depend on the order of its arguments, for
    points and ranges alike. *)
Theorem Overlaps_sym (s o : Span.t) : Span.Overlaps s o = Span.Overlaps o s.
Proof.
  destruct s as [a b], o as [c d].
  key_empty_cases a; key_empty_cases b; key_empty_cases c; key_empty_cases d;
    span_auto.
Qed.

(** Two spans that contain each other are equal. *)
Lemma Contains_antisym (s o : Span.t) :
  Span.Contains s o = true -> Span.Contains o s = true -> Span.Equal s o = true.
Proof.
  destruct s as [a b], o as [c d].
  unfold Span.Equal.
  key_empty_cases a; key_empty_cases b; key_empty_cases c; key_empty_cases d;
    span_auto; intros; try discriminate; try (exfalso; KeyTac.order).
Qed.

(** A span that contains another overlaps it. *)
Lemma Contains_Overlaps (s o : Span.t) :
  Span.Contains s o = true -> Span.Overlaps s o = true.
Proof.
  destruct s as [a b], o as [c d].
  key_empty_cases a; key_empty_cases b; key_empty_cases c; key_empty_cases d;
    span_auto; intros; try discriminate; try (exfalso; KeyTac.order).
Qed.

(** X3. The intersection is a valid span exactly when the spans overlap, and
    both spans contain it then; otherwise it is the zero span. *)
Theorem Intersect_Overlaps (s o : Span.t) :
  Span.Valid (Span.Intersect s o) = Span.Overlaps s o /\
  (Span.Overlaps s o = true ->
   Span.Contains s (Span.Intersect s o) = true /\
   Span.Contains o (Span.Intersect s o) = true) /\
  (Span.Overlaps s o = false -> Span.Intersect s o = Span.zero).
Proof.
  destruct s as [a b], o as [c d].
  key_empty_cases a; key_empty_cases b; key_empty_cases c; key_empty_cases d;
    (split; [|split]); span_auto; intros; try discriminate;
    try (exfalso; KeyTac.order); try (split; span_auto).
Qed.

Lemma Next_dichotomy (x y : Key) :
  (KeyTO.lt y (KeyOrd.Next x) /\ KeyTO.le y x) \/
  (KeyTO.le (KeyOrd.Next x) y /\ KeyTO.lt x y).
Proof.
  pose proof (Key_lt_Next x).
  destruct (Next_cases x y) as [L|[L|[L|L]]].
  - left. split; [now apply Key_lt_Next_mono|KeyTac.order].
  - left. subst. split; [assumption|KeyTac.order].
  - right. subst. split; [KeyTac.order|assumption].
  - right. split; KeyTac.order.
Qed.

Ltac add_next_fact x y :=
  lazymatch goal with
  | _ : KeyTO.lt y (KeyOrd.Next x) |- _ => fail
  | _ : KeyTO.le (KeyOrd.Next x) y |- _ => fail
  | _ => destruct (Next_dichotomy x y) as [[? ?]|[? ?]]
  end.

Ltac next_fact :=
  match goal with
  | |- context [GoBytes.Compare ?y (KeyOrd.Next ?x)] => add_next_fact x y
  | |- context [GoBytes.Compare (KeyOrd.Next ?x) ?y] => add_next_fact x y
  end.

Ltac span_auto' :=
  span_unfold;
  repeat (first [decide_empty | decide_cmp | next_fact | split_cmp]);
  subst;
  try reflexivity; try discriminate; try (exfalso; KeyTac.order).

(** The combination of two valid spans contains both of them. *)
Lemma Combine_Contains (s o : Span.t) :
  Span.Valid s = true -> Span.Valid o = true ->
  Span.Valid (Span.Combine s o) = true /\
  Span.Contains (Span.Combine s o) s = true /\
  Span.Contains (Span.Combine s o) o = true.
Proof.
  destruct s as [a b], o as [c d].
  intros Hs Ho. apply Valid_inv in Hs, Ho.
  destruct Hs as [[-> Ha]|[Hb Hab]], Ho as [[-> Hc]|[Hd Hcd]].
  all: repeat match goal with
         | H : ?x <> [] |- _ =>
             pose proof (is_empty_false x H); pose proof (Key_empty_lt x H); clear H
         end.
  all: pose proof (Key_empty_le a); pose proof (Key_empty_le c).
  all: pose proof (Key_lt_Next a); pose proof (Key_lt_Next c).
  all: destruct (Key_Compare_spec a c); subst.
  all: try (destruct (Key_Compare_spec b c); subst); try (exfalso; KeyTac.order).
  all: try (destruct (Key_Compare_spec a d); subst); try (exfalso; KeyTac.order).
  all: try (destruct (Key_Compare_spec b d); subst); try (exfalso; KeyTac.order).
  all: try (key_empty_cases a); try (key_empty_cases c); try (exfalso; KeyTac.order).
  all: (split; [|split]); span_auto'.
Qed.

Lemma Combine_invalid (s o : Span.t) :
  Span.Valid s = false \/ Span.Valid o = false -> Span.Combine s o = Span.zero.
Proof.
  unfold Span.Combine. intros [H|H]; rewrite H; cbn; [reflexivity|].
  now rewrite orb_true_r.
Qed.

(** [Combine] does not depend on the order of its arguments. *)
Lemma Combine_comm (s o : Span.t) : Span.Combine s o = Span.Combine o s.
Proof.
  destruct (Span.Valid s) eqn:Hs; [|rewrite !Combine_invalid; auto].
  destruct (Span.Valid o) eqn:Ho; [|rewrite !Combine_invalid; auto].
  destruct s as [a b], o as [c d].
  apply Valid_inv in Hs, Ho.
  destruct Hs as [[-> Ha]|[Hb Hab]], Ho as [[-> Hc]|[Hd Hcd]].
  all: repeat match goal with
         | H : ?x <> [] |- _ =>
             pose proof (is_empty_false x H); pose proof (Key_empty_lt x H); clear H
         end.
  all: pose proof (Key_empty_le a); pose proof (Key_empty_le c).
  all: pose proof (Key_lt_Next a); pose proof (Key_lt_Next c).
  all: destruct (Key_Compare_spec a c); subst.
  all: try (destruct (Key_Compare_spec b c); subst); try (exfalso; KeyTac.order).
  all: try (destruct (Key_Compare_spec a d); subst); try (exfalso; KeyTac.order).
  all: try (destruct (Key_Compare_spec b d); subst); try (exfalso; KeyTac.order).
  all: try (key_empty_cases a); try (key_empty_cases c); try (exfalso; KeyTac.order).
  all: span_auto'.
  all: try (f_equal; KeyTac.order).
Qed.

(** [Contains] is transitive. *)
Lemma Contains_trans (r s o : Span.t) :
  Span.Contains r s = true -> Span.Contains s o = true -> Span.Contains r o = true.
Proof.
  destruct r as [a b], s as [c d], o as [e f].
  key_empty_cases b; key_empty_cases d; key_empty_cases f;
    key_empty_cases a; key_empty_cases c; key_empty_cases e;
    span_unfold;
    repeat (first [decide_empty | decide_cmp]);
    try (intros; discriminate).
  all: repeat (split_cmp; try (intros; discriminate));
       try (intros; reflexivity); try (intros; exfalso; KeyTac.order).
Qed.

(** X2. [Contains] orders the spans: it is transitive, two spans that
    contain each other are equal, and a span overlaps every span it
    contains. *)
Theorem Contains_order (r s o : Span.t) :
  (Span.Contains r s = true -> Span.Contains s o = true -> Span.Contains r o = true) /\
  (Span.Contains s o = true -> Span.Contains o s = true -> Span.Equal s o = true) /\
  (Span.Contains s o = true -> Span.Overlaps s o = true).
Proof.
  split; [apply Contains_trans|].
  split; [apply Contains_antisym|apply Contains_Overlaps].
Qed.

(** X4. [Combine] joins spans: it does not depend on the order of its
    arguments, the combination of two valid spans is a valid span that
    contains both, and with an invalid argument it is the zero span. *)
Theorem Combine_join (s o : Span.t) :
  Span.Combine s o = Span.Combine o s /\
  (Span.Valid s = true -> Span.Valid o = true ->
   Span.Valid (Span.Combine s o) = true /\
   Span.Contains (Span.Combine s o) s = true /\
   Span.Contains (Span.Combine s o) o = true) /\
  (Span.Valid s = false \/ Span.Valid o = false -> Span.Combine s o = Span.zero).
Proof.
  split; [apply Combine_comm|].
  split; [apply Combine_Contains|apply Combine_invalid].
Qed.

(* ================================================================== *)
(** ** Splitting spans, clamping and stepping keys *)
(* ================================================================== *)

(** X5. A key strictly inside a range splits it into two valid, disjoint ranges
    that together hold the same keys; any other key leaves the span whole. *)
Theorem SplitOnKey_inside (s : Span.t) (k x : Key) :
  (KeyOrd.lt (Span.Key s) k -> KeyOrd.lt k (Span.EndKey s) ->
   Span.SplitOnKey s k = (Span.mk (Span.Key s) k, Span.mk k (Span.EndKey s)) /\
   Span.Valid (fst (Span.SplitOnKey s k)) = true /\
   Span.Valid (snd (Span.SplitOnKey s k)) = true /\
   Span.Overlaps (fst (Span.SplitOnKey s k)) (snd (Span.SplitOnKey s k)) = false /\
   Span.ContainsKey s x =
     Span.ContainsKey (fst (Span.SplitOnKey s k)) x ||
     Span.ContainsKey (snd (Span.SplitOnKey s k)) x) /\
  (KeyOrd.le k (Span.Key s) \/ KeyOrd.le (Span.EndKey s) k ->
   Span.SplitOnKey s k = (s, Span.zero)).
Proof.
  destruct s as [a b]. cbn [Span.Key Span.EndKey]. split.
  - intros H1 H2.
    assert (E : Span.SplitOnKey (Span.mk a b) k = (Span.mk a k, Span.mk k b)).
    { change (KeyTO.lt a k) in H1. change (KeyTO.lt k b) in H2. span_auto. }
    rewrite E. cbn [fst snd].
    change (KeyTO.lt a k) in H1. change (KeyTO.lt k b) in H2.
    pose proof (Key_empty_le a). pose proof (Key_empty_le x).
    assert (KeyTO.lt [] k) by KeyTac.order.
    assert (KeyTO.lt [] b) by KeyTac.order.
    assert (GoBytes.is_empty k = false) by (destruct k; [now apply Key_lt_irrefl in H3|reflexivity]).
    assert (GoBytes.is_empty b = false) by (destruct b; [now apply Key_lt_irrefl in H4|reflexivity]).
    repeat split.
    + key_empty_cases a; span_auto.
    + span_auto.
    + key_empty_cases a; span_auto.
    + span_auto.
  - intros H. unfold Span.SplitOnKey. cbn [Span.Key Span.EndKey].
    destruct H as [H|H]; unfold KeyOrd.le in H.
    + destruct (GoBytes.Compare k a); try contradiction; reflexivity.
    + rewrite (Compare_antisym b k).
      destruct (GoBytes.Compare b k); try contradiction; cbn;
        now rewrite orb_true_r.
Qed.

(** X6. [Clamp] fails exactly when [max] sorts before [min]; otherwise it returns
    a key between [min] and [max], the key itself when it already lies
    there. *)
Theorem Clamp_bounds (k min max : Key) :
  (KeyOrd.lt max min -> KeyOrd.Clamp k min max = inl (KeyOrd.MinLargerThanMax min max)) /\
  (KeyOrd.le min max ->
   exists r, KeyOrd.Clamp k min max = inr r /\
             KeyOrd.le min r /\ KeyOrd.le r max /\
             (KeyOrd.le min k -> KeyOrd.le k max -> r = k)).
Proof.
  unfold KeyOrd.Clamp, KeyOrd.Less, KeyOrd.Compare. split.
  - intros H. change (GoBytes.Compare max min = Lt) in H. now rewrite H.
  - intros H. change (KeyTO.le min max) in H.
    destruct (Key_Compare_spec max min); cbn; try (exfalso; KeyTac.order);
      destruct (Key_Compare_spec k min); cbn;
      destruct (Key_Compare_spec max k); cbn;
      eexists; (split; [reflexivity|]);
      repeat split; intros;
      try (change (KeyTO.le min max)); try KeyTac.order.
Qed.

Lemma byte_val_zero (b : byte) : GoBytes.byte_val b = 0 <-> b = x00.
Proof.
  split; [|now intros ->].
  intros H. apply byte_val_inj. exact H.
Qed.

Lemma Equal_app_last (k m : list byte) :
  GoBytes.Equal (k ++ [x00]) m = true <->
  exists m', m = m' ++ [x00] /\ k = m'.
Proof.
  rewrite Equal_true_iff. split.
  - intros <-. eauto.
  - intros (m' & -> & ->). reflexivity.
Qed.

(** X7. [IsPrev] is, as its comment says, [k.Next().Equal(m)]; an empty
    [m] has no predecessor. *)
Theorem IsPrev_Next (k m : Key) : KeyOrd.IsPrev k m = KeyOrd.Equal (KeyOrd.Next k) m.
Proof.
  unfold KeyOrd.IsPrev, KeyOrd.Equal, KeyOrd.Next, KeyOrd.BytesNext, GoBytes.len.
  destruct (GoBytes.Equal (k ++ [x00]) m) eqn:E.
  - apply Equal_true_iff in E. subst m.
    rewrite length_app. cbn [length].
    replace (Z.of_nat (length k + 1) - 1) with (Z.of_nat (length k)) by lia.
    rewrite Z.eqb_refl, Nat2Z.id.
    rewrite app_nth2 by lia. rewrite Nat.sub_diag. cbn [nth].
    rewrite firstn_app, Nat.sub_diag, firstn_all. cbn [firstn].
    rewrite app_nil_r, Equal_refl. reflexivity.
  - apply not_true_iff_false. intros H. apply Equal_false_iff in E. apply E.
    rewrite !andb_true_iff in H. destruct H as [[H1 H2] H3].
    apply Z.eqb_eq in H1, H2. apply Equal_true_iff in H3.
    apply byte_val_zero in H2.
    assert (Hlen : length m = S (length k)) by lia.
    replace (Z.to_nat (Z.of_nat (length m) - 1)) with (length k) in H2, H3 by lia.
    assert (Hs : length (skipn (length k) m) = 1%nat) by (rewrite length_skipn; lia).
    assert (Hn : nth (length k) m x00 = nth 0 (skipn (length k) m) x00).
    { rewrite <- (firstn_skipn (length k) m) at 1.
      rewrite app_nth2; rewrite length_firstn, Nat.min_l by lia; [|lia].
      now rewrite Nat.sub_diag. }
    rewrite <- (firstn_skipn (length k) m), <- H3. f_equal.
    destruct (skipn (length k) m) as [|y [|z t]]; try discriminate Hs.
    cbn in Hn. congruence.
Qed.

(** X8. [CompareKey] places a key before, inside or after the span, in
    agreement with [ContainsKey]. *)
Theorem CompareKey_spec (s : Span.t) (k : Key) :
  (Span.CompareKey s k = 0 <-> Span.ContainsKey s k = true) /\
  (Span.CompareKey s k = -1 <-> KeyOrd.lt k (Span.Key s)) /\
  (Span.CompareKey s k = 1 <->
   KeyOrd.le (Span.Key s) k /\ KeyOrd.le (Span.EndKey s) k) /\
  (Span.CompareKey s k = 0 \/ Span.CompareKey s k = -1 \/ Span.CompareKey s k = 1).
Proof.
  destruct s as [a b]. unfold Span.CompareKey, Span.ContainsKey.
  cbn [Span.Key Span.EndKey].
  destruct (Key_Compare_spec k a); destruct (Key_Compare_spec k b); cbn;
    repeat split; intros; try discriminate; try lia; try reflexivity; subst;
    try (change (KeyTO.le a a)); try (change (KeyTO.le b b));
    try match goal with
      | H : _ /\ _ |- _ => destruct H
      end;
    try (exfalso; KeyTac.order); try KeyTac.order; auto.
Qed.

(* ================================================================== *)
(** ** Resolved spans *)
(* ================================================================== *)

Lemma lt0_lt (a b : Key) : GoBytes.lt0 (GoBytes.Compare a b) = true <-> KeyTO.lt a b.
Proof.
  destruct (Key_Compare_spec a b) as [E|L|G]; cbn; split; intros H;
    try discriminate H; try reflexivity; try assumption; exfalso; KeyTac.order.
Qed.

Lemma gt0_lt (a b : Key) : GoBytes.gt0 (GoBytes.Compare a b) = true <-> KeyTO.lt b a.
Proof.
  destruct (Key_Compare_spec a b) as [E|L|G]; cbn; split; intros H;
    try discriminate H; try reflexivity; try assumption; exfalso; KeyTac.order.
Qed.

Lemma ge0_le (a b : Key) : GoBytes.ge0 (GoBytes.Compare a b) = true <-> KeyTO.le b a.
Proof.
  destruct (Key_Compare_spec a b) as [E|L|G]; cbn; split; intros H;
    try discriminate H; try reflexivity; try KeyTac.order; exfalso; KeyTac.order.
Qed.

Lemma le0_le (a b : Key) : GoBytes.le0 (GoBytes.Compare a b) = true <-> KeyTO.le a b.
Proof.
  destruct (Key_Compare_spec a b) as [E|L|G]; cbn; split; intros H;
    try discriminate H; try reflexivity; try KeyTac.order; exfalso; KeyTac.order.
Qed.

Lemma RSpan_ContainsKey_iff (rs : RSpan.t) (k : RKey) :
  RSpan.ContainsKey rs k = true <-> KeyTO.le (RSpan.Key rs) k /\ KeyTO.lt k (RSpan.EndKey rs).
Proof. unfold RSpan.ContainsKey. now rewrite andb_true_iff, ge0_le, lt0_lt. Qed.

(** X9. What [RSpan.ContainsKeyRange] decides.  For a proper range
    [[start, end)] it holds exactly when the span contains every key of the
    range; for an empty [end] or [end = start] it asks for [start] alone,
    and for an [end] below [start] it is false. *)
Theorem RSpan_ContainsKeyRange_spec (rs : RSpan.t) (start end_ : RKey) :
  (KeyOrd.lt start end_ ->
   (RSpan.ContainsKeyRange rs start end_ = true <->
    forall k, KeyOrd.le start k -> KeyOrd.lt k end_ -> RSpan.ContainsKey rs k = true)) /\
  (end_ = [] \/ end_ = start ->
   RSpan.ContainsKeyRange rs start end_ = RSpan.ContainsKey rs start) /\
  (end_ <> [] -> KeyOrd.lt end_ start -> RSpan.ContainsKeyRange rs start end_ = false).
Proof.
  unfold RSpan.ContainsKeyRange. split; [|split].
  - intros Hlt.
    assert (Hne : GoBytes.is_empty end_ = false).
    { destruct end_; [destruct start; discriminate Hlt|reflexivity]. }
    rewrite Hne.
    assert (Hc : GoBytes.Compare end_ start = Gt) by (apply Key_gt_lt; exact Hlt).
    rewrite Hc. cbn [GoBytes.lt0]. rewrite andb_true_iff, !ge0_le. split.
    + intros (H1 & H2) k Hk1 Hk2. apply RSpan_ContainsKey_iff.
      change (KeyTO.le start k) in Hk1. change (KeyTO.lt k end_) in Hk2.
      split; KeyTac.order.
    + intros H. change (KeyTO.lt start end_) in Hlt.
      pose proof (H start (Key_le_refl start) Hlt) as Hs.
      apply RSpan_ContainsKey_iff in Hs as (Hs1 & Hs2).
      split; [exact Hs1|].
      destruct (Key_lt_total (RSpan.EndKey rs) end_) as [L|[L|L]].
      * exfalso.
        assert (Hle : KeyOrd.le start (RSpan.EndKey rs))
          by (change (KeyTO.le start (RSpan.EndKey rs)); KeyTac.order).
        pose proof (H (RSpan.EndKey rs) Hle L) as He.
        apply RSpan_ContainsKey_iff in He as (_ & He). KeyTac.order.
      * KeyTac.order.
      * change (KeyTO.lt end_ (RSpan.EndKey rs)) in L. KeyTac.order.
  - intros [->| ->]; [reflexivity|].
    destruct (GoBytes.is_empty start); [reflexivity|].
    now rewrite Compare_refl.
  - intros Hne Hlt.
    destruct end_ as [|x e]; [contradiction|]. cbn [GoBytes.is_empty].
    unfold KeyOrd.lt in Hlt. now rewrite Hlt.
Qed.

(** X10. [RSpan.Intersect] fails exactly when the spans do not overlap, and
    then hands back the receiver; when it succeeds the result contains
    exactly the keys that both spans contain. *)
Theorem RSpan_Intersect_spec (rs rspan : RSpan.t) :
  (snd (RSpan.Intersect rs rspan) = None <->
   KeyOrd.lt (RSpan.Key rs) (RSpan.EndKey rspan) /\
   KeyOrd.lt (RSpan.Key rspan) (RSpan.EndKey rs)) /\
  (snd (RSpan.Intersect rs rspan) = None ->
   forall k, RSpan.ContainsKey (fst (RSpan.Intersect rs rspan)) k =
             RSpan.ContainsKey rs k && RSpan.ContainsKey rspan k) /\
  (snd (RSpan.Intersect rs rspan) <> None ->
   RSpan.Intersect rs rspan = (rs, Some (RSpan.SpansDoNotOverlap rs rspan))).
Proof.
  unfold RSpan.Intersect, RSpan.RKey_Less, RSpan.RKey_Compare.
  destruct (GoBytes.lt0 (GoBytes.Compare (RSpan.Key rs) (RSpan.EndKey rspan))) eqn:A;
    [destruct (GoBytes.lt0 (GoBytes.Compare (RSpan.Key rspan) (RSpan.EndKey rs))) eqn:B|];
    cbn [negb orb fst snd].
  - apply lt0_lt in A, B.
    split; [split; auto|]. split; [|congruence].
    intros _ k.
    assert (HR : RSpan.ContainsKeyRange rspan (RSpan.Key rspan) (RSpan.EndKey rs) =
                 GoBytes.ge0 (GoBytes.Compare (RSpan.EndKey rspan) (RSpan.EndKey rs))).
    { unfold RSpan.ContainsKeyRange.
      assert (Hne : GoBytes.is_empty (RSpan.EndKey rs) = false).
      { destruct (RSpan.EndKey rs); [|reflexivity].
        destruct (RSpan.Key rspan); discriminate B. }
      rewrite Hne.
      assert (Hc : GoBytes.Compare (RSpan.EndKey rs) (RSpan.Key rspan) = Gt)
        by (apply Key_gt_lt; exact B).
      rewrite Hc, Compare_refl. reflexivity. }
    rewrite HR.
    apply eq_true_iff_eq.
    rewrite andb_true_iff, !RSpan_ContainsKey_iff.
    destruct (GoBytes.lt0 (GoBytes.Compare (RSpan.Key rs) (RSpan.Key rspan))) eqn:K;
      [apply lt0_lt in K|apply not_true_iff_false in K; rewrite lt0_lt in K];
      (destruct (GoBytes.ge0 (GoBytes.Compare (RSpan.EndKey rspan) (RSpan.EndKey rs))) eqn:G;
       [apply ge0_le in G|apply not_true_iff_false in G; rewrite ge0_le in G]);
      cbn [negb RSpan.Key RSpan.EndKey];
      (split; [intros (H1 & H2)|intros ((H1 & H2) & (H3 & H4))]; repeat split;
       KeyTac.order).
  - split; [|split; [discriminate|reflexivity]].
    split; [discriminate|]. intros (_ & H). apply lt0_lt in H. congruence.
  - split; [|split; [discriminate|reflexivity]].
    split; [discriminate|]. intros (H & _). apply lt0_lt in H. congruence.
Qed.

(** X11. A span read as inverted, [(Key, EndKey]], contains the keys that the
    span [[Key.Next(), EndKey.Next())] contains in the ordinary reading. *)
Theorem RSpan_ContainsKeyInverted_Next (rs : RSpan.t) (k : RKey) :
  RSpan.ContainsKeyInverted rs k =
  RSpan.ContainsKey (RSpan.mk (KeyOrd.Next (RSpan.Key rs)) (KeyOrd.Next (RSpan.EndKey rs))) k.
Proof.
  apply eq_true_iff_eq. rewrite RSpan_ContainsKey_iff. cbn [RSpan.Key RSpan.EndKey].
  unfold RSpan.ContainsKeyInverted. rewrite andb_true_iff, gt0_lt, le0_le.
  split; intros (H1 & H2); split.
  - apply Key_Next_lt, H1.
  - apply Key_lt_Next_iff, H2.
  - destruct (Next_dichotomy (RSpan.Key rs) k) as [(A & B)|(A & B)]; [|exact B].
    exfalso. KeyTac.order.
  - apply Key_lt_Next_iff, H2.
Qed.

(* ================================================================== *)
(** ** Values: encoding round trips *)
(* ================================================================== *)

Lemma byte_val_of_Z (z : Z) : GoBytes.byte_val (GoBytes.byte_of_Z z) = z mod 256.
Proof.
  unfold GoBytes.byte_val, GoBytes.byte_of_Z.
  pose proof (Z.mod_pos_bound z 256 ltac:(lia)) as Hr.
  destruct (Byte.of_N (Z.to_N (z mod 256))) as [b|] eqn:E.
  - apply Byte.to_of_N in E. rewrite E. lia.
  - apply Byte.of_N_None_iff in E. lia.
Qed.

Lemma Uint32_Encode (c : Z) (rest : list byte) :
  0 <= c < 2 ^ 32 ->
  GoBytes.Uint32 (GoBytes.EncodeUint32Ascending c ++ rest) = c.
Proof.
  intros Hc. unfold GoBytes.Uint32, GoBytes.EncodeUint32Ascending. cbn [nth app].
  rewrite !byte_val_of_Z.
  change (2 ^ 24) with 16777216. change (2 ^ 16) with 65536. change (2 ^ 8) with 256.
  change (2 ^ 32) with 4294967296 in Hc.
  pose proof (Z.div_mod c 16777216 ltac:(lia)).
  pose proof (Z.mod_pos_bound c 16777216 ltac:(lia)).
  assert (0 <= c / 16777216 < 256)
    by (split; [apply Z.div_pos; lia|apply Z.div_lt_upper_bound; lia]).
  rewrite (Z.mod_small (c / 16777216)) by lia.
  assert (E1 : (c / 65536) mod 256 = (c mod 16777216) / 65536).
  { replace 16777216 with (65536 * 256) by lia.
    rewrite Z.rem_mul_r by lia.
    rewrite (Z.mul_comm 65536 (_ mod 256)), Z.div_add by lia.
    rewrite (Z.div_small (c mod 65536)) by (apply Z.mod_pos_bound; lia). lia. }
  assert (E2 : (c / 256) mod 256 = (c mod 65536) / 256).
  { replace 65536 with (256 * 256) by lia.
    rewrite Z.rem_mul_r by lia.
    rewrite (Z.mul_comm 256 (_ mod 256)), Z.div_add by lia.
    rewrite (Z.div_small (c mod 256)) by (apply Z.mod_pos_bound; lia). lia. }
  rewrite E1, E2.
  pose proof (Z.div_mod (c mod 16777216) 65536 ltac:(lia)).
  assert (E3 : (c mod 16777216) mod 65536 = c mod 65536).
  { replace 16777216 with (65536 * 256) by lia.
    rewrite Z.rem_mul_r by lia.
    rewrite Z.mul_comm, Z.mod_add by lia. apply Z.mod_mod. lia. }
  pose proof (Z.div_mod (c mod 65536) 256 ltac:(lia)).
  assert (E4 : (c mod 65536) mod 256 = c mod 256).
  { replace 65536 with (256 * 256) by lia.
    rewrite Z.rem_mul_r by lia.
    rewrite Z.mul_comm, Z.mod_add by lia. apply Z.mod_mod. lia. }
  lia.
Qed.

Lemma lxor_bound (n a b : Z) :
  0 <= n -> 0 <= a < 2 ^ n -> 0 <= b < 2 ^ n -> 0 <= Z.lxor a b < 2 ^ n.
Proof.
  intros Hn Ha Hb. split; [apply Z.lxor_nonneg; split; intros; lia|].
  destruct (Z.eq_dec (Z.lxor a b) 0) as [->|Hx]; [apply Z.pow_pos_nonneg; lia|].
  assert (0 < n).
  { destruct (Z.eq_dec n 0) as [->|]; [|lia].
    assert (a = 0) by (change (2 ^ 0) with 1 in Ha; lia).
    assert (b = 0) by (change (2 ^ 0) with 1 in Hb; lia).
    subst. now elim Hx. }
  assert (0 <= Z.lxor a b) by (apply Z.lxor_nonneg; split; intros; lia).
  assert (0 < Z.lxor a b) by lia.
  apply Z.log2_lt_pow2; [assumption|].
  pose proof (Z.log2_lxor a b ltac:(lia) ltac:(lia)).
  assert (Z.log2 a < n).
  { destruct (Z.eq_dec a 0) as [->|]; [cbn; lia|]. apply Z.log2_lt_pow2; lia. }
  assert (Z.log2 b < n).
  { destruct (Z.eq_dec b 0) as [->|]; [cbn; lia|]. apply Z.log2_lt_pow2; lia. }
  lia.
Qed.

Lemma crc_shift_bound (c : Z) : 0 <= c < 2 ^ 32 -> 0 <= GoBytes.crc_shift c < 2 ^ 32.
Proof.
  intros Hc. unfold GoBytes.crc_shift.
  assert (Hs : 0 <= Z.shiftr c 1 < 2 ^ 32).
  { rewrite Z.shiftr_div_pow2 by lia. change (2 ^ 1) with 2.
    split; [apply Z.div_pos; lia|].
    apply Z.div_lt_upper_bound; lia. }
  destruct (Z.testbit c 0); [|exact Hs].
  apply lxor_bound; lia.
Qed.

Lemma crc_byte_bound (c : Z) (b : byte) :
  0 <= c < 2 ^ 32 -> 0 <= GoBytes.crc_byte c b < 2 ^ 32.
Proof.
  intros Hc. unfold GoBytes.crc_byte.
  assert (H0 : 0 <= Z.lxor c (GoBytes.byte_val b) < 2 ^ 32).
  { apply lxor_bound; [lia|exact Hc|]. pose proof (byte_val_range b). lia. }
  generalize dependent (Z.lxor c (GoBytes.byte_val b)). intros z Hz.
  cbn [Nat.iter].
  repeat apply crc_shift_bound. exact Hz.
Qed.

(** A CRC-32 is a uint32. *)
Lemma crc32_ieee_bound (data : list byte) : 0 <= GoBytes.crc32_ieee data < 2 ^ 32.
Proof.
  unfold GoBytes.crc32_ieee.
  assert (H : forall l c, 0 <= c < 2 ^ 32 ->
                          0 <= fold_left GoBytes.crc_byte l c < 2 ^ 32).
  { induction l as [|b l IH]; intros c Hc; [exact Hc|].
    cbn [fold_left]. apply IH, crc_byte_bound, Hc. }
  apply lxor_bound; [lia| |lia].
  apply H. lia.
Qed.

Lemma fold_zero_bound (sum : Z) : 0 <= sum < 2 ^ 32 -> 0 < fold_zero sum < 2 ^ 32.
Proof. unfold fold_zero. destruct (Z.eqb_spec sum 0); lia. Qed.

Lemma len_length (a : list byte) : GoBytes.len a = Z.of_nat (length a).
Proof. reflexivity. Qed.

Lemma Encode_length (c : Z) : length (GoBytes.EncodeUint32Ascending c) = 4%nat.
Proof. reflexivity. Qed.

Lemma simple_not_extended (v : Value.t) :
  simple_value v -> Value.usesExtendedEncoding v = false.
Proof.
  intros (_ & _ & Ht). unfold Value.usesExtendedEncoding.
  destruct (Z.eqb_spec (Value.at_ v Value.tagPos)
              Value.ValueType_MVCC_EXTENDED_ENCODING_SENTINEL); [contradiction|].
  apply andb_false_r.
Qed.

Lemma simple_checksum (v : Value.t) :
  simple_value v -> Value.checksum v = GoBytes.Uint32 (firstn 4 (Value.raw v)).
Proof.
  intros Hs. pose proof Hs as (_ & Hl & _). unfold Value.checksum.
  rewrite (simple_not_extended v Hs).
  unfold Value.headerSize, Value.tagPos, Value.checksumSize in *.
  destruct (Z.ltb_spec (Value.len v) 4); [lia|reflexivity].
Qed.

Lemma Uint32_firstn (a : list byte) : GoBytes.Uint32 (firstn 4 a) = GoBytes.Uint32 a.
Proof.
  unfold GoBytes.Uint32.
  destruct a as [|a0 [|a1 [|a2 [|a3 a]]]]; reflexivity.
Qed.

Lemma setChecksum_simple (v : Value.t) (c : Z) :
  simple_value v -> 0 <= c < 2 ^ 32 ->
  simple_value (Value.setChecksum v c) /\
  Value.checksum (Value.setChecksum v c) = c /\
  GoBytes.from Value.checksumSize (Value.raw (Value.setChecksum v c)) =
    GoBytes.from Value.checksumSize (Value.raw v) /\
  Value.len (Value.setChecksum v c) = Value.len v.
Proof.
  intros Hs Hc. pose proof Hs as (Hn & Hl & Ht).
  unfold Value.headerSize, Value.tagPos, Value.checksumSize in *.
  assert (Hlen : (5 <= length (Value.raw v))%nat).
  { unfold Value.len, GoBytes.len in Hl. lia. }
  assert (E : Value.setChecksum v c =
              Value.mk (Some (GoBytes.EncodeUint32Ascending c ++ skipn 4 (Value.raw v)))
                       (Value.spare v)).
  { unfold Value.setChecksum, Value.checksumSize.
    destruct (Z.leb_spec 4 (Value.len v)); [reflexivity|lia]. }
  assert (L : Value.len (Value.setChecksum v c) = Value.len v).
  { rewrite E. unfold Value.len, Value.raw, GoBytes.len. cbn [Value.RawBytes].
    rewrite length_app, length_skipn, Encode_length.
    fold (Value.raw v). lia. }
  assert (S' : simple_value (Value.setChecksum v c)).
  { split; [rewrite E; discriminate|]. split; [rewrite L; exact Hl|].
    rewrite E. unfold Value.at_, Value.raw, Value.tagPos, Value.checksumSize.
    cbn [Value.RawBytes].
    change (Z.to_nat 4) with 4%nat.
    rewrite app_nth2 by (rewrite Encode_length; lia).
    rewrite Encode_length. cbn [Nat.sub].
    rewrite nth_skipn. exact Ht. }
  split; [exact S'|]. split; [|split; [|exact L]].
  - rewrite (simple_checksum _ S'), Uint32_firstn, E.
    unfold Value.raw at 1. cbn [Value.RawBytes]. now apply Uint32_Encode.
  - rewrite E. unfold GoBytes.from, Value.raw at 1. cbn [Value.RawBytes].
    change (Z.to_nat 4) with 4%nat.
    rewrite skipn_app, Encode_length. cbn [Nat.sub skipn].
    reflexivity.
Qed.

(** X12. Checksum round trip on simple values: after [InitChecksum(key)] on a
    value with a zero checksum, [Verify(key)] succeeds; the stored checksum
    is then not zero and the bytes after it are as before. *)
Theorem InitChecksum_then_Verify (v : Value.t) (key : list byte) :
  simple_value v -> Value.checksum v = 0 ->
  exists v',
    Value.InitChecksum v key = Done v' /\
    Value.Verify v' key = Done tt /\
    Value.checksum v' <> 0 /\
    Value.TagAndDataBytes v' = Value.TagAndDataBytes v.
Proof.
  intros Hs Hc. pose proof Hs as (Hn & Hl & Ht).
  set (d := fold_zero (GoBytes.crc32_ieee
                         (key ++ GoBytes.from Value.checksumSize (Value.raw v)))).
  assert (Hd : 0 < d < 2 ^ 32) by (apply fold_zero_bound, crc32_ieee_bound).
  assert (Hcomp : Value.computeChecksum_v v key = inr d).
  { unfold Value.computeChecksum_v. apply computeChecksum_simple; assumption. }
  destruct (setChecksum_simple v d Hs ltac:(lia)) as (S' & C' & F' & L').
  exists (Value.setChecksum v d). split; [|split; [|split]].
  - unfold Value.InitChecksum. destruct (Value.RawBytes v); [|contradiction].
    rewrite Hc, Hcomp. reflexivity.
  - unfold Value.Verify.
    rewrite (proj2 (VerifyHeader_ok _)) by (right; rewrite L'; exact Hl).
    rewrite C'. destruct (Z.eqb_spec d 0); [lia|]. cbn [negb].
    assert (Hcomp' : Value.computeChecksum_v (Value.setChecksum v d) key = inr d).
    { unfold Value.computeChecksum_v.
      destruct S' as (_ & Sl & St).
      rewrite computeChecksum_simple by assumption.
      rewrite F'. reflexivity. }
    rewrite Hcomp', Z.eqb_refl. reflexivity.
  - rewrite C'. lia.
  - unfold Value.TagAndDataBytes, Value.tagStart.
    rewrite (simple_not_extended _ S'), (simple_not_extended _ Hs), L'.
    destruct (Value.len v <? Value.tagPos); [reflexivity|].
    f_equal. exact F'.
Qed.

Lemma InitChecksum_then_Verify_witness :
  simple_value sample_value /\ Value.checksum sample_value = 0 /\
  exists v', Value.InitChecksum sample_value [x61] = Done v' /\
             Value.Verify v' [x61] = Done tt.
Proof.
  assert (H1 : simple_value sample_value).
  { split; [discriminate|]. split; [vm_compute; discriminate|vm_compute; discriminate]. }
  assert (H2 : Value.checksum sample_value = 0) by reflexivity.
  split; [exact H1|]. split; [exact H2|].
  destruct (InitChecksum_then_Verify sample_value [x61] H1 H2) as (v' & A & B & _).
  exists v'. split; assumption.
Defined.

(* ------------------------------------------------------------------ *)
(** *** Setting and getting bytes *)

Lemma length_repeat_Z (n : Z) : 0 <= n -> GoBytes.len (repeat x00 (Z.to_nat n)) = n.
Proof. intros H. unfold GoBytes.len. rewrite repeat_length. lia. Qed.

Lemma nth_repeat_x00 (i n : nat) : nth i (repeat x00 n) x00 = x00.
Proof.
  revert i. induction n as [|n IH]; intros [|i]; cbn; auto.
Qed.

Lemma setChecksum_eq (v : Value.t) (c : Z) :
  4 <= Value.len v ->
  Value.setChecksum v c =
    Value.mk (Some (GoBytes.EncodeUint32Ascending c ++ skipn 4 (Value.raw v)))
             (Value.spare v).
Proof.
  intros H. unfold Value.setChecksum, Value.checksumSize.
  destruct (Z.leb_spec 4 (Value.len v)); [reflexivity|lia].
Qed.

(** What [ensureRawBytes] hands out for a size of at least a header: a
    slice of that length whose checksum bytes are zero and whose tag byte
    is zero (fresh) or the byte the recycled array held there. *)
Lemma ensureRawBytes_spec (v : Value.t) (size : Z) :
  Value.headerSize <= size ->
  let v' := Value.ensureRawBytes v size in
  Value.RawBytes v' <> None /\
  Value.len v' = size /\
  firstn 4 (Value.raw v') = [x00; x00; x00; x00] /\
  nth 4 (Value.raw v') x00 =
    (if Value.cap v <? size then x00 else nth 4 (Value.raw v ++ Value.spare v) x00).
Proof.
  intros Hsz. unfold Value.headerSize, Value.tagPos, Value.checksumSize in Hsz.
  cbv zeta. unfold Value.ensureRawBytes.
  destruct (Z.ltb_spec (Value.cap v) size) as [Hcap|Hcap].
  - unfold Value.len, Value.raw. cbn [Value.RawBytes].
    rewrite length_repeat_Z by lia.
    split; [discriminate|]. split; [reflexivity|]. split.
    + assert (E : exists n, Z.to_nat size = (4 + n)%nat) by (exists (Z.to_nat size - 4)%nat; lia).
      destruct E as [n ->]. reflexivity.
    + apply nth_repeat_x00.
  - set (backing := Value.raw v ++ Value.spare v).
    assert (Hb : (Z.to_nat size <= length backing)%nat).
    { subst backing. rewrite length_app. unfold Value.cap, GoBytes.len in Hcap. lia. }
    assert (Hf : length (firstn (Z.to_nat size) backing) = Z.to_nat size)
      by (rewrite length_firstn; lia).
    set (v1 := Value.mk (Some (firstn (Z.to_nat size) backing))
                        (skipn (Z.to_nat size) backing)).
    assert (L1 : Value.len v1 = size).
    { unfold Value.len, GoBytes.len, v1, Value.raw. cbn [Value.RawBytes]. lia. }
    rewrite setChecksum_eq by (rewrite L1; lia).
    unfold Value.len, Value.raw, GoBytes.len. cbn [Value.RawBytes v1].
    rewrite length_app, length_skipn, Hf, Encode_length.
    split; [discriminate|]. split; [lia|]. split; [reflexivity|].
    rewrite app_nth2 by (rewrite Encode_length; lia).
    rewrite Encode_length. cbn [Nat.sub].
    rewrite nth_skipn. cbn [Nat.add].
    rewrite nth_firstn.
    destruct (Nat.ltb_spec 4 (Z.to_nat size)); [reflexivity|lia].
Qed.

Lemma firstn_S_nth (n : nat) (l : list byte) :
  (n < length l)%nat -> firstn (S n) l = firstn n l ++ [nth n l x00].
Proof.
  revert l. induction n as [|n IH]; intros [|x l] H; cbn in *; try lia.
  - reflexivity.
  - f_equal. apply IH. lia.
Qed.

(** The raw bytes [setData] leaves behind: a zero checksum, the tag, the
    data. *)
Lemma setData_raw (v : Value.t) (b : list byte) (ty : Value.ValueType) :
  clean_buffer v (Value.headerSize + GoBytes.len b) ->
  exists v',
    Value.setData v b ty = inr v' /\
    Value.raw v' = [x00; x00; x00; x00; GoBytes.byte_of_Z ty] ++ b /\
    Value.RawBytes v' <> None.
Proof.
  intros Hclean. unfold Value.setData.
  set (size := Value.headerSize + GoBytes.len b).
  assert (Hsz : Value.headerSize <= size) by (subst size; pose proof (len_nonneg b); lia).
  destruct (ensureRawBytes_spec v size Hsz) as (Hn & Hl & Hz & Ht).
  set (v1 := Value.ensureRawBytes v size) in *.
  assert (Htag : Value.at_ v1 Value.tagPos <> Value.ValueType_MVCC_EXTENDED_ENCODING_SENTINEL).
  { unfold Value.at_, Value.tagPos, Value.checksumSize. change (Z.to_nat 4) with 4%nat.
    rewrite Ht. destruct (Z.ltb_spec (Value.cap v) size) as [Hc|Hc].
    - vm_compute. discriminate.
    - destruct Hclean as [Hc'|Hc']; [fold size in Hc'; lia|exact Hc']. }
  assert (Hs1 : simple_value v1) by (repeat split; [exact Hn|lia|exact Htag]).
  unfold Value.dataStart. rewrite (simple_not_extended v1 Hs1).
  unfold Value.headerSize, Value.tagPos, Value.checksumSize in *.
  destruct (Z.ltb_spec (Value.len v1) (4 + 1)); [lia|].
  change (Z.to_nat (4 + 1)) with 5%nat.
  assert (Hlen1 : length (Value.raw v1) = (5 + length b)%nat).
  { unfold Value.len, GoBytes.len in Hl. subst size. unfold GoBytes.len in Hl. lia. }
  assert (Hcopy : GoBytes.copy_at 5 (Value.raw v1) b =
                  [x00; x00; x00; x00; nth 4 (Value.raw v1) x00] ++ b).
  { unfold GoBytes.copy_at. rewrite Hlen1.
    replace (5 + length b - 5)%nat with (length b) by lia.
    rewrite Nat.min_id, firstn_all.
    rewrite skipn_all2 by lia. rewrite app_nil_r.
    rewrite (firstn_S_nth 4) by lia. rewrite Hz. reflexivity. }
  rewrite Hcopy.
  unfold Value.setTag, Value.tagPos, Value.checksumSize.
  unfold Value.len at 1, Value.raw at 1, GoBytes.len. cbn [Value.RawBytes].
  destruct (Z.leb_spec (Z.of_nat (length ([x00; x00; x00; x00; nth 4 (Value.raw v1) x00] ++ b))) 4)
    as [Hle|Hle]; [cbn [length app] in Hle; lia|].
  eexists. split; [reflexivity|].
  split; [|discriminate].
  unfold Value.raw. cbn [Value.RawBytes]. reflexivity.
Qed.

(** Round trip of the byte setters: on a clean buffer, [setData] with a tag
    other than the sentinel gives a value with that tag, a zero checksum
    and exactly the bytes set as its data. *)
Lemma setData_roundtrip (v : Value.t) (b : list byte) (ty : Value.ValueType) :
  clean_buffer v (Value.headerSize + GoBytes.len b) ->
  0 <= ty < 256 -> ty <> Value.ValueType_MVCC_EXTENDED_ENCODING_SENTINEL ->
  exists v',
    Value.setData v b ty = inr v' /\
    Value.GetTag v' = ty /\
    Value.dataBytes v' = inr b /\
    Value.checksum v' = 0 /\
    Value.len v' = Value.headerSize + GoBytes.len b.
Proof.
  intros Hclean Hty Hns.
  destruct (setData_raw v b ty Hclean) as (v' & Hset & Hraw & Hnn).
  exists v'. split; [exact Hset|].
  assert (Hlen : Value.len v' = 5 + GoBytes.len b).
  { unfold Value.len, GoBytes.len. rewrite Hraw. cbn [length app]. lia. }
  assert (Hat : Value.at_ v' Value.tagPos = ty).
  { unfold Value.at_, Value.tagPos, Value.checksumSize. change (Z.to_nat 4) with 4%nat.
    rewrite Hraw. cbn [nth app]. rewrite byte_val_of_Z. apply Z.mod_small. lia. }
  assert (Hs : simple_value v').
  { split; [exact Hnn|]. split.
    - rewrite Hlen. unfold Value.headerSize, Value.tagPos, Value.checksumSize.
      pose proof (len_nonneg b). lia.
    - now rewrite Hat. }
  pose proof (len_nonneg b) as Hb.
  repeat split.
  - unfold Value.GetTag. rewrite Hat.
    unfold Value.tagPos, Value.checksumSize.
    destruct (Z.leb_spec (Value.len v') 4); [lia|].
    destruct (Z.eqb_spec ty Value.ValueType_MVCC_EXTENDED_ENCODING_SENTINEL);
      [contradiction|reflexivity].
  - unfold Value.dataBytes, Value.dataStart. rewrite (simple_not_extended v' Hs).
    unfold Value.headerSize, Value.tagPos, Value.checksumSize.
    destruct (Z.ltb_spec (Value.len v') (4 + 1)); [lia|].
    rewrite Hraw. reflexivity.
  - rewrite (simple_checksum v' Hs), Hraw. reflexivity.
  - exact Hlen.
Qed.

(** X13. On a buffer without a stale sentinel tag, [GetBytes] returns what
    [SetBytes] stored, [GetTuple] what [SetTuple]
    stored, and each getter refuses the other's tag with a type error. *)
Theorem SetBytes_GetBytes (v : Value.t) (b : list byte) :
  clean_buffer v (Value.headerSize + GoBytes.len b) ->
  (exists v', Value.SetBytes v b = inr v' /\
              Value.GetBytes v' = Done b /\
              Value.GetTuple v' =
                Failed (Value.ValueTypeIsNot Value.ValueType_TUPLE Value.ValueType_BYTES) /\
              Value.checksum v' = 0) /\
  (exists v', Value.SetTuple v b = inr v' /\
              Value.GetTuple v' = Done b /\
              Value.GetBytes v' =
                Failed (Value.ValueTypeIsNot Value.ValueType_BYTES Value.ValueType_TUPLE) /\
              Value.checksum v' = 0).
Proof.
  intros Hclean. split.
  - destruct (setData_roundtrip v b Value.ValueType_BYTES Hclean)
      as (v' & S & T & D & C & _);
      [unfold Value.ValueType_BYTES; lia|discriminate|].
    exists v'. unfold Value.SetBytes, Value.GetBytes, Value.GetTuple.
    rewrite S, T, D, C. repeat split; reflexivity.
  - destruct (setData_roundtrip v b Value.ValueType_TUPLE Hclean)
      as (v' & S & T & D & C & _);
      [unfold Value.ValueType_TUPLE; lia|discriminate|].
    exists v'. unfold Value.SetTuple, Value.GetBytes, Value.GetTuple.
    rewrite S, T, D, C. repeat split; reflexivity.
Qed.

Lemma SetBytes_GetBytes_witness :
  clean_buffer Value.zero (Value.headerSize + GoBytes.len [x68; x69]) /\
  exists v', Value.SetBytes Value.zero [x68; x69] = inr v' /\
             Value.GetBytes v' = Done [x68; x69].
Proof.
  assert (H : clean_buffer Value.zero (Value.headerSize + GoBytes.len [x68; x69]))
    by (left; vm_compute; reflexivity).
  split; [exact H|].
  destruct (proj1 (SetBytes_GetBytes Value.zero [x68; x69] H)) as (v' & A & B & _).
  exists v'. split; assumption.
Defined.

(** X14. On a recycled buffer whose tag byte is the extended-encoding sentinel,
    [SetBytes] of one to four bytes panics: the zeroed checksum reads as an
    extended header of length 0 and the data offset (10) lies beyond the
    slice. *)
Theorem SetBytes_stale_sentinel (v : Value.t) (b : list byte) :
  Value.headerSize + GoBytes.len b <= Value.cap v ->
  GoBytes.byte_val (nth 4 (Value.raw v ++ Value.spare v) x00)
    = Value.ValueType_MVCC_EXTENDED_ENCODING_SENTINEL ->
  1 <= GoBytes.len b <= 4 ->
  Value.SetBytes v b = inl Value.SliceBounds.
Proof.
  intros Hcap Htag Hb. unfold Value.SetBytes, Value.setData.
  set (size := Value.headerSize + GoBytes.len b) in *.
  assert (Hsz : Value.headerSize <= size) by (subst size; lia).
  destruct (ensureRawBytes_spec v size Hsz) as (Hn & Hl & Hz & Ht).
  set (v1 := Value.ensureRawBytes v size) in *.
  destruct (Z.ltb_spec (Value.cap v) size); [lia|].
  unfold Value.headerSize, Value.tagPos, Value.checksumSize in *.
  assert (Hu : Value.usesExtendedEncoding v1 = true).
  { unfold Value.usesExtendedEncoding, Value.at_, Value.headerSize, Value.tagPos,
      Value.checksumSize. change (Z.to_nat 4) with 4%nat.
    rewrite Ht, Htag, Z.eqb_refl, Hl.
    destruct (Z.ltb_spec (4 + 1) size); [reflexivity|lia]. }
  assert (Hu32 : GoBytes.Uint32 (Value.raw v1) = 0).
  { rewrite <- Uint32_firstn, Hz. reflexivity. }
  unfold Value.dataStart. rewrite Hu.
  unfold Value.extendedSimpleTagPos. rewrite Hu32.
  change (wrap_u32 (Value.extendedMVCCValLenSize + 0 + Value.headerSize) + 1) with 10.
  rewrite Hl. destruct (Z.ltb_spec size 10); [reflexivity|lia].
Qed.

Lemma SetBytes_stale_sentinel_witness :
  Value.headerSize + GoBytes.len [x68] <=
    Value.cap (Value.mk (Some [x00; x00; x00; x00; x65; x00; x00]) []) /\
  GoBytes.byte_val (nth 4 ([x00; x00; x00; x00; x65; x00; x00] ++ []) x00)
    = Value.ValueType_MVCC_EXTENDED_ENCODING_SENTINEL /\
  1 <= GoBytes.len [x68] <= 4 /\
  Value.SetBytes (Value.mk (Some [x00; x00; x00; x00; x65; x00; x00]) []) [x68]
    = inl Value.SliceBounds.
Proof.
  assert (H1 : Value.headerSize + GoBytes.len [x68] <=
               Value.cap (Value.mk (Some [x00; x00; x00; x00; x65; x00; x00]) []))
    by (vm_compute; discriminate).
  assert (H2 : GoBytes.byte_val (nth 4 ([x00; x00; x00; x00; x65; x00; x00] ++ []) x00)
               = Value.ValueType_MVCC_EXTENDED_ENCODING_SENTINEL) by reflexivity.
  assert (H3 : 1 <= GoBytes.len [x68] <= 4) by (vm_compute; split; discriminate).
  split; [exact H1|]. split; [exact H2|]. split; [exact H3|].
  exact (SetBytes_stale_sentinel _ _ H1 H2 H3).
Defined.

(* ================================================================== *)
(** ** Binary search and the sorted slices *)
(* ================================================================== *)

(** [sort.Search] on a predicate that is false up to [m] and true from
    there on returns [m]. *)
Lemma search_loop_spec (f : nat -> bool) (n m : nat) :
  (m <= n)%nat ->
  (forall k, (k < m)%nat -> f k = false) ->
  (forall k, (m <= k < n)%nat -> f k = true) ->
  forall fuel i j,
    (i <= m <= j)%nat -> (j <= n)%nat -> (j - i <= fuel)%nat ->
    Txn.search_loop fuel f i j = m.
Proof.
  intros Hm Hlo Hhi fuel. induction fuel as [|fuel IH]; intros i j Hij Hj Hf.
  - cbn. lia.
  - cbn [Txn.search_loop].
    destruct (Nat.ltb_spec i j) as [Hlt|Hge]; [|lia].
    assert (Hh : (i <= (i + j) / 2 < j)%nat).
    { split.
      - apply Nat.div_le_lower_bound; lia.
      - apply Nat.Div0.div_lt_upper_bound; lia. }
    set (h := ((i + j) / 2)%nat) in *.
    destruct (f h) eqn:Fh; cbn [negb].
    + apply IH; try lia.
      destruct (Nat.lt_ge_cases h m) as [C|C]; [|lia].
      rewrite (Hlo h C) in Fh. discriminate.
    + apply IH; try lia.
      destruct (Nat.lt_ge_cases h m) as [C|C]; [lia|].
      rewrite (Hhi h) in Fh by lia. discriminate.
Qed.

Lemma sort_Search_spec (f : nat -> bool) (n m : nat) :
  (m <= n)%nat ->
  (forall k, (k < m)%nat -> f k = false) ->
  (forall k, (m <= k < n)%nat -> f k = true) ->
  Txn.sort_Search n f = m.
Proof.
  intros. unfold Txn.sort_Search. apply (search_loop_spec f n m); auto; lia.
Qed.

Lemma strict_app {A} (R : A -> A -> Prop) (l r : list A) :
  StronglySorted R (l ++ r) <->
  StronglySorted R l /\ StronglySorted R r /\ Forall (fun a => Forall (R a) r) l.
Proof.
  induction l as [|a l IH]; cbn.
  - split.
    + intros H. repeat split; auto; constructor.
    + tauto.
  - split.
    + intros H. inversion H as [|? ? H1 H2]; subst.
      apply IH in H1 as (S1 & S2 & S3).
      apply Forall_app in H2 as (F1 & F2).
      repeat split; auto; constructor; auto.
    + intros (S1 & S2 & S3).
      inversion S1 as [|? ? H1 H2]; subst.
      inversion S3 as [|? ? H3 H4]; subst.
      constructor.
      * apply IH. auto.
      * apply Forall_app. auto.
Qed.

Section SortedSearch.

Variable A : Type.
Variable key : A -> Z.
Variable d : A.

(** Searching a slice that splits into the entries below [n] and the
    entries from [n] on finds the split point. *)
Lemma search_split (l r : list A) (n : Z) :
  Forall (fun a => key a < n) l ->
  Forall (fun a => n <= key a) r ->
  Txn.sort_Search (length (l ++ r)) (fun i => n <=? key (nth i (l ++ r) d)) = length l.
Proof.
  intros Hl Hr. apply sort_Search_spec.
  - rewrite length_app. lia.
  - intros k Hk. rewrite app_nth1 by exact Hk.
    apply Z.leb_gt. rewrite Forall_forall in Hl. apply Hl, nth_In, Hk.
  - intros k Hk. rewrite length_app in Hk. rewrite app_nth2 by lia.
    apply Z.leb_le. rewrite Forall_forall in Hr. apply Hr, nth_In. lia.
Qed.

(** A slice sorted without repetition splits at any [n] into the entries
    below it, possibly one entry at it, and the entries above it. *)
Lemma strict_split (s : list A) (n : Z) :
  StronglySorted (fun a b => key a < key b) s ->
  exists l r,
    s = l ++ r /\
    Forall (fun a => key a < n) l /\
    Forall (fun a => n <= key a) r /\
    match r with
    | [] => True
    | a :: r' => Forall (fun b => key a < key b) r'
    end.
Proof.
  induction 1 as [|a s Hs IH Ha].
  - exists [], []. repeat split; constructor.
  - destruct (Z.lt_ge_cases (key a) n) as [C|C].
    + destruct IH as (l & r & -> & Hl & Hr & Hm).
      exists (a :: l), r. repeat split; auto.
    + exists [], (a :: s). repeat split; auto.
      constructor; [exact C|].
      eapply Forall_impl; [|exact Ha]. cbn. intros; lia.
Qed.

(** The same for a slice in which keys may repeat. *)
Lemma weak_split (s : list A) (n : Z) :
  StronglySorted (fun a b => key a <= key b) s ->
  exists l r,
    s = l ++ r /\
    Forall (fun a => key a < n) l /\
    Forall (fun a => n <= key a) r.
Proof.
  induction 1 as [|a s Hs IH Ha].
  - exists [], []. repeat split; constructor.
  - destruct (Z.lt_ge_cases (key a) n) as [C|C].
    + destruct IH as (l & r & -> & Hl & Hr).
      exists (a :: l), r. repeat split; auto.
    + exists [], (a :: s). repeat split; auto.
      constructor; [exact C|].
      eapply Forall_impl; [|exact Ha]. cbn. intros; lia.
Qed.

End SortedSearch.

(** The view of a sorted observed-timestamp slice that [index], [get] and
    [update] work on. *)
Lemma obs_view (s : list Txn.ObservedTimestamp) (n : Z) :
  obs_sorted s ->
  exists l r,
    s = l ++ r /\ Txn.obs_index s n = length l /\
    Forall (fun a => Txn.NodeID a < n) l /\
    Forall (fun a => n <= Txn.NodeID a) r /\
    match r with
    | [] => True
    | a :: r' => Forall (fun b => Txn.NodeID a < Txn.NodeID b) r'
    end.
Proof.
  intros Hs.
  destruct (strict_split _ Txn.NodeID s n Hs) as (l & r & -> & Hl & Hr & Hm).
  exists l, r. repeat split; auto.
  unfold Txn.obs_index. apply search_split; assumption.
Qed.

Lemma nth_middle_len {A} (l r : list A) (a d : A) : nth (length l) (l ++ a :: r) d = a.
Proof. rewrite app_nth2 by lia. now rewrite Nat.sub_diag. Qed.

Lemma firstn_len_app {A} (l r : list A) : firstn (length l) (l ++ r) = l.
Proof. rewrite firstn_app, Nat.sub_diag, firstn_all. cbn. apply app_nil_r. Qed.

Lemma skipn_len_app {A} (l r : list A) : skipn (length l) (l ++ r) = r.
Proof. rewrite skipn_app, Nat.sub_diag, skipn_all. reflexivity. Qed.

Lemma skipn_S_len_app {A} (l r : list A) (a : A) : skipn (S (length l)) (l ++ a :: r) = r.
Proof.
  rewrite skipn_app. rewrite skipn_all2 by lia.
  replace (S (length l) - length l)%nat with 1%nat by lia. reflexivity.
Qed.

(** What [update] returns on a sorted slice, in terms of the view. *)
Lemma obs_update_view (l r : list Txn.ObservedTimestamp) (n : Z) (ts : hlc.Timestamp) :
  Txn.obs_index (l ++ r) n = length l ->
  Forall (fun a => n <= Txn.NodeID a) r ->
  Txn.obs_update (l ++ r) n ts =
    match r with
    | a :: r' =>
        if Txn.NodeID a =? n then
          if hlc.Less ts (Txn.ObsTimestamp a)
          then l ++ Txn.mkObs (Txn.NodeID a) ts :: r'
          else l ++ a :: r'
        else l ++ Txn.mkObs n ts :: a :: r'
    | [] => l ++ [Txn.mkObs n ts]
    end.
Proof.
  intros Hi Hr. unfold Txn.obs_update. rewrite Hi.
  destruct r as [|a r'].
  - rewrite app_nil_r.
    destruct (Nat.ltb_spec (length l) (length l)); [lia|]. cbn [andb].
    now rewrite firstn_all, skipn_all.
  - rewrite nth_middle_len, length_app. cbn [length].
    destruct (Nat.ltb_spec (length l) (length l + S (length r'))); [|lia]. cbn [andb].
    rewrite firstn_len_app, skipn_len_app, skipn_S_len_app. reflexivity.
Qed.

Lemma obs_get_view (l r : list Txn.ObservedTimestamp) (n : Z) :
  Txn.obs_index (l ++ r) n = length l ->
  Txn.obs_get (l ++ r) n =
    match r with
    | a :: _ => if Txn.NodeID a =? n then (Txn.ObsTimestamp a, true) else (hlc.zero, false)
    | [] => (hlc.zero, false)
    end.
Proof.
  intros Hi. unfold Txn.obs_get. rewrite Hi.
  destruct r as [|a r'].
  - rewrite app_nil_r. destruct (Nat.ltb_spec (length l) (length l)); [lia|]. reflexivity.
  - rewrite nth_middle_len, length_app. cbn [length].
    destruct (Nat.ltb_spec (length l) (length l + S (length r'))); [|lia]. reflexivity.
Qed.

(** [update] keeps an observed-timestamp slice sorted by node id without
    repetition, so the binary search of the next [get] or [update] is on
    a slice it can search. *)
Lemma obs_update_sorted (s : list Txn.ObservedTimestamp) (n : Z) (ts : hlc.Timestamp) :
  obs_sorted s -> obs_sorted (Txn.obs_update s n ts).
Proof.
  intros Hs.
  destruct (obs_view s n Hs) as (l & r & -> & Hi & Hl & Hr & Hm).
  rewrite (obs_update_view l r n ts Hi Hr).
  unfold obs_sorted in *.
  apply strict_app in Hs as (S1 & S2 & S3).
  destruct r as [|a r'].
  - apply strict_app. repeat split; auto.
    + repeat constructor.
    + eapply Forall_impl; [|exact Hl]. cbn. intros b Hb. repeat constructor. exact Hb.
  - inversion Hr as [|? ? Ha Hr']; subst.
    inversion S2 as [|? ? S2a S2b]; subst.
    destruct (Z.eqb_spec (Txn.NodeID a) n) as [E|E].
    + destruct (hlc.Less ts (Txn.ObsTimestamp a)).
      * apply strict_app. repeat split; auto.
        -- constructor; auto.
        -- eapply Forall_impl; [|exact S3]. cbn. intros b Hb.
           inversion Hb; subst. constructor; auto.
      * apply strict_app. repeat split; auto.
    + apply strict_app. repeat split; auto.
      * constructor; [exact S2|]. constructor; [cbn; lia|].
        eapply Forall_impl; [|exact S2b]. cbn. intros; lia.
      * rewrite Forall_forall in Hl, S3 |- *. intros b Hb.
        constructor; [cbn; apply Hl, Hb|apply S3, Hb].
Qed.

Lemma obs_eta (a : Txn.ObservedTimestamp) : Txn.mkObs (Txn.NodeID a) (Txn.ObsTimestamp a) = a.
Proof. now destruct a. Qed.

(** On a sorted slice [get] finds an entry exactly when it is there. *)
Lemma obs_get_In (s : list Txn.ObservedTimestamp) (a : Txn.ObservedTimestamp) :
  obs_sorted s -> In a s -> Txn.obs_get s (Txn.NodeID a) = (Txn.ObsTimestamp a, true).
Proof.
  intros Hs Ha.
  destruct (obs_view s (Txn.NodeID a) Hs) as (l & r & -> & Hi & Hl & Hr & Hm).
  rewrite (obs_get_view l r _ Hi).
  apply in_app_or in Ha as [Ha|Ha].
  - rewrite Forall_forall in Hl. specialize (Hl a Ha). lia.
  - destruct r as [|b r']; [contradiction|].
    destruct Ha as [->|Ha].
    + now rewrite Z.eqb_refl.
    + inversion Hr; subst. rewrite Forall_forall in Hm. specialize (Hm a Ha). lia.
Qed.

Lemma obs_get_cases (s : list Txn.ObservedTimestamp) (m : Z) :
  obs_sorted s ->
  (exists t, Txn.obs_get s m = (t, true) /\ In (Txn.mkObs m t) s) \/
  (Txn.obs_get s m = (hlc.zero, false) /\ forall a, In a s -> Txn.NodeID a <> m).
Proof.
  intros Hs.
  destruct (obs_view s m Hs) as (l & r & -> & Hi & Hl & Hr & Hm).
  rewrite (obs_get_view l r _ Hi).
  assert (Hl' : forall a, In a l -> Txn.NodeID a <> m).
  { intros a Ha. rewrite Forall_forall in Hl. specialize (Hl a Ha). lia. }
  destruct r as [|b r'].
  - right. split; [reflexivity|]. intros a Ha. rewrite app_nil_r in Ha. auto.
  - destruct (Z.eqb_spec (Txn.NodeID b) m) as [E|E].
    + left. exists (Txn.ObsTimestamp b). split; [reflexivity|].
      apply in_or_app. right. left. rewrite <- E. symmetry. apply obs_eta.
    + right. split; [reflexivity|]. intros a Ha.
      apply in_app_or in Ha as [Ha|[->|Ha]]; auto.
      inversion Hr; subst. rewrite Forall_forall in Hm. specialize (Hm a Ha). lia.
Qed.

(** [update] for node [n] leaves the entries of the other nodes as they
    are. *)
Lemma obs_update_others (s : list Txn.ObservedTimestamp) (n : Z) (ts : hlc.Timestamp)
    (b : Txn.ObservedTimestamp) :
  obs_sorted s -> Txn.NodeID b <> n ->
  (In b (Txn.obs_update s n ts) <-> In b s).
Proof.
  intros Hs Hb.
  destruct (obs_view s n Hs) as (l & r & -> & Hi & Hl & Hr & Hm).
  rewrite (obs_update_view l r n ts Hi Hr).
  destruct r as [|a r'].
  - rewrite !in_app_iff. cbn [In]. intuition (subst; cbn in *; congruence).
  - destruct (Z.eqb_spec (Txn.NodeID a) n) as [E|E];
      [destruct (hlc.Less ts (Txn.ObsTimestamp a))|];
      rewrite !in_app_iff; cbn [In];
      intuition (subst; cbn in *; congruence).
Qed.

(** X15. [observedTimestampSlice.update] on a slice sorted by node id: the
    slice stays sorted, the node updated then reads the lower of its old
    timestamp and the new one (the new one when it had none), and every
    other node reads as before. *)
Theorem obs_update_spec (s : list Txn.ObservedTimestamp) (n m : Z) (ts : hlc.Timestamp) :
  obs_sorted s ->
  obs_sorted (Txn.obs_update s n ts) /\
  Txn.obs_get (Txn.obs_update s n ts) n =
    (if snd (Txn.obs_get s n) then hlc.Backward (fst (Txn.obs_get s n)) ts else ts, true) /\
  (m <> n -> Txn.obs_get (Txn.obs_update s n ts) m = Txn.obs_get s m).
Proof.
  intros Hs. pose proof (obs_update_sorted s n ts Hs) as Hs'.
  split; [exact Hs'|]. split.
  - destruct (obs_view s n Hs) as (l & r & -> & Hi & Hl & Hr & Hm).
    rewrite (obs_get_view l r n Hi).
    rewrite (obs_update_view l r n ts Hi Hr) in *.
    assert (G : forall a t, obs_sorted (l ++ a :: t) -> Txn.NodeID a = n ->
                Txn.obs_get (l ++ a :: t) n = (Txn.ObsTimestamp a, true)).
    { intros a t Hst Ea. rewrite <- Ea. apply obs_get_In; [exact Hst|].
      apply in_or_app. right. now left. }
    destruct r as [|a r'].
    + cbn [snd]. apply (G (Txn.mkObs n ts) []); [exact Hs'|reflexivity].
    + destruct (Z.eqb_spec (Txn.NodeID a) n) as [E|E]; cbn [snd fst].
      * unfold hlc.Backward. destruct (hlc.Less ts (Txn.ObsTimestamp a)).
        -- apply (G (Txn.mkObs (Txn.NodeID a) ts) r'); [exact Hs'|exact E].
        -- apply (G a r'); [exact Hs'|exact E].
      * apply (G (Txn.mkObs n ts) (a :: r')); [exact Hs'|reflexivity].
  - intros Hmn.
    destruct (obs_get_cases s m Hs) as [(t & Hg & Hin)|(Hg & Hno)]; rewrite Hg.
    + apply (obs_get_In _ (Txn.mkObs m t) Hs').
      apply obs_update_others; auto.
    + destruct (obs_get_cases _ m Hs') as [(t & Hg' & Hin')|(Hg' & _)]; [|exact Hg'].
      apply obs_update_others in Hin'; auto.
      exfalso. exact (Hno _ Hin' eq_refl).
Qed.

Lemma obs_update_spec_witness :
  obs_sorted [Txn.mkObs 1 (hlc.mk 5 0); Txn.mkObs 4 (hlc.mk 7 0)] /\
  Txn.obs_get (Txn.obs_update [Txn.mkObs 1 (hlc.mk 5 0); Txn.mkObs 4 (hlc.mk 7 0)]
                              4 (hlc.mk 6 0)) 4 = (hlc.mk 6 0, true).
Proof.
  assert (H : obs_sorted [Txn.mkObs 1 (hlc.mk 5 0); Txn.mkObs 4 (hlc.mk 7 0)])
    by (repeat constructor).
  split; [exact H|].
  exact (proj1 (proj2 (obs_update_spec _ 4 1 (hlc.mk 6 0) H))).
Defined.

Lemma UpdateObservedTimestamp_update (x : Txn.t) (n : Z) (ts : hlc.Timestamp) :
  Txn.UpdateObservedTimestamp x n ts =
  Txn.set_ObservedTimestamps x (Txn.obs_update (Txn.ObservedTimestamps x) n ts).
Proof.
  unfold Txn.UpdateObservedTimestamp.
  destruct (Txn.ObservedTimestamps x) as [|o [|o' s]] eqn:E.
  - reflexivity.
  - destruct (Z.eqb_spec (Txn.NodeID o) n) as [En|En]; [|reflexivity].
    unfold Txn.obs_update, Txn.obs_index, Txn.sort_Search. cbn.
    rewrite En, Z.leb_refl. cbn. rewrite En, Z.eqb_refl.
    destruct (hlc.Less ts (Txn.ObsTimestamp o)); [reflexivity|].
    rewrite <- E. now destruct x.
  - reflexivity.
Qed.

(** X16. The fast paths of [UpdateObservedTimestamp] (no entry yet, or a
    single entry for the same node) give the slice the general path
    [observedTimestampSlice.update] would give. *)
Theorem UpdateObservedTimestamp_general (x : Txn.t) (n : Z) (ts : hlc.Timestamp) :
  Txn.UpdateObservedTimestamp x n ts =
  Txn.set_ObservedTimestamps x (Txn.obs_update (Txn.ObservedTimestamps x) n ts).
Proof. apply UpdateObservedTimestamp_update. Qed.

(** X17. [Find] on a slice sorted by sequence number returns -1 exactly when
    no write has the number, and otherwise the index of the first write
    that has it. *)
Theorem SequencedWriteBySeq_Find_spec (s : list Txn.SequencedWrite) (seq : Z) :
  sw_sorted s ->
  let r := Txn.SequencedWriteBySeq_Find s seq in
  (r = -1 /\ forall a, In a s -> Txn.SWSequence a <> seq) \/
  (0 <= r < Z.of_nat (length s) /\
   Txn.SWSequence (nth (Z.to_nat r) s Txn.sw_default) = seq /\
   forall k, (k < Z.to_nat r)%nat -> Txn.SWSequence (nth k s Txn.sw_default) < seq).
Proof.
  intros Hs r. subst r.
  destruct (weak_split _ Txn.SWSequence s seq Hs) as (l & q & -> & Hl & Hq).
  unfold Txn.SequencedWriteBySeq_Find.
  rewrite (search_split _ Txn.SWSequence Txn.sw_default l q seq Hl Hq).
  apply strict_app in Hs as (S1 & S2 & S3).
  assert (Hl' : forall a, In a l -> Txn.SWSequence a < seq).
  { intros a Ha. rewrite Forall_forall in Hl. exact (Hl a Ha). }
  destruct q as [|a q'].
  - left. rewrite app_nil_r.
    destruct (Nat.ltb_spec (length l) (length l)); [lia|]. cbn [andb].
    split; [reflexivity|]. intros a Ha. specialize (Hl' a Ha). lia.
  - rewrite nth_middle_len, length_app. cbn [length].
    destruct (Nat.ltb_spec (length l) (length l + S (length q'))); [|lia]. cbn [andb].
    destruct (Z.eqb_spec (Txn.SWSequence a) seq) as [E|E].
    + right. rewrite Nat2Z.id.
      split; [lia|]. split; [now rewrite nth_middle_len|].
      intros k Hk. rewrite app_nth1 by exact Hk. apply Hl', nth_In, Hk.
    + left. split; [reflexivity|]. intros b Hb.
      apply in_app_or in Hb as [Hb|[<-|Hb]].
      * specialize (Hl' b Hb). lia.
      * exact E.
      * inversion Hq; subst. inversion S2 as [|? ? _ F]; subst.
        rewrite Forall_forall in F. specialize (F b Hb). lia.
Qed.

Lemma SequencedWriteBySeq_Find_spec_witness :
  sw_sorted [Txn.mkSW [x61] 2; Txn.mkSW [x62] 5; Txn.mkSW [x63] 5] /\
  Txn.SequencedWriteBySeq_Find [Txn.mkSW [x61] 2; Txn.mkSW [x62] 5; Txn.mkSW [x63] 5] 5 = 1.
Proof.
  assert (H : sw_sorted [Txn.mkSW [x61] 2; Txn.mkSW [x62] 5; Txn.mkSW [x63] 5])
    by (repeat constructor; cbn; lia).
  split; [exact H|].
  destruct (SequencedWriteBySeq_Find_spec _ 5 H) as [[E _]|_]; [discriminate E|reflexivity].
Defined.

(** X18. [BumpReadTimestamp] moves neither timestamp backwards, brings the
    read timestamp up to the one given, and leaves the read timestamp at or
    below the write timestamp. *)
Theorem BumpReadTimestamp_spec (x : Txn.t) (timestamp : hlc.Timestamp) :
  let x' := Txn.BumpReadTimestamp x timestamp in
  ts_le (Txn.ReadTimestamp x) (Txn.ReadTimestamp x') /\
  ts_le timestamp (Txn.ReadTimestamp x') /\
  ts_le (Txn.WriteTimestamp x) (Txn.WriteTimestamp x') /\
  ts_le (Txn.ReadTimestamp x') (Txn.WriteTimestamp x') /\
  (ts_le timestamp (Txn.ReadTimestamp x) ->
   ts_le (Txn.ReadTimestamp x) (Txn.WriteTimestamp x) -> x' = x).
Proof.
  destruct x. cbn.
  repeat split; try (ts_arith; fail).
  intros H1 H2.
  unfold Txn.BumpReadTimestamp, Txn.set_WriteTimestamp, Txn.set_ReadTimestamp. cbn.
  assert (E1 : hlc.Forward ReadTimestamp timestamp = ReadTimestamp).
  { unfold hlc.Forward. destruct (hlc.Less ReadTimestamp timestamp) eqn:E; [|reflexivity].
    exfalso. clear H2. ts_arith. }
  rewrite E1.
  assert (E2 : hlc.Forward WriteTimestamp ReadTimestamp = WriteTimestamp).
  { unfold hlc.Forward. destruct (hlc.Less WriteTimestamp ReadTimestamp) eqn:E; [|reflexivity].
    exfalso. clear H1 E1. ts_arith. }
  now rewrite E2.
Qed.

(** [RequiredFrontier] is the latest of the read timestamp, the write
    timestamp and the global uncertainty limit; [LastActive] the later of
    the minimum timestamp and the last heartbeat. *)
Lemma RequiredFrontier_max (x : Txn.t) :
  let f := Txn.RequiredFrontier x in
  ts_le (Txn.ReadTimestamp x) f /\ ts_le (Txn.WriteTimestamp x) f /\
  ts_le (Txn.GlobalUncertaintyLimit x) f /\
  (f = Txn.ReadTimestamp x \/ f = Txn.WriteTimestamp x \/
   f = Txn.GlobalUncertaintyLimit x) /\
  ts_le (Txn.MinTimestamp x) (Txn.LastActive x) /\
  ts_le (Txn.LastHeartbeat x) (Txn.LastActive x).
Proof.
  destruct x. unfold Txn.RequiredFrontier, Txn.LastActive. cbn.
  repeat split; try (ts_arith; fail).
  unfold hlc.Forward.
  repeat match goal with |- context [if ?c then _ else _] => destruct c end; auto.
Qed.

(** X19. A transaction record taken back to a transaction and to a record
    again is the record it was; a transaction taken to a record and back
    keeps its persisted fields and has the others at their zero values. *)
Theorem AsRecord_AsTransaction (x : Txn.t) (r : Txn.TransactionRecord) :
  Txn.AsRecord (Txn.AsTransaction r) = r /\
  Txn.AsRecord (Txn.AsTransaction (Txn.AsRecord x)) = Txn.AsRecord x /\
  (Txn.AsTransaction (Txn.AsRecord x) = x <->
   Txn.Name x = [] /\ Txn.ReadTimestamp x = hlc.zero /\
   Txn.GlobalUncertaintyLimit x = hlc.zero /\ Txn.ObservedTimestamps x = [] /\
   Txn.ReadTimestampFixed x = false /\ Txn.AdmissionPriority x = 0 /\
   Txn.OmitInRangefeeds x = false).
Proof.
  destruct x, r. cbn.
  split; [reflexivity|]. split; [reflexivity|]. split.
  - intros H. injection H. intros. repeat split; congruence.
  - intros (-> & -> & -> & -> & -> & -> & ->). reflexivity.
Qed.

(* ================================================================== *)
(** ** More on [Update] *)
(* ================================================================== *)

(** X20. When [Update] ends the process.  A nil argument does nothing and a
    receiver without id takes the argument as it is; [Update] is fatal
    exactly for an uninitialized argument, for an argument with another id
    than the (non-zero) id of the receiver, and for equal epochs with a
    receiver whose status is none of the declared ones. *)
Theorem Update_fatal_iff (x o : Txn.t) (f : Txn.fatal) :
  Txn.Update x None = inr x /\
  (Txn.uninitialized o = false -> Txn.ID x = 0 -> Txn.Update x (Some o) = inr o) /\
  (Txn.Update x (Some o) = inl f <->
   (Txn.uninitialized o = true /\ f = Txn.UninitializedTxn) \/
   (Txn.uninitialized o = false /\ Txn.ID x <> 0 /\ Txn.ID x <> Txn.ID o /\
    f = Txn.DifferentTxn) \/
   (Txn.uninitialized o = false /\ Txn.ID x <> 0 /\ Txn.ID x = Txn.ID o /\
    Txn.Epoch x = Txn.Epoch o /\
    (exists n, Txn.Status x = Txn.UndeclaredStatus n) /\
    f = Txn.UnexpectedStatus (Txn.Status x))).
Proof.
  split; [reflexivity|]. split.
  - intros Hu Hid. unfold Txn.Update. rewrite Hu, Hid. reflexivity.
  - unfold Txn.Update.
    destruct (Txn.uninitialized o) eqn:Hu.
    { split.
      - intros H. injection H as <-. auto.
      - intros [(_ & ->)|[(C & _)|(C & _)]]; [reflexivity|discriminate|discriminate]. }
    destruct (Z.eqb_spec (Txn.ID x) 0) as [Hz|Hz].
    { split; [discriminate|].
      intros [(C & _)|[(_ & C & _)|(_ & C & _)]]; [discriminate|contradiction|contradiction]. }
    destruct (Z.eqb_spec (Txn.ID x) (Txn.ID o)) as [Hi|Hi]; cbn [negb].
    2:{ split.
        - intros H. injection H as <-. auto 10.
        - intros [(C & _)|[(_ & _ & _ & ->)|(_ & _ & C & _)]];
            [discriminate|reflexivity|contradiction]. }
    destruct (Z.ltb_spec (Txn.Epoch x) (Txn.Epoch o)) as [L|L].
    { split; [discriminate|].
      intros [(C & _)|[(_ & _ & C & _)|(_ & _ & _ & C & _)]];
        [discriminate|contradiction|lia]. }
    destruct (Z.eqb_spec (Txn.Epoch x) (Txn.Epoch o)) as [E|E].
    2:{ split; [destruct (Txn.Status o); discriminate|].
        intros [(C & _)|[(_ & _ & C & _)|(_ & _ & _ & C & _)]];
          [discriminate|contradiction|contradiction]. }
    destruct (Txn.Status x) eqn:S;
      try (split; [discriminate|];
           intros [(C & _)|[(_ & _ & C & _)|(_ & _ & _ & _ & (m & C) & _)]];
           [discriminate|contradiction|discriminate]).
    split.
    + intros H. injection H as <-. right. right. eauto 10.
    + intros [(C & _)|[(_ & _ & C & _)|(_ & _ & _ & _ & _ & ->)]];
        [discriminate|contradiction|reflexivity].
Qed.

(** X21. [Update] ratchets the epoch and the priority.  On transactions with
    the same non-zero id the receiver ends with the larger epoch, and with
    the larger priority unless its own is the minimum sentinel, which it
    keeps. *)
Theorem Update_epoch_priority (x o x' : Txn.t) :
  Txn.ID x <> 0 -> Txn.ID x = Txn.ID o ->
  Txn.Update x (Some o) = inr x' ->
  Txn.Epoch x' = Z.max (Txn.Epoch x) (Txn.Epoch o) /\
  Txn.Priority x' =
    (if Txn.Priority x =? Txn.MinTxnPriority then Txn.MinTxnPriority
     else Z.max (Txn.Priority x) (Txn.Priority o)) /\
  Txn.Priority x <= Txn.Priority x'.
Proof.
  intros Hid Hsame H.
  destruct (Update_same_id x o x' Hid Hsame H) as (_ & _ & _ & _ & _ & _ & _ & _ & He).
  split; [exact He|].
  assert (P : Txn.Priority x' =
              if Txn.Priority x =? Txn.MinTxnPriority then Txn.Priority x
              else Z.max (Txn.Priority x) (Txn.Priority o)).
  { revert H. unfold Txn.Update.
    destruct (Txn.uninitialized o); [discriminate|].
    destruct (Z.eqb_spec (Txn.ID x) 0); [contradiction|].
    destruct (Z.eqb_spec (Txn.ID x) (Txn.ID o)); [|contradiction].
    cbn [negb].
    match goal with
    | |- match ?sc with inl _ => _ | inr _ => _ end = _ -> _ => destruct sc as [?|sc']
    end; [discriminate|].
    destruct sc' as [[[[[[st ep] fx] sq] lk] fl] ig].
    intros H. injection H as <-. cbn [Txn.Priority].
    rewrite UpgradePriority_priority.
    match goal with
    | |- context [fold_left ?g ?l ?z] =>
        destruct (fold_UpdateObservedTimestamp_core l z) as [_ P]
    end.
    cbv zeta in P. rewrite P. reflexivity. }
  rewrite P.
  destruct (Z.eqb_spec (Txn.Priority x) Txn.MinTxnPriority) as [E|E]; split; lia.
Qed.

Lemma Update_epoch_priority_witness :
  let a := sample_txn 1 5 Txn.PENDING 10 10 5 in
  let b := sample_txn 9 70 Txn.PENDING 10 10 5 in
  Txn.ID a <> 0 /\ Txn.ID a = Txn.ID b /\
  exists x', Txn.Update a (Some b) = inr x' /\ Txn.Epoch x' = 9 /\ Txn.Priority x' = 70.
Proof.
  intros a b.
  assert (H : Txn.ID a <> 0) by (vm_compute; discriminate).
  split; [exact H|]. split; [reflexivity|].
  destruct (Txn.Update a (Some b)) as [f|x'] eqn:U; [vm_compute in U; discriminate U|].
  exists x'. split; [reflexivity|].
  destruct (Update_epoch_priority a b x' H eq_refl U) as (E & P & _).
  rewrite E, P. split; reflexivity.
Defined.

(** An entry of a sorted slice updated with its own timestamp leaves the
    slice as it is. *)
Lemma obs_update_own (s : list Txn.ObservedTimestamp) (v : Txn.ObservedTimestamp) :
  obs_sorted s -> In v s ->
  Txn.obs_update s (Txn.NodeID v) (Txn.ObsTimestamp v) = s.
Proof.
  intros Hs Hv.
  destruct (obs_view s (Txn.NodeID v) Hs) as (l & r & -> & Hi & Hl & Hr & Hm).
  rewrite (obs_update_view l r _ _ Hi Hr).
  apply in_app_or in Hv as [Hv|Hv].
  - rewrite Forall_forall in Hl. specialize (Hl v Hv). lia.
  - destruct r as [|b r']; [contradiction|].
    destruct Hv as [->|Hv].
    + rewrite Z.eqb_refl.
      assert (L : hlc.Less (Txn.ObsTimestamp v) (Txn.ObsTimestamp v) = false) by ts_arith.
      now rewrite L.
    + inversion Hr; subst. rewrite Forall_forall in Hm. specialize (Hm v Hv). lia.
Qed.

Lemma fold_UpdateObservedTimestamp_own (l : list Txn.ObservedTimestamp) (y : Txn.t) :
  obs_sorted (Txn.ObservedTimestamps y) ->
  (forall v, In v l -> In v (Txn.ObservedTimestamps y)) ->
  fold_left (fun acc v =>
     Txn.UpdateObservedTimestamp acc (Txn.NodeID v) (Txn.ObsTimestamp v)) l y = y.
Proof.
  intros Hs. induction l as [|v l IH]; intros Hin; cbn [fold_left].
  - reflexivity.
  - rewrite UpdateObservedTimestamp_update.
    rewrite obs_update_own by (auto; apply Hin; now left).
    replace (Txn.set_ObservedTimestamps y (Txn.ObservedTimestamps y)) with y
      by (now destruct y).
    apply IH. intros w Hw. apply Hin. now right.
Qed.

(** X22. Merging a transaction into itself changes nothing: for an
    initialized transaction with a declared status and observed timestamps
    sorted by node, [t.Update(t)] leaves [t] as it is. *)
Theorem Update_idempotent (x : Txn.t) :
  Txn.uninitialized x = false ->
  (forall n, Txn.Status x <> Txn.UndeclaredStatus n) ->
  obs_sorted (Txn.ObservedTimestamps x) ->
  Txn.Update x (Some x) = inr x.
Proof.
  intros Hu Hst Hs. unfold Txn.Update. rewrite Hu.
  assert (Hid : Txn.ID x <> 0).
  { unfold Txn.uninitialized in Hu. apply orb_false_iff in Hu as [Hu _]. lia. }
  destruct (Z.eqb_spec (Txn.ID x) 0); [contradiction|].
  rewrite Z.eqb_refl, Z.ltb_irrefl, Z.eqb_refl, ts_Equal_refl, orb_diag. cbn [negb].
  assert (F : forall t, hlc.Forward t t = t).
  { intros t. unfold hlc.Forward. now destruct (hlc.Less t t). }
  assert (B : forall t, hlc.Backward t t = t).
  { intros t. unfold hlc.Backward. now destruct (hlc.Less t t). }
  rewrite !F, B.
  replace (if GoBytes.len (Txn.Key x) =? 0 then Txn.Key x else Txn.Key x)
    with (Txn.Key x) by (now destruct (_ =? _)).
  replace (if hlc.IsEmpty (Txn.MinTimestamp x) then Txn.MinTimestamp x
           else if negb (hlc.IsEmpty (Txn.MinTimestamp x)) then Txn.MinTimestamp x
                else Txn.MinTimestamp x)
    with (Txn.MinTimestamp x) by (now destruct (hlc.IsEmpty _)).
  assert (St : exists st,
             match Txn.Status x with
             | Txn.PENDING => inr (Txn.Status x)
             | Txn.PREPARED | Txn.STAGING =>
                 inr (if negb (Txn.status_eqb (Txn.Status x) Txn.PENDING)
                      then Txn.Status x else Txn.Status x)
             | Txn.UndeclaredStatus _ => inl (Txn.UnexpectedStatus (Txn.Status x))
             | _ => inr (Txn.Status x)
             end = inr st /\ st = Txn.Status x).
  { destruct (Txn.Status x) eqn:E; try (eexists; split; reflexivity).
    exfalso. exact (Hst n0 eq_refl). }
  destruct St as (st & -> & ->).
  match goal with |- context [fold_left ?g ?l ?z] => set (y := z) end.
  assert (Y : y = x).
  { subst y. destruct x as [? ? ? ? ? ? ? sq ? ? ? ? ? ? ? ? lk fl ig ? ?]. cbn.
    rewrite Z.ltb_irrefl. now destruct lk, fl, ig. }
  clearbody y. subst y.
  rewrite fold_UpdateObservedTimestamp_own by auto.
  unfold Txn.UpgradePriority. rewrite Z.ltb_irrefl. cbn [andb].
  replace (if negb (Txn.AdmissionPriority x =? 0) then Txn.AdmissionPriority x
           else Txn.AdmissionPriority x)
    with (Txn.AdmissionPriority x) by (now destruct (negb _)).
  replace (if Txn.OmitInRangefeeds x then Txn.OmitInRangefeeds x else Txn.OmitInRangefeeds x)
    with (Txn.OmitInRangefeeds x) by (now destruct (Txn.OmitInRangefeeds x)).
  now destruct x.
Qed.

Lemma Update_idempotent_witness :
  Txn.uninitialized (sample_txn 1 5 Txn.PENDING 10 10 5) = false /\ Txn.Update (sample_txn 1 5 Txn.PENDING 10 10 5) (Some (sample_txn 1 5 Txn.PENDING 10 10 5)) = inr (sample_txn 1 5 Txn.PENDING 10 10 5).
Proof.
  assert (H1 : Txn.uninitialized (sample_txn 1 5 Txn.PENDING 10 10 5) = false) by reflexivity.
  split; [exact H1|].
  apply (Update_idempotent (sample_txn 1 5 Txn.PENDING 10 10 5) H1).
  - intros n. vm_compute. discriminate.
  - vm_compute. repeat constructor.
Defined.

(* ================================================================== *)
(** ** More on leases *)
(* ================================================================== *)

Lemma ts_LessEq_refl a : hlc.LessEq a a = true.
Proof. ts_arith. Qed.

Lemma ptr_eqb_refl (p : option Lease.tsptr) : Lease.ptr_eqb p p = true.
Proof. destruct p; cbn; [apply Z.eqb_refl|reflexivity]. Qed.

Lemma struct_eqb_refl (l : Lease.t) : Lease.struct_eqb l l = true.
Proof.
  unfold Lease.struct_eqb, Lease.replica_eqb.
  now rewrite !ts_Equal_refl, !ptr_eqb_refl, !Z.eqb_refl.
Qed.

(** X23. Every lease that has a type is equivalent to itself, whatever the
    promotion flag; [Equivalent] panics on a lease with itself only when
    [Type] does. *)
Theorem Equivalent_refl (l : Lease.t) (flag : bool) :
  (forall ty, Lease.Type' l = inr ty -> Lease.Equivalent l l flag = inr true) /\
  (forall p, Lease.Type' l = inl p -> Lease.Equivalent l l flag = inl p).
Proof.
  split.
  - intros ty Hty. unfold Lease.Equivalent. rewrite !Type'_strip, Hty.
    apply Type'_inv in Hty as [(-> & _)|[(-> & _)|(-> & _)]].
    + cbn [Lease.set_Expiration Lease.Epoch Lease.MinExpiration].
      rewrite Z.eqb_refl. cbn [Lease.set_Epoch Lease.MinExpiration].
      rewrite ts_LessEq_refl. now rewrite struct_eqb_refl.
    + rewrite Z.eqb_refl. cbn [Lease.set_Term Lease.MinExpiration].
      rewrite ts_LessEq_refl. now rewrite struct_eqb_refl.
    + rewrite ts_LessEq_refl. now rewrite struct_eqb_refl.
  - intros p Hp. unfold Lease.Equivalent. now rewrite !Type'_strip, Hp.
Qed.

Lemma Equivalent_refl_witness :
  Lease.Type' (sample_epoch_lease 3) = inr Lease.LeaseEpoch /\
  Lease.Equivalent (sample_epoch_lease 3) (sample_epoch_lease 3) false = inr true.
Proof.
  assert (H : Lease.Type' (sample_epoch_lease 3) = inr Lease.LeaseEpoch) by reflexivity.
  split; [exact H|].
  exact (proj1 (Equivalent_refl (sample_epoch_lease 3) false) _ H).
Defined.

(** X24. Between two expiration-based leases that agree on start, replica and
    minimum expiration, an extension of the expiration is equivalent, and a
    shortening through another pointer is not. *)
Theorem Equivalent_extension (l newL : Lease.t) (flag : bool) :
  Lease.Type' l = inr Lease.LeaseExpiration ->
  Lease.Type' newL = inr Lease.LeaseExpiration ->
  Lease.Start l = Lease.Start newL -> same_replica l newL ->
  Lease.MinExpiration l = Lease.MinExpiration newL ->
  (ts_le (Lease.GetExpiration l) (Lease.GetExpiration newL) ->
   Lease.Equivalent l newL flag = inr true) /\
  (~ ts_le (Lease.GetExpiration l) (Lease.GetExpiration newL) ->
   Lease.Equivalent l newL flag =
     inr (Lease.ptr_eqb (Lease.Expiration l) (Lease.Expiration newL))).
Proof.
  intros Tl Tn Hs (R1 & R2 & R3) Hm.
  unfold Lease.Equivalent. rewrite !Type'_strip, Tl, Tn.
  apply Type'_inv in Tl as [(C & _)|[(C & _)|(_ & El & Tl)]]; try discriminate C.
  apply Type'_inv in Tn as [(C & _)|[(C & _)|(_ & En & Tn)]]; try discriminate C.
  destruct l as [sl xl [nl stl rl tyl] dl pl el ql al ml tl].
  destruct newL as [sn xn [nn stn rn tyn] dn pn en qn an mn tn].
  cbn in *. subst.
  unfold ts_le, Lease.GetExpiration.
  cbn [Lease.Expiration Lease.set_Epoch Lease.strip].
  split; intros H.
  - rewrite H. unfold Lease.struct_eqb, Lease.replica_eqb. cbn.
    now rewrite !ts_Equal_refl, !Z.eqb_refl.
  - apply not_true_is_false in H. rewrite H.
    unfold Lease.struct_eqb, Lease.replica_eqb. cbn.
    rewrite !ts_Equal_refl, !Z.eqb_refl. cbn.
    now rewrite !andb_true_r.
Qed.

Lemma Equivalent_extension_witness :
  Lease.Type' (sample_expiration_lease 20) = inr Lease.LeaseExpiration /\
  Lease.Equivalent (sample_expiration_lease 20) (sample_expiration_lease 30) false = inr true.
Proof.
  assert (H1 : Lease.Type' (sample_expiration_lease 20) = inr Lease.LeaseExpiration)
    by reflexivity.
  assert (H2 : Lease.Type' (sample_expiration_lease 30) = inr Lease.LeaseExpiration)
    by reflexivity.
  assert (H4 : same_replica (sample_expiration_lease 20) (sample_expiration_lease 30))
    by (repeat split; reflexivity).
  split; [exact H1|].
  apply (proj1 (Equivalent_extension _ _ false H1 H2 eq_refl H4 eq_refl)).
  reflexivity.
Defined.

(** X25. The promotion of an expiration-based lease.  To an epoch-based
    lease it is equivalent only with the flag: without it the answer is
    false whatever the other fields.  To a leader lease it is equivalent
    with or without the flag. *)
Theorem Equivalent_promotion (E N : Lease.t) (flag : bool) :
  Lease.Type' E = inr Lease.LeaseExpiration ->
  (Lease.Type' N = inr Lease.LeaseEpoch -> Lease.Equivalent E N false = inr false) /\
  (Lease.Type' N = inr Lease.LeaseLeader ->
   Lease.MinExpiration E = hlc.zero -> Lease.Expiration N = None ->
   Lease.Start E = Lease.Start N -> same_replica E N ->
   Lease.Equivalent E N flag = inr true).
Proof.
  intros TE. split.
  - intros TN. unfold Lease.Equivalent. rewrite !Type'_strip, TE, TN.
    apply Type'_inv in TE as [(C & _)|[(C & _)|(_ & Ee & Et)]]; try discriminate C.
    apply Type'_inv in TN as [(_ & Ne & Nt)|[(C & _)|(C & _)]]; try discriminate C.
    f_equal. apply not_true_is_false. intros Q.
    apply struct_eqb_epoch_term in Q. cbn in Q. lia.
  - intros TN Hm Hx Hs (R1 & R2 & R3).
    unfold Lease.Equivalent. rewrite !Type'_strip, TE, TN.
    apply Type'_inv in TE as [(C & _)|[(C & _)|(_ & Ee & Et)]]; try discriminate C.
    apply Type'_inv in TN as [(C & _)|[(_ & Ne & Nt)|(C & _)]]; try discriminate C.
    destruct E as [sE xE [nE stE rE tyE] dE pE eE qE aE mE tE].
    destruct N as [sN xN [nN stN rN tyN] dN pN eN qN aN mN tN].
    cbn in *. subst.
    unfold Lease.struct_eqb, Lease.replica_eqb. cbn.
    now rewrite !ts_Equal_refl, !Z.eqb_refl.
Qed.

Lemma Equivalent_promotion_witness :
  Lease.Type' (sample_expiration_lease 20) = inr Lease.LeaseExpiration /\
  Lease.Type' (sample_epoch_lease 3) = inr Lease.LeaseEpoch /\
  Lease.Equivalent (sample_expiration_lease 20) (sample_epoch_lease 3) false = inr false.
Proof.
  assert (H1 : Lease.Type' (sample_expiration_lease 20) = inr Lease.LeaseExpiration)
    by reflexivity.
  assert (H2 : Lease.Type' (sample_epoch_lease 3) = inr Lease.LeaseEpoch) by reflexivity.
  split; [exact H1|]. split; [exact H2|].
  exact (proj1 (Equivalent_promotion _ (sample_epoch_lease 3) false H1) H2).
Defined.

(** X26. The lease type decides quiescence and sleep.  Both methods panic
    exactly when epoch and term are both set; otherwise exactly the
    epoch-based leases support quiescence and exactly the leader leases
    support sleep, so no lease supports both. *)
Theorem Supports_by_type (l : Lease.t) :
  (forall p, Lease.SupportsQuiescence l = inl p <->
             Lease.Epoch l <> 0 /\ Lease.Term l <> 0 /\ p = Lease.BothEpochAndTerm) /\
  (forall p, Lease.SupportsSleep l = inl p <-> Lease.SupportsQuiescence l = inl p) /\
  (Lease.SupportsQuiescence l = inr true <-> Lease.Epoch l <> 0 /\ Lease.Term l = 0) /\
  (Lease.SupportsSleep l = inr true <-> Lease.Epoch l = 0 /\ Lease.Term l <> 0) /\
  ~ (Lease.SupportsQuiescence l = inr true /\ Lease.SupportsSleep l = inr true).
Proof.
  unfold Lease.SupportsQuiescence, Lease.SupportsSleep, Lease.Type'.
  destruct (Z.eqb_spec (Lease.Epoch l) 0) as [E|E],
           (Z.eqb_spec (Lease.Term l) 0) as [T|T]; cbn;
    (split; [intros p|split; [intros p|]]);
    intuition (try congruence; try discriminate).
Qed.

(** [equivalentTimestamps] is an equivalence on timestamp pointers that
    identifies nil with a pointer to the zero timestamp. *)
Lemma equivalentTimestamps_equivalence (a b c : option Lease.tsptr) :
  Lease.equivalentTimestamps a a = true /\
  Lease.equivalentTimestamps a b = Lease.equivalentTimestamps b a /\
  (Lease.equivalentTimestamps a b = true -> Lease.equivalentTimestamps b c = true ->
   Lease.equivalentTimestamps a c = true) /\
  Lease.equivalentTimestamps None (Some (Lease.mkPtr 0 hlc.zero)) = true.
Proof.
  assert (S : forall x y, hlc.Equal x y = hlc.Equal y x).
  { intros x y. unfold hlc.Equal. f_equal; apply Z.eqb_sym. }
  unfold Lease.equivalentTimestamps, hlc.IsEmpty.
  repeat split.
  - destruct a; [apply ts_Equal_refl|reflexivity].
  - destruct a, b; auto.
  - destruct a as [p|], b as [q|], c as [r|]; auto;
      rewrite ?ts_Equal_spec; try congruence.
Qed.

(* ================================================================== *)
(** ** More on the batcher *)
(* ================================================================== *)

Lemma updateMVCCStats_consistent_aux (E : Batcher.Env) (m : Batcher.MVCCStats)
    (k : Batcher.MVCCKey) (value : list byte) :
  stats_consistent m -> stats_consistent (Batcher.updateMVCCStats E m k value).
Proof.
  intros (Hb & Hc & Hv). unfold stats_consistent, Batcher.updateMVCCStats.
  cbn [Batcher.LiveBytes Batcher.LiveCount Batcher.KeyBytes Batcher.KeyCount
       Batcher.ValBytes Batcher.ValCount].
  rewrite Hb, Hc, Hv.
  split; [|split; reflexivity].
  generalize (wrap_i64 (GoBytes.len (Batcher.Key k) + 1)). intros mk.
  unfold wrap_i64. Z.div_mod_to_equations. lia.
Qed.

(** [updateMVCCStats] keeps the counters of a batch consistent: live
    bytes are key bytes plus value bytes (on int64), and the live, key and
    value counts agree; the update time is left alone. *)
Lemma updateMVCCStats_consistent (E : Batcher.Env) (m : Batcher.MVCCStats)
    (k : Batcher.MVCCKey) (value : list byte) :
  stats_consistent m ->
  stats_consistent (Batcher.updateMVCCStats E m k value) /\
  Batcher.KeyCount (Batcher.updateMVCCStats E m k value) = wrap_i64 (Batcher.KeyCount m + 1) /\
  Batcher.LastUpdateNanos (Batcher.updateMVCCStats E m k value) = Batcher.LastUpdateNanos m.
Proof.
  intros H. split; [apply updateMVCCStats_consistent_aux, H|].
  destruct H as (Hb & Hc & Hv). split; reflexivity.
Qed.

Lemma updateMVCCStats_consistent_witness :
  stats_consistent Batcher.MVCCStats_zero /\
  stats_consistent (Batcher.updateMVCCStats (example_env 1000) Batcher.MVCCStats_zero
                      (key_at x61) [x78]).
Proof.
  assert (H : stats_consistent Batcher.MVCCStats_zero) by (repeat split).
  split; [exact H|].
  exact (proj1 (updateMVCCStats_consistent (example_env 1000) _ (key_at x61) [x78] H)).
Defined.

Section FlushEffects.

Context {E : Batcher.Env}.

Lemma splitFullRange_ms (b : Batcher.State E) (s e : Key) :
  Batcher.ms (Batcher.splitFullRange E b s e) = Batcher.ms b.
Proof.
  unfold Batcher.splitFullRange.
  repeat match goal with
    | |- context [if ?c then _ else _] => destruct c
    | |- context [match ?c with Some _ => _ | None => _ end] => destruct c
    end; reflexivity.
Qed.

Lemma prepare_ms (b : Batcher.State E) (why : Batcher.reason) (s e : Key) (size : Z) :
  stats_consistent (Batcher.ms b) ->
  stats_consistent (Batcher.ms (Batcher.prepare E b why s e size)).
Proof.
  intros H. unfold Batcher.prepare.
  set (b1 := Batcher.set_currentStats E b _).
  set (b2 := if _ && _ then _ else b1).
  assert (M : Batcher.ms b2 = Batcher.ms b).
  { subst b2. destruct (_ && _); [rewrite splitFullRange_ms|]; reflexivity. }
  destruct (negb _); [|now rewrite M].
  cbn. rewrite M. exact H.
Qed.

Lemma absorbResult_ms (rs : list Batcher.addResult) :
  forall b : Batcher.State E,
    Batcher.ms (fold_left (Batcher.absorbResult E) rs b) = Batcher.ms b.
Proof.
  induction rs as [|r rs IH]; intros b; cbn [fold_left]; [reflexivity|].
  rewrite IH. unfold Batcher.absorbResult.
  destruct (Batcher.writeAtBatchTS b), (Span.Valid (Batcher.rangeSpan r)); reflexivity.
Qed.

(** What [send] does whether or not it succeeds: the batch and the
    statistics stay, and at most the one file is sent. *)
Lemma send_general (b : Batcher.State E) (why : Batcher.reason) (s e : Key) (size : Z) :
  let b1 := fst (Batcher.send E b why s e size) in
  same_batch b1 b /\ Batcher.ms b1 = Batcher.ms b /\
  (sent_spans (Batcher.trace b1) = sent_spans (Batcher.trace b) \/
   sent_spans (Batcher.trace b1) = sent_spans (Batcher.trace b) ++ [(why, s, e)]).
Proof.
  unfold Batcher.send.
  destruct (Batcher.LimiterBegin E).
  { cbn. unfold same_batch. auto. }
  destruct (Batcher.AddSSTable E _ _ _ _ _) as [code|rs].
  { cbn. unfold same_batch. repeat split.
    right. rewrite sent_spans_app. reflexivity. }
  cbn [fst].
  match goal with
  | |- context [fold_left (Batcher.absorbResult E) ?rs ?b0] =>
      destruct (absorbResult_keeps rs b0) as (S & T & U);
      pose proof (absorbResult_ms rs b0) as M;
      set (b2 := fold_left (Batcher.absorbResult E) rs b0) in *
  end.
  unfold same_batch in *.
  assert (O : Batcher.onFlush b2 = Batcher.onFlush b).
  { unfold batch_view in S. cbn in S. congruence. }
  destruct (Batcher.onFlush b2); cbn;
    (split; [exact S|]); (split; [exact M|]); right;
    rewrite ?sent_spans_app, T; cbn; rewrite sent_spans_app; cbn;
    rewrite ?app_nil_r; reflexivity.
Qed.

Lemma same_batch_keys (a b : Batcher.State E) : same_batch a b -> batch_keys a = batch_keys b.
Proof.
  unfold same_batch, batch_view, batch_keys. intros H.
  injection H as _ _ _ _ _ _ _ _ _ _ -> -> -> -> -> ->. reflexivity.
Qed.

(** What [doFlush] does whether or not it succeeds: the keys of the batch
    stay, the statistics stay consistent, and at most the one file that
    covers the batch is sent. *)
Lemma doFlush_general (b : Batcher.State E) (why : Batcher.reason) :
  let b1 := fst (Batcher.doFlush E b why) in
  batch_keys b1 = batch_keys b /\
  (stats_consistent (Batcher.ms b) -> stats_consistent (Batcher.ms b1)) /\
  (sent_spans (Batcher.trace b1) = sent_spans (Batcher.trace b) \/
   sent_spans (Batcher.trace b1) =
     sent_spans (Batcher.trace b) ++
     [(why, Batcher.batchStartKey b, KeyOrd.Next (Batcher.batchEndKey b))]).
Proof.
  unfold Batcher.doFlush.
  destruct (_ =? 0); [cbn; auto|].
  destruct (Batcher.ingestDelay E); [cbn; auto|].
  cbn [Batcher.set_currentStats Batcher.sstWriter].
  destruct (Batcher.Finish E (Batcher.sstWriter b)) as [w [code|]]; [cbn; auto|].
  match goal with
  | |- context [Batcher.send E (Batcher.prepare E ?b0 ?y ?s ?e ?z) _ _ _ _] =>
      destruct (prepare_keeps b0 y s e z) as (P1 & P2);
      pose proof (prepare_ms b0 y s e z) as P3;
      destruct (send_general (Batcher.prepare E b0 y s e z) y s e z) as (S1 & S2 & S3)
  end.
  cbn zeta.
  apply same_batch_keys in P1, S1.
  split; [|split].
  - rewrite S1, P1. reflexivity.
  - intros H. rewrite S2. apply P3. exact H.
  - rewrite P2 in S3. exact S3.
Qed.

(** The same for the flush check: the batch is either as it was or reset. *)
Lemma flushIfNeeded_general (b : Batcher.State E) (nextKey : Key) :
  let b1 := fst (Batcher.flushIfNeeded E b nextKey) in
  ((Batcher.batchStartKey b1 = Batcher.batchStartKey b /\
    Batcher.batchEndKey b1 = Batcher.batchEndKey b) \/
   (Batcher.batchStartKey b1 = [] /\ Batcher.batchEndKey b1 = [])) /\
  (stats_consistent (Batcher.ms b) -> stats_consistent (Batcher.ms b1)) /\
  (sent_spans (Batcher.trace b1) = sent_spans (Batcher.trace b) \/
   exists why,
     sent_spans (Batcher.trace b1) =
       sent_spans (Batcher.trace b) ++
       [(why, Batcher.batchStartKey b, KeyOrd.Next (Batcher.batchEndKey b))]).
Proof.
  unfold Batcher.flushIfNeeded.
  set (b0 := match Batcher.rc b with Some _ => _ | None => b end).
  assert (K : Batcher.batchStartKey b0 = Batcher.batchStartKey b /\
              Batcher.batchEndKey b0 = Batcher.batchEndKey b /\
              Batcher.ms b0 = Batcher.ms b /\ Batcher.trace b0 = Batcher.trace b).
  { subst b0. destruct (Batcher.rc b) as [cache|]; [|auto].
    destruct (negb _); [|auto].
    destruct (Batcher.Addr E nextKey) as [k|]; [|cbn; auto].
    destruct (cache k); cbn; auto. }
  destruct K as (K1 & K2 & K3 & K4).
  assert (F : forall why,
            let r := match Batcher.doFlush E b0 why with
                     | (b', Some err) => (b', Some err)
                     | (b', None) => (Batcher.Reset E b', None)
                     end in
            ((Batcher.batchStartKey (fst r) = Batcher.batchStartKey b /\
              Batcher.batchEndKey (fst r) = Batcher.batchEndKey b) \/
             (Batcher.batchStartKey (fst r) = [] /\ Batcher.batchEndKey (fst r) = [])) /\
            (stats_consistent (Batcher.ms b) -> stats_consistent (Batcher.ms (fst r))) /\
            (sent_spans (Batcher.trace (fst r)) = sent_spans (Batcher.trace b) \/
             exists why,
               sent_spans (Batcher.trace (fst r)) =
                 sent_spans (Batcher.trace b) ++
                 [(why, Batcher.batchStartKey b, KeyOrd.Next (Batcher.batchEndKey b))])).
  { intros why. destruct (doFlush_general b0 why) as (D1 & D2 & D3).
    unfold batch_keys in D1. injection D1 as D1a D1b _ _ _ _.
    rewrite K1 in D1a. rewrite K2 in D1b. rewrite K3 in D2. rewrite K4, K1, K2 in D3.
    destruct (Batcher.doFlush E b0 why) as [b' [err|]]; cbn [fst] in *.
    - split; [left; auto|]. split; [exact D2|].
      destruct D3 as [D3|D3]; [left|right; exists why]; exact D3.
    - split; [right; split; reflexivity|]. split; [intros _; repeat split|].
      cbn [Batcher.Reset Batcher.trace].
      destruct D3 as [D3|D3]; [left|right; exists why]; exact D3. }
  destruct (match Batcher.flushKey b0 with Some _ => _ | None => false end).
  { apply F. }
  destruct (_ <=? _).
  2:{ cbn [fst]. rewrite K1, K2, K3, K4. auto. }
  destruct (Batcher.EnsureSafeSplitKey E (Batcher.batchEndKey b0)) as [p|];
    [destruct (Batcher.EnsureSafeSplitKey E nextKey) as [n|];
     [destruct (GoBytes.Equal p n)|]|]; try apply F.
  cbn [fst]. rewrite K1, K2, K3, K4. auto.
Qed.

Lemma store_ms (b : Batcher.State E) (k : Batcher.MVCCKey) (value : list byte) :
  stats_consistent (Batcher.ms b) ->
  stats_consistent (Batcher.ms (fst (Batcher.store E b k value))).
Proof.
  intros H. unfold Batcher.store.
  destruct (Batcher.Count E _ _) as [c [code|]]; [exact H|].
  cbn [Batcher.disallowShadowingBelow Batcher.ms Batcher.sstWriter].
  destruct (negb _).
  - destruct (Batcher.PutRawMVCC E _ _ _) as [w perr]. cbn.
    apply updateMVCCStats_consistent_aux; exact H.
  - destruct (Batcher.PutRawMVCC E _ _ _) as [w perr]. exact H.
Qed.

End FlushEffects.

(** One [AddMVCCKey] of a key that is not below the last one: the batch
    stays ordered, and at most the file covering the batch is sent. *)
Lemma AddMVCCKey_step {E : Batcher.Env} (b : Batcher.State E) (k : Batcher.MVCCKey)
    (value : list byte) :
  KeyOrd.le (Batcher.batchStartKey b) (Batcher.batchEndKey b) ->
  KeyOrd.le (Batcher.batchEndKey b) (Batcher.Key k) ->
  let b' := fst (Batcher.AddMVCCKey E b k value) in
  KeyOrd.le (Batcher.batchStartKey b') (Batcher.batchEndKey b') /\
  KeyOrd.le (Batcher.batchEndKey b') (Batcher.Key k) /\
  (sent_spans (Batcher.trace b') = sent_spans (Batcher.trace b) \/
   exists why,
     sent_spans (Batcher.trace b') =
       sent_spans (Batcher.trace b) ++
       [(why, Batcher.batchStartKey b, KeyOrd.Next (Batcher.batchEndKey b))]).
Proof.
  intros Hse Hek.
  assert (A : let b' := fst (Batcher.accept E b k value) in
              KeyOrd.le (Batcher.batchStartKey b') (Batcher.batchEndKey b') /\
              KeyOrd.le (Batcher.batchEndKey b') (Batcher.Key k) /\
              (sent_spans (Batcher.trace b') = sent_spans (Batcher.trace b) \/
               exists why,
                 sent_spans (Batcher.trace b') =
                   sent_spans (Batcher.trace b) ++
                   [(why, Batcher.batchStartKey b, KeyOrd.Next (Batcher.batchEndKey b))])).
  { unfold Batcher.accept.
    destruct (flushIfNeeded_general b (Batcher.Key k)) as (F1 & _ & F3).
    destruct (Batcher.flushIfNeeded E b (Batcher.Key k)) as [b1 [err|]]; cbn [fst] in *.
    - destruct F1 as [(-> & ->)|(-> & ->)]; repeat split; auto;
        try apply Key_le_refl; apply Key_empty_le.
    - destruct (store_fields b1 k value) as (S1 & S2 & _ & _ & _ & S6).
      cbv zeta in *. rewrite S1, S2, S6.
      split; [|split; [apply Key_le_refl|exact F3]].
      destruct (GoBytes.is_empty (Batcher.batchStartKey b1)) eqn:Em;
        [apply Key_le_refl|].
      destruct F1 as [(F1a & F1b)|(F1a & F1b)].
      + rewrite F1a. eapply Key_le_trans; eassumption.
      + rewrite F1a in Em. discriminate Em. }
  unfold Batcher.AddMVCCKey.
  repeat match goal with
    | |- context [if ?c then _ else _] => destruct c
    end; try exact A; cbn [fst]; auto.
Qed.

(** X27. The files sent while keys are added in order cover spans that are
    not empty: each start key lies below its end key. *)
Theorem AddAll_sent_spans_ordered (E : Batcher.Env)
    (kvs : list (Batcher.MVCCKey * list byte)) (b : Batcher.State E) :
  KeyOrd.le (Batcher.batchStartKey b) (Batcher.batchEndKey b) ->
  keys_from (Batcher.batchEndKey b) kvs ->
  exists l,
    sent_spans (Batcher.trace (fst (Batcher.AddAll E b kvs))) =
      sent_spans (Batcher.trace b) ++ l /\
    Forall (fun x => KeyOrd.lt (snd (fst x)) (snd x)) l.
Proof.
  revert b. induction kvs as [|[k v] kvs IH]; intros b Hse Hk.
  - exists []. split; [now rewrite app_nil_r|constructor].
  - cbn [Batcher.AddAll].
    unfold keys_from in Hk. cbn [map fst] in Hk.
    inversion Hk as [|? ? Hk1 Hk2]; subst.
    inversion Hk2 as [|? ? Hek Hk3]; subst.
    destruct (AddMVCCKey_step b k v Hse Hek) as (I1 & I2 & I3).
    assert (L : forall why,
              Forall (fun x : Batcher.reason * Key * Key => KeyOrd.lt (snd (fst x)) (snd x))
                     [(why, Batcher.batchStartKey b, KeyOrd.Next (Batcher.batchEndKey b))]).
    { intros why. constructor; [|constructor]. cbn.
      apply Key_lt_Next_iff. exact Hse. }
    destruct (Batcher.AddMVCCKey E b k v) as [b1 [err|]]; cbn [fst] in *.
    + destruct I3 as [I3|(why & I3)]; rewrite I3.
      * exists []. split; [now rewrite app_nil_r|constructor].
      * eexists. split; [reflexivity|apply L].
    + destruct (IH b1 I1) as (l & Hl & Fl).
      { unfold keys_from. inversion Hk1 as [|? ? Hk1a Hk1b]; subst.
        constructor; [exact Hk1a|].
        eapply Forall_impl; [|exact Hk1b]. intros a Ha.
        eapply Key_le_trans; eassumption. }
      rewrite Hl.
      destruct I3 as [I3|(why & I3)]; rewrite I3.
      * exists l. auto.
      * rewrite <- app_assoc. eexists. split; [reflexivity|].
        apply Forall_app. split; [apply L|exact Fl].
Qed.

Lemma AddAll_sent_spans_ordered_witness :
  keys_from (Batcher.batchEndKey after_a_b) [(key_at x6e, [x7a]); (key_at x6f, [x7a])] /\
  exists l,
    sent_spans (Batcher.trace (fst (Batcher.AddAll (example_env 1000) after_a_b
                                      [(key_at x6e, [x7a]); (key_at x6f, [x7a])]))) =
      sent_spans (Batcher.trace after_a_b) ++ l /\
    Forall (fun x => KeyOrd.lt (snd (fst x)) (snd x)) l.
Proof.
  assert (H1 : KeyOrd.le (Batcher.batchStartKey after_a_b) (Batcher.batchEndKey after_a_b))
    by (vm_compute; discriminate).
  assert (H2 : keys_from (Batcher.batchEndKey after_a_b)
                         [(key_at x6e, [x7a]); (key_at x6f, [x7a])])
    by (repeat constructor; vm_compute; discriminate).
  split; [exact H2|].
  exact (AddAll_sent_spans_ordered (example_env 1000) _ after_a_b H1 H2).
Defined.

Lemma AddMVCCKey_ms {E : Batcher.Env} (b : Batcher.State E) (k : Batcher.MVCCKey)
    (value : list byte) :
  stats_consistent (Batcher.ms b) ->
  stats_consistent (Batcher.ms (fst (Batcher.AddMVCCKey E b k value))).
Proof.
  intros H.
  assert (A : stats_consistent (Batcher.ms (fst (Batcher.accept E b k value)))).
  { unfold Batcher.accept.
    destruct (flushIfNeeded_general b (Batcher.Key k)) as (_ & F2 & _).
    destruct (Batcher.flushIfNeeded E b (Batcher.Key k)) as [b1 [err|]]; cbn [fst] in *.
    - auto.
    - apply store_ms. auto. }
  unfold Batcher.AddMVCCKey.
  repeat match goal with
    | |- context [if ?c then _ else _] => destruct c
    end; try exact A; exact H.
Qed.

(** X28. The statistics of the batch under construction stay consistent
    through any sequence of additions, flushes included; a new batcher
    starts with consistent (zero) statistics. *)
Theorem AddAll_stats_consistent (E : Batcher.Env)
    (kvs : list (Batcher.MVCCKey * list byte)) (b : Batcher.State E) :
  stats_consistent (Batcher.ms b) ->
  stats_consistent (Batcher.ms (fst (Batcher.AddAll E b kvs))).
Proof.
  revert b. induction kvs as [|[k v] kvs IH]; intros b H; [exact H|].
  cbn [Batcher.AddAll].
  pose proof (AddMVCCKey_ms b k v H) as H1.
  destruct (Batcher.AddMVCCKey E b k v) as [b1 [err|]]; cbn [fst] in *; auto.
Qed.

Lemma AddAll_stats_consistent_witness :
  stats_consistent
    (Batcher.ms (fst (Batcher.AddAll (example_env 1000)
                        (Batcher.MakeSSTBatcher (example_env 1000) (hlc.mk 1 0) false true)
                        [(key_at x61, [x78]); (key_at x62, [x79])]))).
Proof.
  apply AddAll_stats_consistent. repeat split.
Defined.

(** X29. A successful [Flush] leaves no write timestamp to wait for, and it
    does not reset the batch: the keys of the batch and the remembered
    range boundary stay as they were. *)
Theorem Flush_spec (E : Batcher.Env) (b b' : Batcher.State E) :
  Batcher.Flush E b = (b', None) ->
  hlc.IsEmpty (Batcher.maxWriteTS b') = true /\ batch_keys b' = batch_keys b.
Proof.
  unfold Batcher.Flush.
  destruct (doFlush_general b Batcher.manualFlush) as (D1 & _ & _).
  destruct (Batcher.doFlush E b Batcher.manualFlush) as [b1 [err|]]; [discriminate|].
  cbn [fst] in D1.
  destruct (hlc.IsEmpty (Batcher.maxWriteTS b1)) eqn:Em; cbn [negb].
  - intros H. injection H as <-. auto.
  - destruct (hlc.Less _ _).
    + destruct (Batcher.SleepUntil E _); [discriminate|].
      intros H. injection H as <-. split; [reflexivity|exact D1].
    + intros H. injection H as <-. split; [reflexivity|exact D1].
Qed.

Lemma Flush_spec_witness :
  exists b', Batcher.Flush (example_env 1000) after_a_b = (b', None) /\
             Batcher.batchEndKey b' = [x62].
Proof.
  destruct (Batcher.Flush (example_env 1000) after_a_b) as [b' [err|]] eqn:F;
    [vm_compute in F; discriminate F|].
  exists b'. split; [reflexivity|].
  destruct (Flush_spec _ _ _ F) as (_ & K).
  exact (f_equal (fun x => snd (fst (fst (fst (fst x))))) K).
Defined.

(** X30. A flush for size waits for a row boundary.  With the file at or
    over the size threshold and no range boundary reached: while the next
    key belongs to the row of the last key the check does nothing; as soon
    as it belongs to another row (or one of the two is no row key) the
    file is sent for size and the batcher is reset. *)
Theorem size_flush_row_aligned (E : Batcher.Env) (b : Batcher.State E) (nextKey : Key) :
  Batcher.rc b = None \/ Batcher.flushKeyChecked b = true ->
  (forall B, Batcher.flushKey b = Some B -> KeyOrd.lt nextKey B) ->
  Batcher.ingestFileSize E <= Batcher.DataSize E (Batcher.sstWriter b) ->
  (forall p, Batcher.EnsureSafeSplitKey E (Batcher.batchEndKey b) = Some p ->
             Batcher.EnsureSafeSplitKey E nextKey = Some p ->
             Batcher.flushIfNeeded E b nextKey = (b, None)) /\
  (flush_succeeds E -> Batcher.DataSize E (Batcher.sstWriter b) <> 0 ->
   Batcher.EnsureSafeSplitKey E (Batcher.batchEndKey b)
     <> Batcher.EnsureSafeSplitKey E nextKey \/
   Batcher.EnsureSafeSplitKey E nextKey = None ->
   exists b',
     Batcher.flushIfNeeded E b nextKey = (b', None) /\
     sent_spans (Batcher.trace b') =
       sent_spans (Batcher.trace b) ++
       [(Batcher.sizeFlush, Batcher.batchStartKey b, KeyOrd.Next (Batcher.batchEndKey b))] /\
     batch_keys b' = ([], [], [], hlc.zero, false, None)).
Proof.
  intros Hrc Hfk Hsz.
  assert (Hb : (match Batcher.rc b with
                | Some cache =>
                    if negb (Batcher.flushKeyChecked b) then
                      let b0 := Batcher.set_flushKey E b true (Batcher.flushKey b) in
                      match Batcher.Addr E nextKey with
                      | None => b0
                      | Some k =>
                          match cache k with
                          | None => b0
                          | Some endKey => Batcher.set_flushKey E b0 true endKey
                          end
                      end
                    else b
                | None => b
                end) = b).
  { destruct Hrc as [->| ->]; [reflexivity|]. now destruct (Batcher.rc b). }
  assert (Hr : match Batcher.flushKey b with
               | Some fk => GoBytes.le0 (KeyOrd.Compare fk nextKey)
               | None => false
               end = false).
  { destruct (Batcher.flushKey b) as [fk|] eqn:Fk; [|reflexivity].
    specialize (Hfk fk eq_refl). apply Key_gt_lt in Hfk.
    unfold KeyOrd.Compare. now rewrite Hfk. }
  unfold Batcher.flushIfNeeded. cbv zeta in Hb. rewrite Hb, Hr.
  destruct (Z.leb_spec (Batcher.ingestFileSize E) (Batcher.DataSize E (Batcher.sstWriter b)));
    [|lia].
  split.
  - intros p Hp Hn. rewrite Hp, Hn.
    unfold GoBytes.Equal. now rewrite Compare_refl.
  - intros Hok Hnz Hrow.
    destruct (doFlush_sends b Batcher.sizeFlush Hok Hnz) as (b1 & D & T).
    destruct (doFlush_general b Batcher.sizeFlush) as (K & _ & _).
    rewrite D in K |- *. cbn [fst] in K.
    exists (Batcher.Reset E b1).
    split; [|split; [exact T|reflexivity]].
    destruct (Batcher.EnsureSafeSplitKey E (Batcher.batchEndKey b)) as [p|];
      [|reflexivity].
    destruct (Batcher.EnsureSafeSplitKey E nextKey) as [n|]; [|reflexivity].
    destruct (GoBytes.Equal p n) eqn:Eq; [|reflexivity].
    exfalso. unfold GoBytes.Equal in Eq.
    destruct (GoBytes.Compare p n) eqn:C; try discriminate Eq.
    apply Compare_eq in C. subst n.
    destruct Hrow as [Hrow|Hrow]; [now apply Hrow|discriminate Hrow].
Qed.

Lemma size_flush_row_aligned_witness :
  Batcher.ingestFileSize (example_env 4)
    <= Batcher.DataSize (example_env 4)
         (Batcher.sstWriter (fst (Batcher.AddAll (example_env 4)
            (Batcher.MakeSSTBatcher (example_env 4) hlc.zero false true)
            [(key_at x61, [x78]); (key_at x62, [x79])]))) /\
  exists b',
    Batcher.flushIfNeeded (example_env 4)
      (fst (Batcher.AddAll (example_env 4)
              (Batcher.MakeSSTBatcher (example_env 4) hlc.zero false true)
              [(key_at x61, [x78]); (key_at x62, [x79])])) [x63] = (b', None) /\
    sent_spans (Batcher.trace b') = [(Batcher.sizeFlush, [x61], [x62; x00])].
Proof.
  set (b := fst (Batcher.AddAll (example_env 4)
              (Batcher.MakeSSTBatcher (example_env 4) hlc.zero false true)
              [(key_at x61, [x78]); (key_at x62, [x79])])).
  assert (H1 : Batcher.rc b = None \/ Batcher.flushKeyChecked b = true) by (left; reflexivity).
  assert (H2 : forall B, Batcher.flushKey b = Some B -> KeyOrd.lt [x63] B)
    by (intros B HB; vm_compute in HB; discriminate HB).
  assert (H3 : Batcher.ingestFileSize (example_env 4)
               <= Batcher.DataSize (example_env 4) (Batcher.sstWriter b))
    by (vm_compute; discriminate).
  split; [exact H3|].
  destruct (proj2 (size_flush_row_aligned (example_env 4) b [x63] H1 H2 H3)
              (example_env_flush_succeeds 4)) as (b' & F & T & _).
  - vm_compute. discriminate.
  - left. vm_compute. discriminate.
  - exists b'. split; [exact F|]. rewrite T. reflexivity.
Defined.
